(** * PianoMiles: the beat-driven level generator and the game loop of main.py

    The development embeds the gameplay core of [main.py]:
    [generate_level], the [Tile] class, [handle_tile_tap] and the body of the
    [while running] loop of [main_game_loop], and proves the properties the
    design document states about them.

    Conventions of the embedding.
    - Python [int] is [Z]; [//] is [Z.div] (both round towards minus
      infinity); a division by zero raises [ZeroDivisionError].
    - Python [float] is read as an exact rational ([Q]): rounding is outside
      the model, and positions and times are compared as exact numbers.
    - An exception is the [Raise] case of [result].
    - [random.choice] reads its draws from an injected stream [rnd].
    - [time.time()], [clock.get_time()], [pygame.event.get()] and
      [pygame.mixer.music.get_busy()] are inputs of a frame.
    - Inside the game loop [print] appends a record to [stdout]; the
      diagnostics printed outside the loop, sounds and drawing are omitted. *)

From Stdlib Require Import List ZArith QArith Lia Lqa Bool Arith.
From Stdlib Require Import Sorted.
Import ListNotations.

Local Open Scope Z_scope.

(** ** Exceptions *)

Inductive PyError : Type :=
| ValueError
| IndexError
| ZeroDivisionError.

Inductive result (A : Type) : Type :=
| Ok (a : A)
| Raise (e : PyError).

Arguments Ok {A} a.
Arguments Raise {A} e.

Definition bind {A B : Type} (m : result A) (f : A -> result B) : result B :=
  match m with
  | Ok a => f a
  | Raise e => Raise e
  end.

Notation "x <- m ;; k" := (bind m (fun x => k))
  (at level 61, m at next level, right associativity).

Definition raises {A : Type} (m : result A) : Prop :=
  exists e, m = Raise e.

(** ** Python built-ins used by the source *)

(** [len(range(lo, hi, step))], as CPython computes it. *)
Definition range_len (lo hi step : Z) : Z :=
  if 0 <? step then
    if lo <? hi then (hi - lo - 1) / step + 1 else 0
  else if step <? 0 then
    if hi <? lo then (lo - hi - 1) / (- step) + 1 else 0
  else 0.

(** [range(lo, hi, step)]; a zero step is a [ValueError]. *)
Definition py_range (lo hi step : Z) : result (list Z) :=
  if step =? 0 then Raise ValueError
  else Ok (map (fun k => lo + Z.of_nat k * step)
               (seq 0 (Z.to_nat (range_len lo hi step)))).

(** [list(range(n))]. *)
Definition range_upto (n : Z) : list Z :=
  map Z.of_nat (seq 0 (Z.to_nat n)).

(** [l[i]], negative indices counting from the end. *)
Definition py_index {A : Type} (l : list A) (i : Z) : result A :=
  let n := Z.of_nat (length l) in
  let j := if i <? 0 then i + n else i in
  if (j <? 0) || (n <=? j) then Raise IndexError
  else match nth_error l (Z.to_nat j) with
       | Some a => Ok a
       | None => Raise IndexError
       end.

(** [random.choice(seq)]: an empty sequence is an [IndexError]; otherwise the
    element at a position below [len(seq)], here the draw reduced modulo the
    length, so that every position can be drawn. *)
Definition random_choice {A : Type} (draw : nat) (seq : list A) : result A :=
  match seq with
  | [] => Raise IndexError
  | _ :: _ =>
      match nth_error seq (draw mod length seq)%nat with
      | Some a => Ok a
      | None => Raise IndexError
      end
  end.

(** ** Level generator *)

(** One entry of the level: [{'time': beat, 'column': column}]. *)
Record ScheduledTarget : Type := mkTarget {
  time : Q;
  column : Z
}.

(** The candidate lanes of one iteration: all lanes for the first beat, all
    lanes but the last emitted one afterwards. *)
Definition possible_columns (num_columns i : Z) (level : list ScheduledTarget)
  : result (list Z) :=
  if 0 <? i then
    last_target <- py_index level (-1) ;;
    Ok (filter (fun c => negb (c =? column last_target)) (range_upto num_columns))
  else Ok (range_upto num_columns).

(** The body of [for i in range(0, len(beat_times), beat_skip)]; [k] counts
    the calls of [random.choice] made so far. *)
Fixpoint generate_level_loop (rnd : nat -> nat) (beat_times : list Q)
    (num_columns : Z) (indices : list Z) (k : nat)
    (level : list ScheduledTarget) : result (list ScheduledTarget) :=
  match indices with
  | [] => Ok level
  | i :: rest =>
      beat <- py_index beat_times i ;;
      possible <- possible_columns num_columns i level ;;
      col <- random_choice (rnd k) possible ;;
      generate_level_loop rnd beat_times num_columns rest (S k)
        (level ++ [mkTarget beat col])
  end.

Definition generate_level (rnd : nat -> nat) (beat_times : list Q)
    (num_columns beat_skip : Z) : result (list ScheduledTarget) :=
  indices <- py_range 0 (Z.of_nat (length beat_times)) beat_skip ;;
  generate_level_loop rnd beat_times num_columns indices 0 [].

(** ** Tile class *)

Module Tile.

Record t : Type := mk {
  column : Z;
  spawn_time : Q;
  tile_speed : Q;
  tile_width : Z;
  tile_height : Z;
  screen_height : Z;
  num_columns : Z;
  x : Z;
  y : Q;
  hit : bool
}.

(** [Tile.__init__]. *)
Definition init (column : Z) (spawn_time tile_speed : Q)
    (tile_width tile_height screen_height num_columns : Z) : t :=
  mk column spawn_time tile_speed tile_width tile_height screen_height
     num_columns (column * tile_width) (inject_Z (- tile_height)) false.

(** [Tile.update]: [self.y += self.tile_speed * delta_time]. *)
Definition update (self : t) (delta_time : Q) : t :=
  mk (column self) (spawn_time self) (tile_speed self) (tile_width self)
     (tile_height self) (screen_height self) (num_columns self) (x self)
     (y self + tile_speed self * delta_time)%Q (hit self).

End Tile.

(** ** Feedback records, events and console output *)

Definition Color : Type := (Z * Z * Z)%type.

(** The two shapes of the dictionaries kept in [animations]; the rendering
    entries (['font'], ['current_surf']) are omitted. *)
Inductive Animation : Type :=
| Circle (x : Z) (y : Q) (radius : Q) (color : Color) (alpha : Q)
| MilestoneText (milestone : Z) (x y : Z) (color : Color) (alpha : Z)
    (duration start_time : Q).

Inductive Event : Type :=
| QUIT
| KEYDOWN (key : Z)
| OtherEvent.

(** The lines the game loop prints. *)
Inductive Output : Type :=
| KeyPressed (key : Z)
| HitZone (hit_zone_start hit_zone_end : Z)
| TileYPosition (y : Q)
| MissedTap (pressed_column score : Z)
| MissedTile (column misses : Z)
| TooManyMisses
| MilestoneReached (milestone : Z)
| SongEnded.

(** pygame key codes. *)
Definition K_q : Z := 113.
Definition K_w : Z := 119.
Definition K_e : Z := 101.
Definition K_r : Z := 114.

Definition key_to_column : list (Z * Z) :=
  [(K_q, 0); (K_w, 1); (K_e, 2); (K_r, 3)].

(** [d.get(key)] on a dictionary given by its items. *)
Fixpoint dict_get (d : list (Z * Z)) (key : Z) : option Z :=
  match d with
  | [] => None
  | (k, v) :: rest => if k =? key then Some v else dict_get rest key
  end.

(** ** State of the game loop *)

Record State : Type := mkState {
  tiles : list Tile.t;
  animations : list Animation;
  start_time : Q;
  current_tile_index : nat;
  score : Z;
  misses : Z;
  achieved_milestones : list Z;
  running : bool;
  stdout : list Output
}.

Definition set_tiles (ts : list Tile.t) (s : State) : State :=
  mkState ts (animations s) (start_time s) (current_tile_index s) (score s)
    (misses s) (achieved_milestones s) (running s) (stdout s).

Definition set_animations (an : list Animation) (s : State) : State :=
  mkState (tiles s) an (start_time s) (current_tile_index s) (score s)
    (misses s) (achieved_milestones s) (running s) (stdout s).

Definition set_current_tile_index (i : nat) (s : State) : State :=
  mkState (tiles s) (animations s) (start_time s) i (score s)
    (misses s) (achieved_milestones s) (running s) (stdout s).

Definition set_score (z : Z) (s : State) : State :=
  mkState (tiles s) (animations s) (start_time s) (current_tile_index s) z
    (misses s) (achieved_milestones s) (running s) (stdout s).

Definition set_misses (z : Z) (s : State) : State :=
  mkState (tiles s) (animations s) (start_time s) (current_tile_index s)
    (score s) z (achieved_milestones s) (running s) (stdout s).

Definition set_achieved_milestones (ms : list Z) (s : State) : State :=
  mkState (tiles s) (animations s) (start_time s) (current_tile_index s)
    (score s) (misses s) ms (running s) (stdout s).

Definition set_running (b : bool) (s : State) : State :=
  mkState (tiles s) (animations s) (start_time s) (current_tile_index s)
    (score s) (misses s) (achieved_milestones s) b (stdout s).

(** [animations.append(a)]. *)
Definition add_animation (a : Animation) (s : State) : State :=
  set_animations (animations s ++ [a]) s.

(** [print(...)]. *)
Definition print (o : Output) (s : State) : State :=
  mkState (tiles s) (animations s) (start_time s) (current_tile_index s)
    (score s) (misses s) (achieved_milestones s) (running s) (stdout s ++ [o]).

(** The arguments of [main_game_loop] the gameplay depends on. *)
Record Config : Type := mkConfig {
  level : list ScheduledTarget;
  screen_width : Z;
  screen_height : Z;
  num_columns : Z;
  hit_time : Q
}.

Definition tile_width (cfg : Config) : Z := screen_width cfg / num_columns cfg.
Definition tile_height : Z := 100.
Definition tile_speed (cfg : Config) : Q :=
  (inject_Z (screen_height cfg) / hit_time cfg)%Q.
Definition max_misses : Z := 5.
Definition MILESTONES : list Z := [100; 200; 300; 400; 500].
Definition hit_zone_buffer : Z := 300.

Definition red : Color := (255, 0, 0).
Definition blue : Color := (0, 0, 255).
Definition gold : Color := (255, 215, 0).

Definition Qlt_bool (a b : Q) : bool := negb (Qle_bool b a).

(** ** Input resolver *)

(** The test of the scan in [handle_tile_tap]:
    [tile.column == pressed_column and hit_zone_start <= tile.y <= hit_zone_end]. *)
Definition tap_hits (pressed_column hit_zone_start hit_zone_end : Z)
    (tile : Tile.t) : bool :=
  (Tile.column tile =? pressed_column)
  && Qle_bool (inject_Z hit_zone_start) (Tile.y tile)
  && Qle_bool (Tile.y tile) (inject_Z hit_zone_end).

(** [for tile in tiles[:]] up to the [break]: the tile that is hit together
    with the list left by [tiles.remove(tile)], or [None] when the loop runs
    to its [else] branch.  [seen] holds the tiles already passed over. *)
Fixpoint tap_scan (is_hit : Tile.t -> bool) (seen rest : list Tile.t)
  : option (Tile.t * list Tile.t) :=
  match rest with
  | [] => None
  | tile :: rest' =>
      if is_hit tile then Some (tile, seen ++ rest')
      else tap_scan is_hit (seen ++ [tile]) rest'
  end.

Definition circle_at_tile (tile : Tile.t) (color : Color) : Animation :=
  Circle (Tile.x tile + Tile.tile_width tile / 2)
         (Tile.y tile + inject_Z (Tile.tile_height tile / 2))%Q
         30 color 255.

Definition handle_tile_tap (key num_columns screen_width screen_height
    tile_height : Z) (s : State) : result State :=
  match dict_get key_to_column key with
  | None => Ok s
  | Some pressed_column =>
      let s := print (KeyPressed key) s in
      let hit_zone_y := screen_height - tile_height in
      let hit_zone_start := hit_zone_y - hit_zone_buffer in
      let hit_zone_end := hit_zone_y + hit_zone_buffer in
      let s := print (HitZone hit_zone_start hit_zone_end) s in
      match tap_scan (tap_hits pressed_column hit_zone_start hit_zone_end)
                     [] (tiles s) with
      | Some (tile, remaining) =>
          let s := print (TileYPosition (Tile.y tile)) s in
          let s := set_tiles remaining s in
          let s := set_score (score s + 1) s in
          Ok (add_animation (circle_at_tile tile blue) s)
      | None =>
          let s := set_score (score s - 1) s in
          let s := print (MissedTap pressed_column (score s)) s in
          if num_columns =? 0 then Raise ZeroDivisionError
          else
            Ok (add_animation
                  (Circle (pressed_column * (screen_width / num_columns)
                           + (screen_width / num_columns) / 2)
                          (inject_Z (screen_height - tile_height))
                          30 red 255) s)
      end
  end.

(** ** The phases of one pass of the [while running] loop *)

Definition handle_event (cfg : Config) (event : Event) (s : State)
  : result State :=
  match event with
  | QUIT => Ok (set_running false s)
  | KEYDOWN key =>
      handle_tile_tap key (num_columns cfg) (screen_width cfg)
        (screen_height cfg) tile_height s
  | OtherEvent => Ok s
  end.

Fixpoint handle_events (cfg : Config) (events : list Event) (s : State)
  : result State :=
  match events with
  | [] => Ok s
  | event :: rest =>
      s' <- handle_event cfg event s ;;
      handle_events cfg rest s'
  end.

Definition new_tile (cfg : Config) (target : ScheduledTarget) : Tile.t :=
  Tile.init (column target) (time target) (tile_speed cfg) (tile_width cfg)
    tile_height (screen_height cfg) (num_columns cfg).

(** [while current_tile_index < total_tiles and
     level[current_tile_index]['time'] <= current_time]; [pending] is
    [level[current_tile_index:]]. *)
Fixpoint spawn_loop (cfg : Config) (current_time : Q)
    (pending : list ScheduledTarget) (s : State) : State :=
  match pending with
  | [] => s
  | target :: rest =>
      if Qle_bool (time target) current_time then
        spawn_loop cfg current_time rest
          (set_current_tile_index (S (current_tile_index s))
             (set_tiles (tiles s ++ [new_tile cfg target]) s))
      else s
  end.

Definition spawn_tiles (cfg : Config) (current_time : Q) (s : State) : State :=
  spawn_loop cfg current_time (skipn (current_tile_index s) (level cfg)) s.

Definition update_tiles (delta_time : Q) (s : State) : State :=
  set_tiles (map (fun tile => Tile.update tile delta_time) (tiles s)) s.

Inductive Reason : Type :=
| MaxMisses
| SongFinished.

(** What a pass of the loop leads to: the next pass, or the game-over
    screen. *)
Inductive Outcome : Type :=
| Continue (s : State)
| GameOver (why : Reason) (s : State).

(** [for tile in tiles[:]: if tile.y > screen_height: ...]; [kept] holds the
    tiles passed over and left in [tiles]. *)
Fixpoint missed_loop (screen_height : Z) (kept rest : list Tile.t) (s : State)
  : Outcome :=
  match rest with
  | [] => Continue (set_tiles kept s)
  | tile :: rest' =>
      if Qlt_bool (inject_Z screen_height) (Tile.y tile) then
        let s := set_misses (misses s + 1) s in
        let s := print (MissedTile (Tile.column tile) (misses s)) s in
        let s := add_animation (circle_at_tile tile red) s in
        if max_misses <=? misses s then
          GameOver MaxMisses (set_tiles (kept ++ rest') (print TooManyMisses s))
        else missed_loop screen_height kept rest' s
      else missed_loop screen_height (kept ++ [tile]) rest' s
  end.

Definition detect_missed_tiles (cfg : Config) (s : State) : Outcome :=
  missed_loop (screen_height cfg) [] (tiles s) s.

(** [for milestone in MILESTONES: ...]; [k] is the number of readings of
    [time.time()] taken so far in this pass. *)
Fixpoint milestone_loop (cfg : Config) (wall : nat -> Q) (thresholds : list Z)
    (k : nat) (s : State) : nat * State :=
  match thresholds with
  | [] => (k, s)
  | milestone :: rest =>
      if (milestone <=? score s)
         && negb (existsb (Z.eqb milestone) (achieved_milestones s)) then
        let s := set_achieved_milestones (achieved_milestones s ++ [milestone]) s in
        let s := print (MilestoneReached milestone) s in
        let s := add_animation
                   (MilestoneText milestone (screen_width cfg / 2)
                      (screen_height cfg / 2) gold 255 2 (wall k)) s in
        milestone_loop cfg wall rest (S k) s
      else milestone_loop cfg wall rest k s
  end.

Definition check_milestones (cfg : Config) (wall : nat -> Q) (k : nat)
    (s : State) : nat * State :=
  milestone_loop cfg wall MILESTONES k s.

(** One step of [update_animations] on one record: [None] when the record is
    removed from the list. *)
Definition update_animation (delta_time current_time : Q) (a : Animation)
  : option Animation :=
  match a with
  | Circle x y radius color alpha =>
      let radius := (radius - 200 * delta_time)%Q in
      let alpha := (alpha - 255 * delta_time)%Q in
      if Qle_bool radius 0 || Qle_bool alpha 0 then None
      else Some (Circle x y radius color alpha)
  | MilestoneText _ _ _ _ _ duration start_time =>
      if Qle_bool duration (current_time - start_time) then None else Some a
  end.

(** [update_animations]: every record is stepped once; a record the loop
    removes is the one it is looking at, so the list is filtered in place. *)
Fixpoint update_animations (animations : list Animation)
    (delta_time current_time : Q) : list Animation :=
  match animations with
  | [] => []
  | a :: rest =>
      match update_animation delta_time current_time a with
      | Some a' => a' :: update_animations rest delta_time current_time
      | None => update_animations rest delta_time current_time
      end
  end.

(** What the environment supplies to one pass: the readings of [time.time()]
    in the order they are taken, the queued events, [clock.get_time()] and
    [pygame.mixer.music.get_busy()]. *)
Record FrameInput : Type := mkFrame {
  wall : nat -> Q;
  events : list Event;
  clock_ms : Z;
  music_busy : bool
}.

(** The first half of the body of [while running]: the queued events are
    handled, the due targets are spawned and every tile is moved. *)
Definition advance (cfg : Config) (inp : FrameInput) (s : State)
  : result State :=
  let current_time := (wall inp 0 - start_time s)%Q in
  s <- handle_events cfg (events inp) s ;;
  let s := spawn_tiles cfg current_time s in
  let delta_time := (inject_Z (clock_ms inp) / 1000)%Q in
  Ok (update_tiles delta_time s).

(** The second half of the body: the fallen tiles are swept, the milestones
    checked, the animations stepped and the end of the song looked for. *)
Definition finish (cfg : Config) (inp : FrameInput) (s : State) : Outcome :=
  let delta_time := (inject_Z (clock_ms inp) / 1000)%Q in
  match detect_missed_tiles cfg s with
  | GameOver why s => GameOver why s
  | Continue s =>
      let (k, s) := check_milestones cfg (wall inp) 1 s in
      let s := set_animations
                 (update_animations (animations s) delta_time (wall inp k)) s in
      if negb (music_busy inp) && (Nat.eqb (length (tiles s)) 0) then
        GameOver SongFinished (print SongEnded s)
      else Continue s
  end.

(** The body of [while running]. *)
Definition frame (cfg : Config) (inp : FrameInput) (s : State)
  : result Outcome :=
  s <- advance cfg inp s ;;
  Ok (finish cfg inp s).

(** How the loop ends on a finite supply of frames. *)
Inductive LoopResult : Type :=
| Terminal (why : Reason) (s : State)
| Exited (s : State)
| Pending (s : State).

Fixpoint game_loop (cfg : Config) (frames : list FrameInput) (s : State)
  : result LoopResult :=
  match frames with
  | [] => Ok (if running s then Pending s else Exited s)
  | inp :: rest =>
      if running s then
        o <- frame cfg inp s ;;
        match o with
        | GameOver why s' => Ok (Terminal why s')
        | Continue s' => game_loop cfg rest s'
        end
      else Ok (Exited s)
  end.

(** The locals of [main_game_loop] before the loop; [t0] is the reading of
    [time.time()] kept in [start_time]. *)
Definition initial_state (t0 : Q) : State :=
  mkState [] [] t0 0 0 0 [] true [].

Definition main_game_loop (cfg : Config) (t0 : Q) (frames : list FrameInput)
  : result LoopResult :=
  if num_columns cfg =? 0 then Raise ZeroDivisionError
  else if Qeq_bool (hit_time cfg) 0 then Raise ZeroDivisionError
  else game_loop cfg frames (initial_state t0).

(** ** Session start *)

(** How one pass of the [while True] of [run_piano_tiles_clone] ends. *)
Inductive SessionResult : Type :=
| LoadFailed
| BeatsFailed
| WindowClosed
| Played (level : list ScheduledTarget) (r : LoopResult).

(** One pass of [run_piano_tiles_clone]: [loaded] tells whether [load_mp3]
    returned a signal, [tempo] and [beat_times] are what [extract_beats]
    returned, [start_clicked] whether the start screen returned. *)
Definition run_piano_tiles_clone (loaded : bool) (tempo : option Q)
    (beat_times : list Q) (rnd : nat -> nat) (beat_skip : Z)
    (start_clicked : bool) (t0 : Q) (frames : list FrameInput)
  : result SessionResult :=
  if negb loaded then Ok LoadFailed
  else match tempo with
       | None => Ok BeatsFailed
       | Some _ =>
           level <- generate_level rnd beat_times 4 beat_skip ;;
           if start_clicked then
             r <- main_game_loop (mkConfig level 800 600 4 2) t0 frames ;;
             Ok (Played level r)
           else Ok WindowClosed
       end.

(** ** Vocabulary of the properties *)

(** No two neighbours of a lane sequence are equal. *)
Fixpoint no_adjacent_repeat (lanes : list Z) : Prop :=
  match lanes with
  | a :: (b :: _) as rest => a <> b /\ no_adjacent_repeat rest
  | _ => True
  end.

(** The lanes a target may take after a target in lane [prev] ([None] for
    the first target). *)
Definition lane_choices (num_columns : Z) (prev : option Z) : list Z :=
  match prev with
  | None => range_upto num_columns
  | Some p => filter (fun c => negb (c =? p)) (range_upto num_columns)
  end.

(** Every lane of the sequence belongs to the choices left by its
    predecessor. *)
Fixpoint drawn_from (num_columns : Z) (prev : option Z) (lanes : list Z)
  : Prop :=
  match lanes with
  | [] => True
  | c :: rest =>
      In c (lane_choices num_columns prev) /\ drawn_from num_columns (Some c) rest
  end.

(** A sequence of times never goes down. *)
Definition nondecreasing (l : list Q) : Prop :=
  forall i j a b, (i <= j)%nat ->
    nth_error l i = Some a -> nth_error l j = Some b -> (a <= b)%Q.

Definition last_column (level : list ScheduledTarget) : option Z :=
  match rev level with
  | [] => None
  | e :: _ => Some (column e)
  end.

(** The state an outcome carries. *)
Definition state_of (o : Outcome) : State :=
  match o with
  | Continue s => s
  | GameOver _ s => s
  end.

Definition loop_state (r : LoopResult) : State :=
  match r with
  | Terminal _ s => s
  | Exited s => s
  | Pending s => s
  end.

(** The hit window in the words of the design: the lane matches and the
    vertical position lies within 300 of the hit line
    [playfield_height - target_height]. *)
Definition in_hit_window (playfield_height target_height lane : Z)
    (tile : Tile.t) : Prop :=
  Tile.column tile = lane
  /\ (inject_Z (playfield_height - target_height - 300) <= Tile.y tile)%Q
  /\ (Tile.y tile <= inject_Z (playfield_height - target_height + 300))%Q.

(** A tile that has left the playfield. *)
Definition overdue (playfield_height : Z) (tile : Tile.t) : bool :=
  Qlt_bool (inject_Z playfield_height) (Tile.y tile).

Definition count_overdue (playfield_height : Z) (ts : list Tile.t) : Z :=
  Z.of_nat (length (filter (overdue playfield_height) ts)).

(** A scheduled target whose time has come at elapsed time [t]. *)
Definition due (t : Q) (target : ScheduledTarget) : bool :=
  Qle_bool (time target) t.

(** The spawning phase run once per tick, for the elapsed times [ts]. *)
Definition spawn_run (cfg : Config) (ts : list Q) (s : State) : State :=
  fold_left (fun s t => spawn_tiles cfg t s) ts s.

(** Decidable form of [nondecreasing]. *)
Fixpoint nondecreasingb (l : list Q) : bool :=
  match l with
  | a :: (b :: _) as rest => Qle_bool a b && nondecreasingb rest
  | _ => true
  end.

(** The thresholds announced on the console, oldest first. *)
Fixpoint milestone_prints (out : list Output) : list Z :=
  match out with
  | [] => []
  | MilestoneReached m :: rest => m :: milestone_prints rest
  | _ :: rest => milestone_prints rest
  end.

(** The thresholds of the milestone records of an animation list. *)
Fixpoint milestone_records (an : list Animation) : list Z :=
  match an with
  | [] => []
  | MilestoneText m _ _ _ _ _ _ :: rest => m :: milestone_records rest
  | _ :: rest => milestone_records rest
  end.

(** Two states that differ at most in score, feedback, console output and
    milestones reached. *)
Definition same_play (s s' : State) : Prop :=
  tiles s = tiles s' /\ misses s = misses s'
  /\ current_tile_index s = current_tile_index s'
  /\ start_time s = start_time s' /\ running s = running s'.

(** Which way a pass of the loop went. *)
Inductive Kind : Type :=
| Goes
| Ends (why : Reason)
| Fails.

Definition kind_of (r : result Outcome) : Kind :=
  match r with
  | Ok (Continue _) => Goes
  | Ok (GameOver why _) => Ends why
  | Raise _ => Fails
  end.

(** The configuration [run_piano_tiles_clone] plays with. *)
Definition default_config (level : list ScheduledTarget) : Config :=
  mkConfig level 800 600 4 2.

(** A state for the bookkeeping scenario: one tile in lane 0 inside the hit
    window (at 500) and one tile in lane 1 below the playfield (at 800). *)
Definition scenario_state : State :=
  set_tiles [Tile.update (Tile.init 0 0 300 200 100 600 4) 2;
             Tile.update (Tile.init 1 0 300 200 100 600 4) 3]
    (initial_state 0).

(** The fields a tap never writes. *)
Definition tap_keeps (s s' : State) : Prop :=
  misses s' = misses s
  /\ current_tile_index s' = current_tile_index s
  /\ start_time s' = start_time s
  /\ achieved_milestones s' = achieved_milestones s
  /\ milestone_prints (stdout s') = milestone_prints (stdout s)
  /\ milestone_records (animations s') = milestone_records (animations s).

(** The loop keeps the console and the list of milestones reached in step:
    the thresholds announced are the thresholds recorded, none twice. *)
Definition milestones_in_step (s : State) : Prop :=
  NoDup (achieved_milestones s)
  /\ milestone_prints (stdout s) = achieved_milestones s
  /\ incl (achieved_milestones s) MILESTONES.

(** A state one point short of the first milestone, with two tiles of lane 0
    inside the hit window. *)
Definition milestone_state : State :=
  set_score 99
    (set_tiles [Tile.update (Tile.init 0 0 300 200 100 600 4) 2;
                Tile.update (Tile.init 0 0 300 200 100 600 4) 2]
       (initial_state 0)).

(** A pass with one key press, a frame clock at rest and the music playing. *)
Definition key_frame (key : Z) : FrameInput :=
  mkFrame (fun _ => 0%Q) [KEYDOWN key] 0 true.

(** A level of [n] targets due at once, in lanes 0, 1, 0, 1, ... *)
Definition burst_level (n : nat) : list ScheduledTarget :=
  map (fun k => mkTarget 0 (Z.of_nat (k mod 2))) (seq 0 n).

(** A pass three seconds long, without events, the music playing. *)
Definition long_frame : FrameInput :=
  mkFrame (fun _ => 0%Q) [] 3000 true.

(** A level of [n] targets three seconds apart, and the passes that go with
    it: pass [k] starts at second [3 * k] and lasts three seconds, long
    enough for the target spawned in it to fall through. *)
Definition spaced_level (n : nat) : list ScheduledTarget :=
  map (fun k => mkTarget (inject_Z (3 * Z.of_nat k)) (Z.of_nat (k mod 2)))
      (seq 0 n).

Definition spaced_frames (n : nat) : list FrameInput :=
  map (fun k => mkFrame (fun _ => inject_Z (3 * Z.of_nat k)) [] 3000 true)
      (seq 0 n).

(** The targets at the head of [pending] that the spawning loop takes at
    elapsed time [t]: those up to the first one that is not due. *)
Fixpoint take_due (t : Q) (pending : list ScheduledTarget)
  : list ScheduledTarget :=
  match pending with
  | [] => []
  | target :: rest => if due t target then target :: take_due t rest else []
  end.

(** A target that was due at one of the ticks [ts]. *)
Definition ever_due (ts : list Q) (target : ScheduledTarget) : bool :=
  existsb (fun t => due t target) ts.

(** A test on targets that, once passed by a target, is passed by every
    earlier one. *)
Definition down_closed (P : ScheduledTarget -> bool) : Prop :=
  forall e e', P e = true -> (time e' <= time e)%Q -> P e' = true.

(** ** Vocabulary of the further properties *)

(** The position of the first occurrence of [c] in [l] ([length l] when
    there is none). *)
Fixpoint index_of (c : Z) (l : list Z) : nat :=
  match l with
  | [] => 0
  | x :: rest => if x =? c then 0 else S (index_of c rest)
  end.

(** The draws that make [random.choice] pick the lanes [lanes] one after
    the other. *)
Definition draws_for (num_columns : Z) (lanes : list Z) (k : nat) : nat :=
  index_of (nth k lanes 0)
    (lane_choices num_columns
       (match k with
        | O => None
        | S j => Some (nth j lanes 0)
        end)).

(** The number of key presses of a lane key among the events. *)
Fixpoint mapped_presses (events : list Event) : Z :=
  match events with
  | [] => 0
  | KEYDOWN key :: rest =>
      match dict_get key_to_column key with
      | Some _ => 1 + mapped_presses rest
      | None => mapped_presses rest
      end
  | _ :: rest => mapped_presses rest
  end.

(** The hits, the wrong taps and the fallen tiles the loop has reported on
    the console. *)
Fixpoint hit_prints (out : list Output) : Z :=
  match out with
  | [] => 0
  | TileYPosition _ :: rest => 1 + hit_prints rest
  | _ :: rest => hit_prints rest
  end.

Fixpoint wrong_tap_prints (out : list Output) : Z :=
  match out with
  | [] => 0
  | MissedTap _ _ :: rest => 1 + wrong_tap_prints rest
  | _ :: rest => wrong_tap_prints rest
  end.

Fixpoint fallen_prints (out : list Output) : Z :=
  match out with
  | [] => 0
  | MissedTile _ _ :: rest => 1 + fallen_prints rest
  | _ :: rest => fallen_prints rest
  end.

(** The books of a session balance: every tile spawned is still active, was
    hit or has fallen; the score is the hits less the wrong taps; the miss
    count is the number of fallen tiles. *)
Definition books_balance (s : State) : Prop :=
  Z.of_nat (current_tile_index s)
  = Z.of_nat (length (tiles s)) + misses s + hit_prints (stdout s)
  /\ score s = hit_prints (stdout s) - wrong_tap_prints (stdout s)
  /\ misses s = fallen_prints (stdout s).


(** The list of milestones reached is an initial segment of [MILESTONES]. *)
Definition milestone_prefix (achieved : list Z) : Prop :=
  exists n, achieved = firstn n MILESTONES.

(** A threshold is recorded only once that many targets were spawned. *)
Definition milestones_earned (s : State) : Prop :=
  books_balance s
  /\ (forall m, In m (achieved_milestones s) ->
                100 <= m <= Z.of_nat (current_tile_index s)).

(** * Properties *)

Example generate_level_sample :
  generate_level (fun k => k) [0.5; 1; 1.5; 2]%Q 4 1
  = Ok [mkTarget 0.5 0; mkTarget 1 2; mkTarget 1.5 3; mkTarget 2 0]%Q.
Proof. reflexivity. Qed.

(** ** Built-ins *)

Lemma bind_ok {A B : Type} (m : result A) (f : A -> result B) (a : A) :
  m = Ok a -> bind m f = f a.
Proof. intros ->. reflexivity. Qed.

Lemma py_index_nat {A : Type} (l : list A) (j : nat) (d : A) :
  (j < length l)%nat -> py_index l (Z.of_nat j) = Ok (nth j l d).
Proof.
  intros Hj. unfold py_index.
  destruct (Z.ltb_spec (Z.of_nat j) 0) as [H|_]; [lia|].
  destruct (Z.ltb_spec (Z.of_nat j) 0) as [H|_]; [lia|].
  destruct (Z.leb_spec (Z.of_nat (length l)) (Z.of_nat j)) as [H|_]; [lia|].
  cbn [orb]. rewrite Nat2Z.id.
  rewrite (nth_error_nth' l d Hj). reflexivity.
Qed.

Lemma py_index_last {A : Type} (l : list A) (a : A) :
  py_index (l ++ [a]) (-1) = Ok a.
Proof.
  unfold py_index. rewrite length_app. cbn [length].
  replace (if -1 <? 0 then -1 + Z.of_nat (length l + 1) else -1)
    with (Z.of_nat (length l))
    by (change (-1 <? 0) with true; cbv iota; lia).
  destruct (Z.ltb_spec (Z.of_nat (length l)) 0) as [H|_]; [lia|].
  destruct (Z.leb_spec (Z.of_nat (length l + 1)) (Z.of_nat (length l))) as [H|_];
    [lia|].
  cbn [orb]. rewrite Nat2Z.id, nth_error_app2, Nat.sub_diag by lia.
  reflexivity.
Qed.

Lemma range_len_spec (n bs : Z) (j : nat) :
  1 <= bs -> 0 <= n ->
  (j < Z.to_nat (range_len 0 n bs))%nat <-> Z.of_nat j * bs < n.
Proof.
  intros Hbs Hn. unfold range_len.
  destruct (Z.ltb_spec 0 bs) as [_|H]; [|lia].
  destruct (Z.ltb_spec 0 n) as [Hpos|Hz].
  - assert (Hq : 0 <= (n - 0 - 1) / bs) by (apply Z.div_pos; lia).
    split; intros H.
    + assert (Hle : Z.of_nat j <= (n - 0 - 1) / bs) by lia.
      assert (Hmul : bs * ((n - 0 - 1) / bs) <= n - 0 - 1)
        by (apply Z.mul_div_le; lia).
      nia.
    + assert (Hle : Z.of_nat j <= (n - 0 - 1) / bs)
        by (apply Z.div_le_lower_bound; lia).
      lia.
  - cbn. split; intros H; [lia|]. nia.
Qed.

Lemma in_range_upto (n c : Z) : In c (range_upto n) <-> 0 <= c < n.
Proof.
  unfold range_upto. rewrite in_map_iff. split.
  - intros [k [<- Hk]]. apply in_seq in Hk. lia.
  - intros Hc. exists (Z.to_nat c). split; [lia|]. apply in_seq. lia.
Qed.

Lemma length_range_upto (n : Z) : 0 <= n -> Z.of_nat (length (range_upto n)) = n.
Proof.
  intros Hn. unfold range_upto. rewrite length_map, length_seq. lia.
Qed.

Lemma in_lane_choices (nc : Z) (prev : option Z) (c : Z) :
  In c (lane_choices nc prev)
  <-> 0 <= c < nc /\ (forall p, prev = Some p -> c <> p).
Proof.
  destruct prev as [p|]; cbn [lane_choices].
  - rewrite filter_In, in_range_upto, negb_true_iff, Z.eqb_neq.
    split.
    + intros [Hc Hne]. split; [exact Hc|]. intros q [= <-]. exact Hne.
    + intros [Hc Hne]. split; [exact Hc|]. apply Hne. reflexivity.
  - rewrite in_range_upto. split; [intros Hc; split; [exact Hc|discriminate]|tauto].
Qed.

Lemma filter_seq_remove (p a n : nat) :
  (a <= p < a + n)%nat ->
  S (length (filter (fun k => negb (Z.of_nat k =? Z.of_nat p)) (seq a n))) = n.
Proof.
  revert a. induction n as [|n IH]; intros a Hp; [lia|].
  cbn [seq filter].
  destruct (Z.eqb_spec (Z.of_nat a) (Z.of_nat p)) as [Heq|Hne]; cbn [negb].
  - f_equal. rewrite forallb_filter_id.
    + apply length_seq.
    + apply forallb_forall. intros k Hk. apply in_seq in Hk.
      apply negb_true_iff, Z.eqb_neq. lia.
  - cbn [length]. f_equal. apply IH. lia.
Qed.

Lemma length_lane_choices_some (nc p : Z) :
  0 <= p < nc -> Z.of_nat (length (lane_choices nc (Some p))) = nc - 1.
Proof.
  intros Hp. cbn [lane_choices]. unfold range_upto.
  assert (H := filter_seq_remove (Z.to_nat p) 0 (Z.to_nat nc)).
  rewrite Z2Nat.id in H by lia.
  assert (Hlen : length (filter (fun c => negb (c =? p))
                           (map Z.of_nat (seq 0 (Z.to_nat nc))))
                 = length (filter (fun k => negb (Z.of_nat k =? p))
                             (seq 0 (Z.to_nat nc)))).
  { generalize (seq 0 (Z.to_nat nc)). intros l. induction l as [|k l IH];
      [reflexivity|]. cbn [map filter].
    destruct (negb (Z.of_nat k =? p)); cbn [length]; rewrite IH; reflexivity. }
  rewrite Hlen. lia.
Qed.

Lemma random_choice_in {A : Type} (draw : nat) (l : list A) :
  l <> [] -> exists a, random_choice draw l = Ok a /\ In a l.
Proof.
  intros Hne. destruct l as [|x l]; [congruence|].
  unfold random_choice.
  assert (Hlt : (draw mod length (x :: l) < length (x :: l))%nat)
    by (apply Nat.mod_upper_bound; cbn; lia).
  destruct (nth_error (x :: l) (draw mod length (x :: l))) as [a|] eqn:E.
  - exists a. split; [reflexivity|]. eapply nth_error_In; eassumption.
  - apply nth_error_None in E. lia.
Qed.

(** Every candidate can be drawn. *)
Lemma random_choice_onto {A : Type} (l : list A) (a : A) :
  In a l -> exists draw, random_choice draw l = Ok a.
Proof.
  intros Hin. destruct (In_nth_error _ _ Hin) as [n Hn].
  assert (Hlt : (n < length l)%nat) by (apply nth_error_Some; congruence).
  exists n. destruct l as [|x l]; [destruct Hin|].
  unfold random_choice. rewrite Nat.mod_small by exact Hlt.
  rewrite Hn. reflexivity.
Qed.

Lemma random_choice_empty {A : Type} (draw : nat) :
  random_choice draw (@nil A) = Raise IndexError.
Proof. reflexivity. Qed.

Lemma nondecreasing_cons_inv (a : Q) (l : list Q) :
  nondecreasing (a :: l) ->
  nondecreasing l /\ (forall b, In b l -> (a <= b)%Q).
Proof.
  intros Hs. split.
  - intros i j x y Hij Hx Hy. apply (Hs (S i) (S j)); [lia| |]; assumption.
  - intros b Hb. destruct (In_nth_error _ _ Hb) as [n Hn].
    apply (Hs 0%nat (S n)); [lia|reflexivity|exact Hn].
Qed.

Lemma nondecreasingb_sound (l : list Q) :
  nondecreasingb l = true -> nondecreasing l.
Proof.
  induction l as [|a l IH]; intros Hb.
  - intros i j x y _ Hx. destruct i; discriminate Hx.
  - assert (Hl : nondecreasingb l = true).
    { destruct l as [|b l']; [reflexivity|].
      cbn [nondecreasingb] in Hb. apply andb_true_iff in Hb. apply Hb. }
    specialize (IH Hl).
    assert (Hhead : forall b, In b l -> (a <= b)%Q).
    { destruct l as [|b l']; [intros b []|].
      cbn [nondecreasingb] in Hb. apply andb_true_iff in Hb.
      destruct Hb as [Hab _]. apply Qle_bool_iff in Hab.
      intros c [<-|Hc]; [exact Hab|].
      destruct (In_nth_error _ _ Hc) as [n Hn].
      apply Qle_trans with b; [exact Hab|].
      apply (IH 0%nat (S n)); [lia|reflexivity|exact Hn]. }
    intros i j x y Hij Hx Hy. destruct i as [|i]; destruct j as [|j].
    + cbn in Hx, Hy. injection Hx as <-. injection Hy as <-. apply Qle_refl.
    + cbn in Hx. injection Hx as <-. apply Hhead.
      eapply nth_error_In. exact Hy.
    + lia.
    + apply (IH i j); [lia| |]; assumption.
Qed.

(** ** Level generator *)

Lemma lane_choices_nonempty (nc : Z) (prev : option Z) :
  2 <= nc -> lane_choices nc prev <> [].
Proof.
  intros Hnc Hnil.
  assert (H0 : forall c, ~ In c (lane_choices nc prev))
    by (intros c; rewrite Hnil; exact (fun H => H)).
  destruct prev as [p|].
  - destruct (Z.eq_dec p 0) as [->|Hp].
    + apply (H0 1). apply in_lane_choices. split; [lia|]. intros q [= <-]. lia.
    + apply (H0 0). apply in_lane_choices. split; [lia|].
      intros q [= <-]. intros Heq. apply Hp. symmetry. exact Heq.
  - apply (H0 0). apply in_lane_choices. split; [lia|discriminate].
Qed.

Lemma last_column_snoc (level : list ScheduledTarget) (e : ScheduledTarget) :
  last_column (level ++ [e]) = Some (column e).
Proof. unfold last_column. rewrite rev_app_distr. reflexivity. Qed.

Lemma possible_columns_choices (nc : Z) (i : Z) (level : list ScheduledTarget) :
  (0 < i <-> level <> []) ->
  possible_columns nc i level = Ok (lane_choices nc (last_column level)).
Proof.
  intros Hi. unfold possible_columns.
  destruct (Z.ltb_spec 0 i) as [Hpos|Hle].
  - destruct (exists_last (proj1 Hi Hpos)) as [l' [e ->]].
    rewrite py_index_last, last_column_snoc. reflexivity.
  - destruct level as [|e l]; [reflexivity|].
    exfalso. assert (0 < i) by (apply Hi; discriminate). lia.
Qed.

(** The loop invariant: started on the indices [a*bs, (a+1)*bs, ...] with
    the [a] targets emitted so far, the loop either extends the level by the
    beats at those indices, each lane drawn from the choices its predecessor
    leaves, or stops on an exception because fewer than two lanes exist. *)
Lemma generate_level_loop_spec (rnd : nat -> nat) (beats : list Q) (nc bs : Z) :
  1 <= bs ->
  forall (m a k : nat) (level : list ScheduledTarget),
    (forall j, (a <= j < a + m)%nat ->
               Z.of_nat j * bs < Z.of_nat (length beats)) ->
    length level = a ->
    match generate_level_loop rnd beats nc
            (map (fun j => 0 + Z.of_nat j * bs) (seq a m)) k level with
    | Ok lvl =>
        exists ext, lvl = level ++ ext
          /\ map time ext
             = map (fun j => nth (j * Z.to_nat bs) beats 0%Q) (seq a m)
          /\ drawn_from nc (last_column level) (map column ext)
    | Raise _ => nc < 2
    end.
Proof.
  intros Hbs. induction m as [|m IH]; intros a k lvl Hvalid Hlen.
  - cbn. exists []. rewrite app_nil_r. repeat split.
  - cbn [seq map generate_level_loop].
    assert (Hidx : 0 + Z.of_nat a * bs = Z.of_nat (a * Z.to_nat bs)) by lia.
    assert (Hin : (a * Z.to_nat bs < length beats)%nat).
    { assert (H := Hvalid a ltac:(lia)). lia. }
    rewrite Hidx, (py_index_nat beats _ 0%Q Hin). cbn [bind].
    rewrite possible_columns_choices.
    2:{ split.
        - intros Hpos Hnil. subst lvl. cbn in Hlen. subst a. cbn in Hpos. lia.
        - intros Hne. destruct lvl as [|e l]; [congruence|].
          cbn in Hlen. subst a. nia. }
    cbn [bind].
    destruct (Z_lt_ge_dec nc 2) as [Hsmall|Hbig].
    + destruct (random_choice (rnd k) (lane_choices nc (last_column lvl)))
        as [col|err] eqn:Hch; cbn [bind]; [|exact Hsmall].
      specialize (IH (S a) (S k) (lvl ++ [mkTarget (nth (a * Z.to_nat bs) beats 0%Q) col])).
      destruct (generate_level_loop rnd beats nc _ (S k) _) as [out|err];
        [|exact Hsmall].
      destruct IH as [ext [-> [Ht Hd]]].
      * intros j Hj. apply Hvalid. lia.
      * rewrite length_app. cbn. lia.
      * exists (mkTarget (nth (a * Z.to_nat bs) beats 0%Q) col :: ext).
        rewrite <- app_assoc. split; [reflexivity|].
        cbn [map time column]. rewrite Ht. split; [reflexivity|].
        cbn [drawn_from]. rewrite last_column_snoc in Hd. split; [|exact Hd].
        destruct (lane_choices nc (last_column lvl)) as [|c0 l0] eqn:El;
          [discriminate Hch|].
        destruct (random_choice_in (rnd k) (c0 :: l0) ltac:(discriminate))
          as [c [Hc Hc']].
        rewrite Hch in Hc. injection Hc as ->. exact Hc'.
    + destruct (random_choice_in (rnd k) _
                  (lane_choices_nonempty nc (last_column lvl) ltac:(lia)))
        as [col [Hch Hcin]].
      rewrite Hch. cbn [bind].
      specialize (IH (S a) (S k) (lvl ++ [mkTarget (nth (a * Z.to_nat bs) beats 0%Q) col])).
      destruct (generate_level_loop rnd beats nc _ (S k) _) as [out|err].
      * destruct IH as [ext [-> [Ht Hd]]].
        -- intros j Hj. apply Hvalid. lia.
        -- rewrite length_app. cbn. lia.
        -- exists (mkTarget (nth (a * Z.to_nat bs) beats 0%Q) col :: ext).
           rewrite <- app_assoc. split; [reflexivity|].
           cbn [map time column]. rewrite Ht. split; [reflexivity|].
           cbn [drawn_from]. rewrite last_column_snoc in Hd.
           split; [exact Hcin|exact Hd].
      * apply IH.
        -- intros j Hj. apply Hvalid. lia.
        -- rewrite length_app. cbn. lia.
Qed.

Lemma generate_level_spec (rnd : nat -> nat) (beats : list Q) (nc bs : Z) :
  1 <= bs ->
  match generate_level rnd beats nc bs with
  | Ok level =>
      map time level
      = map (fun j => nth (j * Z.to_nat bs) beats 0%Q)
            (seq 0 (Z.to_nat (range_len 0 (Z.of_nat (length beats)) bs)))
      /\ drawn_from nc None (map column level)
  | Raise _ => nc < 2
  end.
Proof.
  intros Hbs. unfold generate_level, py_range.
  destruct (Z.eqb_spec bs 0) as [H|_]; [lia|]. cbn [bind].
  assert (H := generate_level_loop_spec rnd beats nc bs Hbs
                 (Z.to_nat (range_len 0 (Z.of_nat (length beats)) bs)) 0 0 []).
  destruct (generate_level_loop rnd beats nc _ 0 []) as [lvl|err].
  - destruct H as [ext [-> [Ht Hd]]].
    + intros j Hj. apply range_len_spec; lia.
    + reflexivity.
    + split; [exact Ht|exact Hd].
  - apply H; [|reflexivity]. intros j Hj. apply range_len_spec; lia.
Qed.

Lemma drawn_from_no_repeat (nc : Z) (lanes : list Z) (prev : option Z) :
  drawn_from nc prev lanes ->
  no_adjacent_repeat lanes
  /\ (forall p c rest, prev = Some p -> lanes = c :: rest -> c <> p).
Proof.
  revert prev. induction lanes as [|c rest IH]; intros prev Hd.
  - split; [exact I|]. intros p c rest _ H. discriminate H.
  - destruct Hd as [Hin Hrest]. apply in_lane_choices in Hin.
    destruct (IH _ Hrest) as [Hno Hhead]. split.
    + destruct rest as [|c' rest']; [exact I|]. split; [|exact Hno].
      intros Heq. apply (Hhead c c' rest' eq_refl eq_refl). symmetry. exact Heq.
    + intros p c0 rest0 Hp [= <- <-]. apply (proj2 Hin). exact Hp.
Qed.

Lemma drawn_from_bounds (nc : Z) (lanes : list Z) (prev : option Z) :
  drawn_from nc prev lanes -> forall c, In c lanes -> 0 <= c < nc.
Proof.
  revert prev. induction lanes as [|c rest IH]; intros prev Hd c0 Hin.
  - destruct Hin.
  - destruct Hd as [Hc Hrest]. destruct Hin as [<-|Hin].
    + apply in_lane_choices in Hc. tauto.
    + eapply IH; eassumption.
Qed.

Lemma nth_error_map_seq {A : Type} (f : nat -> A) (m j : nat) :
  nth_error (map f (seq 0 m)) j = if (j <? m)%nat then Some (f j) else None.
Proof.
  destruct (Nat.ltb_spec j m) as [Hlt|Hge].
  - rewrite nth_error_map, nth_error_seq.
    destruct (Nat.ltb_spec j m) as [_|H]; [reflexivity|lia].
  - apply nth_error_None. rewrite length_map, length_seq. exact Hge.
Qed.

(** C5.  With at least two lanes and a stride of at least one,
    [generate_level] returns a level in which no two consecutive targets
    share a lane: the first lane is drawn from all [num_columns] lanes, every
    later one from the [num_columns - 1] lanes other than the lane of the
    target emitted just before. *)
Theorem generate_level_no_consecutive_lane (rnd : nat -> nat) (beats : list Q)
    (nc bs : Z) :
  2 <= nc -> 1 <= bs ->
  exists level,
    generate_level rnd beats nc bs = Ok level
    /\ no_adjacent_repeat (map column level)
    /\ drawn_from nc None (map column level)
    /\ Z.of_nat (length (lane_choices nc None)) = nc
    /\ (forall p, In p (map column level) ->
          Z.of_nat (length (lane_choices nc (Some p))) = nc - 1).
Proof.
  intros Hnc Hbs. assert (H := generate_level_spec rnd beats nc bs Hbs).
  destruct (generate_level rnd beats nc bs) as [level|err]; [|lia].
  destruct H as [_ Hd]. exists level. split; [reflexivity|].
  split; [exact (proj1 (drawn_from_no_repeat _ _ _ Hd))|].
  split; [exact Hd|]. split.
  - apply length_range_upto. lia.
  - intros p Hp. apply length_lane_choices_some.
    eapply drawn_from_bounds; eassumption.
Qed.

Lemma generate_level_no_consecutive_lane_witness :
  2 <= 4 /\ 1 <= 1 /\
  exists level,
    generate_level (fun k => k) [0.5; 1; 1.5; 2]%Q 4 1 = Ok level
    /\ no_adjacent_repeat (map column level)
    /\ drawn_from 4 None (map column level)
    /\ Z.of_nat (length (lane_choices 4 None)) = 4
    /\ (forall p, In p (map column level) ->
          Z.of_nat (length (lane_choices 4 (Some p))) = 4 - 1).
Proof.
  split; [lia|]. split; [lia|].
  apply (generate_level_no_consecutive_lane (fun k => k) [0.5; 1; 1.5; 2]%Q 4 1);
    lia.
Defined.

(** C6.  With a stride of at least one, the times of the level returned by
    [generate_level] are the beats at the indices 0, [beat_skip],
    2 * [beat_skip], ... of the input, in that order and no others: entry [j]
    of the output is entry [j * beat_skip] of the input.  A non-decreasing
    input gives non-decreasing output times.  The call returns whenever
    there are two lanes or more. *)
Theorem generate_level_times (rnd : nat -> nat) (beats : list Q) (nc bs : Z) :
  1 <= bs ->
  match generate_level rnd beats nc bs with
  | Ok level =>
      (forall j,
          nth_error (map time level) j
          = if (j * Z.to_nat bs <? length beats)%nat
            then nth_error beats (j * Z.to_nat bs) else None)
      /\ (nondecreasing beats -> nondecreasing (map time level))
  | Raise _ => nc < 2
  end.
Proof.
  intros Hbs. assert (H := generate_level_spec rnd beats nc bs Hbs).
  destruct (generate_level rnd beats nc bs) as [level|err]; [|exact H].
  destruct H as [Ht _].
  assert (Hnth : forall j,
             nth_error (map time level) j
             = if (j * Z.to_nat bs <? length beats)%nat
               then nth_error beats (j * Z.to_nat bs) else None).
  { intros j. rewrite Ht, nth_error_map_seq.
    assert (Hr := range_len_spec (Z.of_nat (length beats)) bs j Hbs
                    ltac:(lia)).
    destruct (Nat.ltb_spec j (Z.to_nat (range_len 0 (Z.of_nat (length beats)) bs)))
      as [Hlt|Hge];
      destruct (Nat.ltb_spec (j * Z.to_nat bs) (length beats)) as [Hin|Hout].
    - symmetry. apply nth_error_nth'. exact Hin.
    - apply Hr in Hlt. lia.
    - exfalso. assert (j < Z.to_nat (range_len 0 (Z.of_nat (length beats)) bs))%nat
        by (apply Hr; lia). lia.
    - reflexivity. }
  split; [exact Hnth|].
  intros Hsorted i j a b Hij Ha Hb.
  rewrite Hnth in Ha, Hb.
  destruct (Nat.ltb_spec (i * Z.to_nat bs) (length beats)); [|discriminate].
  destruct (Nat.ltb_spec (j * Z.to_nat bs) (length beats)); [|discriminate].
  apply (Hsorted (i * Z.to_nat bs)%nat (j * Z.to_nat bs)%nat); [nia| |];
    assumption.
Qed.

Lemma generate_level_times_witness :
  1 <= 2 /\ nondecreasing [0.5; 1; 1.5; 2; 2.5]%Q
  /\ exists level,
      generate_level (fun k => k) [0.5; 1; 1.5; 2; 2.5]%Q 4 2 = Ok level
      /\ nth_error (map time level) 1 = Some 1.5%Q
      /\ nondecreasing (map time level).
Proof.
  assert (Hs : nondecreasing [0.5; 1; 1.5; 2; 2.5]%Q)
    by (apply nondecreasingb_sound; reflexivity).
  split; [lia|]. split; [exact Hs|].
  assert (H := generate_level_times (fun k => k) [0.5; 1; 1.5; 2; 2.5]%Q 4 2
                 ltac:(lia)).
  destruct (generate_level (fun k => k) [0.5; 1; 1.5; 2; 2.5]%Q 4 2)
    as [level|e]; [|lia].
  exists level. split; [reflexivity|]. destruct H as [Hnth Hnd].
  split; [rewrite Hnth; reflexivity|apply Hnd; exact Hs].
Defined.

Lemma range_len_empty (bs : Z) : range_len 0 0 bs = 0.
Proof.
  unfold range_len. destruct (0 <? bs); [reflexivity|].
  destruct (bs <? 0); reflexivity.
Qed.

Lemma main_game_loop_default (level : list ScheduledTarget) (t0 : Q)
    (frames : list FrameInput) :
  main_game_loop (default_config level) t0 frames
  = game_loop (default_config level) frames (initial_state t0).
Proof. reflexivity. Qed.

(** C1, as stated, fails: on the empty beat sequence [generate_level] raises
    nothing, it returns the empty level, and the caller enters the game loop
    with it. *)
Lemma generate_level_empty_no_error :
  ~ raises (generate_level (fun k => k) [] 4 1)
  /\ generate_level (fun k => k) [] 4 1 = Ok []
  /\ run_piano_tiles_clone true (Some 120%Q) [] (fun k => k) 1 true 0%Q []
     = Ok (Played [] (Pending (initial_state 0%Q))).
Proof.
  split; [|split; reflexivity].
  intros [e He]. discriminate He.
Qed.

(** C1, amended.  On an empty beat sequence and a non-zero stride
    [generate_level] returns the empty level and raises nothing; once the
    audio was loaded, a tempo found and the start screen left by a click, the
    caller enters the game loop with that empty level. *)
Theorem generate_level_empty (rnd : nat -> nat) (nc bs : Z) (tempo t0 : Q)
    (frames : list FrameInput) :
  bs <> 0 ->
  generate_level rnd [] nc bs = Ok []
  /\ run_piano_tiles_clone true (Some tempo) [] rnd bs true t0 frames
     = (r <- game_loop (default_config []) frames (initial_state t0) ;;
        Ok (Played [] r)).
Proof.
  intros Hbs.
  assert (Hgen : forall n, generate_level rnd [] n bs = Ok []).
  { intros n. unfold generate_level, py_range. cbn [length Z.of_nat].
    destruct (Z.eqb_spec bs 0) as [H|_]; [contradiction|].
    rewrite range_len_empty. reflexivity. }
  split; [apply Hgen|].
  unfold run_piano_tiles_clone. cbn [negb]. rewrite Hgen. reflexivity.
Qed.

Lemma generate_level_empty_witness :
  2 <> 0
  /\ generate_level (fun k => k) [] 4 2 = Ok []
  /\ run_piano_tiles_clone true (Some 120%Q) [] (fun k => k) 2 true 0%Q []
     = (r <- game_loop (default_config []) [] (initial_state 0%Q) ;;
        Ok (Played [] r)).
Proof.
  split; [discriminate|].
  apply (generate_level_empty (fun k => k) 4 2 120%Q 0%Q []). discriminate.
Defined.

(** ** Tiles *)

(** C8, as stated, fails: a tile moving at 300 px/s that is updated with a
    delta of -1 s goes from -100 up to -400; the same happens inside the loop
    when the frame clock reports -1000 ms. *)
Lemma negative_delta_moves_tile_up :
  (-1 < 0)%Q
  /\ ~ (Tile.y (Tile.update (Tile.init 0 0 300 200 100 600 4) (-1))
        == Tile.y (Tile.init 0 0 300 200 100 600 4))%Q
  /\ (Tile.y (Tile.update (Tile.init 0 0 300 200 100 600 4) (-1)) == -400)%Q
  /\ map Tile.y
       (tiles (update_tiles (inject_Z (-1000) / 1000)
                 (set_tiles [Tile.init 0 0 300 200 100 600 4]
                    (initial_state 0))))
     = [(inject_Z (-100) + 300 * (inject_Z (-1000) / 1000))%Q]
  /\ (exists s3,
        advance (default_config []) (mkFrame (fun _ => 0%Q) [] (-1000) true)
          (set_tiles [Tile.init 0 0 300 200 100 600 4] (initial_state 0))
        = Ok s3
        /\ map Tile.y (tiles s3)
           = [(inject_Z (-100) + 300 * (inject_Z (-1000) / 1000))%Q]
        /\ Forall (fun t => (Tile.y t == -400)%Q) (tiles s3))
  /\ (exists s',
        frame (default_config []) (mkFrame (fun _ => 0%Q) [] (-1000) true)
          (set_tiles [Tile.init 0 0 300 200 100 600 4] (initial_state 0))
        = Ok (Continue s')
        /\ Forall (fun t => (Tile.y t == -400)%Q) (tiles s')).
Proof.
  split; [reflexivity|]. split; [|split; [reflexivity|split; [reflexivity|]]].
  - intros H. discriminate H.
  - split.
    + eexists. split; [vm_compute; reflexivity|].
      split; [reflexivity|]. constructor; [reflexivity|constructor].
    + eexists. split; [vm_compute; reflexivity|].
      constructor; [reflexivity|constructor].
Qed.

(** C8, amended.  [Tile.update] adds [tile_speed * delta_time] to the
    position for whatever [delta_time] it is given and the loop passes the
    clock reading on as it is: nothing clamps it and nothing is raised.  A
    zero delta leaves the position where it was, a non-negative delta at a
    non-negative speed never moves a tile upward, and a negative delta at a
    positive speed moves it upward. *)
Theorem tile_update_unclamped (tile : Tile.t) (delta_time : Q) (s : State)
    (cfg : Config) (inp : FrameInput) :
  Tile.y (Tile.update tile delta_time)
  = (Tile.y tile + Tile.tile_speed tile * delta_time)%Q
  /\ tiles (update_tiles delta_time s)
     = map (fun t => Tile.update t delta_time) (tiles s)
  /\ ((delta_time == 0)%Q ->
      (Tile.y (Tile.update tile delta_time) == Tile.y tile)%Q)
  /\ ((0 <= delta_time)%Q -> (0 <= Tile.tile_speed tile)%Q ->
      (Tile.y tile <= Tile.y (Tile.update tile delta_time))%Q)
  /\ ((delta_time < 0)%Q -> (0 < Tile.tile_speed tile)%Q ->
      (Tile.y (Tile.update tile delta_time) < Tile.y tile)%Q)
  /\ match handle_events cfg (events inp) s with
     | Ok s1 =>
         advance cfg inp s
         = Ok (update_tiles (inject_Z (clock_ms inp) / 1000)
                 (spawn_tiles cfg (wall inp 0 - start_time s) s1))
     | Raise e => advance cfg inp s = Raise e
     end
  /\ (clock_ms inp < 0 ->
      forall s3, advance cfg inp s = Ok s3 ->
      forall t', In t' (tiles s3) -> (0 < Tile.tile_speed t')%Q ->
      exists t,
        t' = Tile.update t (inject_Z (clock_ms inp) / 1000)
        /\ (Tile.y t' < Tile.y t)%Q).
Proof.
  split; [reflexivity|]. split; [reflexivity|].
  split; [|split; [|split; [|split]]].
  - cbn [Tile.update Tile.y Tile.tile_speed]. intros H. rewrite H. ring.
  - cbn [Tile.update Tile.y Tile.tile_speed]. intros Hd Hs. nra.
  - cbn [Tile.update Tile.y Tile.tile_speed]. intros Hd Hs. nra.
  - unfold advance. destruct (handle_events cfg (events inp) s); reflexivity.
  - intros Hneg s3. unfold advance.
    destruct (handle_events cfg (events inp) s) as [s1|e]; [|discriminate].
    cbn [bind]. intros [= <-] t' Hin Hsp.
    unfold update_tiles in Hin. cbn [tiles set_tiles] in Hin.
    apply in_map_iff in Hin. destruct Hin as [t [<- _]].
    exists t. split; [reflexivity|].
    cbn [Tile.update Tile.y Tile.tile_speed] in Hsp |- *.
    assert (Hd : (inject_Z (clock_ms inp) / 1000 < 0)%Q).
    { unfold Qlt, Qdiv, Qmult, Qinv, inject_Z. cbn. lia. }
    nra.
Qed.

Lemma tile_update_unclamped_witness :
  (-1 < 0)%Q /\ (0 < 300)%Q
  /\ (Tile.y (Tile.update (Tile.init 0 0 300 200 100 600 4) (-1))
      < Tile.y (Tile.init 0 0 300 200 100 600 4))%Q
  /\ clock_ms (mkFrame (fun _ => 0%Q) [] (-1000) true) < 0
  /\ advance (default_config []) (mkFrame (fun _ => 0%Q) [] (-1000) true)
       (set_tiles [Tile.init 0 0 300 200 100 600 4] (initial_state 0))
     = Ok (update_tiles (inject_Z (-1000) / 1000)
             (set_tiles [Tile.init 0 0 300 200 100 600 4] (initial_state 0))).
Proof.
  split; [reflexivity|]. split; [reflexivity|].
  destruct (tile_update_unclamped (Tile.init 0 0 300 200 100 600 4) (-1)
              (set_tiles [Tile.init 0 0 300 200 100 600 4] (initial_state 0))
              (default_config []) (mkFrame (fun _ => 0%Q) [] (-1000) true))
    as [_ [_ [_ [_ [Hup [Hadv _]]]]]].
  split; [apply Hup; reflexivity|]. split; [reflexivity|].
  exact Hadv.
Defined.

(** ** Input resolver *)

Lemma tap_hits_window (sh th c : Z) (tile : Tile.t) :
  tap_hits c (sh - th - hit_zone_buffer) (sh - th + hit_zone_buffer) tile = true
  <-> in_hit_window sh th c tile.
Proof.
  unfold tap_hits, in_hit_window, hit_zone_buffer.
  rewrite !andb_true_iff, Z.eqb_eq, !Qle_bool_iff. tauto.
Qed.

(** The scan stops at the first tile that passes the test and removes that
    tile only; it falls through when no tile passes. *)
Lemma tap_scan_spec (p : Tile.t -> bool) (rest seen : list Tile.t) :
  match tap_scan p seen rest with
  | Some (tile, remaining) =>
      exists pre post,
        rest = pre ++ tile :: post
        /\ (forall t, In t pre -> p t = false)
        /\ p tile = true
        /\ remaining = seen ++ pre ++ post
  | None => forall t, In t rest -> p t = false
  end.
Proof.
  revert seen. induction rest as [|tile rest IH]; intros seen.
  - cbn. intros t [].
  - cbn [tap_scan]. destruct (p tile) eqn:Hp.
    + exists [], rest. repeat split; try assumption. intros t [].
    + specialize (IH (seen ++ [tile])).
      destruct (tap_scan p (seen ++ [tile]) rest) as [[hit remaining]|].
      * destruct IH as [pre [post [-> [Hpre [Hhit ->]]]]].
        exists (tile :: pre), post. repeat split.
        -- intros t [<-|Hin]; [exact Hp|apply Hpre; exact Hin].
        -- exact Hhit.
        -- rewrite <- app_assoc. reflexivity.
      * intros t [<-|Hin]; [exact Hp|apply IH; exact Hin].
Qed.

Lemma tap_scan_existsb (p : Tile.t -> bool) (rest seen : list Tile.t) :
  existsb p rest
  = match tap_scan p seen rest with Some _ => true | None => false end.
Proof.
  revert seen. induction rest as [|tile rest IH]; intros seen; [reflexivity|].
  cbn [existsb tap_scan]. destruct (p tile); [reflexivity|]. apply IH.
Qed.

Lemma dict_get_unmapped (key : Z) :
  key <> K_q -> key <> K_w -> key <> K_e -> key <> K_r ->
  dict_get key_to_column key = None.
Proof.
  intros Hq Hw He Hr. unfold key_to_column. cbn [dict_get].
  destruct (Z.eqb_spec K_q key); [congruence|].
  destruct (Z.eqb_spec K_w key); [congruence|].
  destruct (Z.eqb_spec K_e key); [congruence|].
  destruct (Z.eqb_spec K_r key); [congruence|].
  reflexivity.
Qed.

(** C10.  A key press whose key is none of Q, W, E, R changes nothing:
    [handle_tile_tap] returns the state it was given, with the same tiles,
    score, miss count, animations and console output, within the loop as
    well. *)
Theorem unmapped_key_ignored (cfg : Config) (key nc sw sh th : Z) (s : State) :
  key <> K_q -> key <> K_w -> key <> K_e -> key <> K_r ->
  handle_tile_tap key nc sw sh th s = Ok s
  /\ handle_event cfg (KEYDOWN key) s = Ok s.
Proof.
  intros Hq Hw He Hr. unfold handle_event, handle_tile_tap.
  rewrite (dict_get_unmapped key Hq Hw He Hr). split; reflexivity.
Qed.

Lemma unmapped_key_ignored_witness :
  32 <> K_q /\ 32 <> K_w /\ 32 <> K_e /\ 32 <> K_r
  /\ handle_tile_tap 32 4 800 600 100
       (set_tiles [Tile.init 0 0 300 200 100 600 4] (initial_state 0))
     = Ok (set_tiles [Tile.init 0 0 300 200 100 600 4] (initial_state 0)).
Proof.
  repeat (split; [discriminate|]).
  apply (unmapped_key_ignored (default_config []) 32 4 800 600 100);
    discriminate.
Defined.

(** C4.  A press of a lane key scans the active tiles oldest first and
    resolves the first one that sits in the pressed lane within 300 of the
    hit line [screen_height - tile_height]: that tile alone leaves the list,
    the others keep their order.  When no tile qualifies the list is left as
    it was. *)
Theorem handle_tile_tap_first_match (key lane nc sw sh th : Z) (s : State) :
  dict_get key_to_column key = Some lane -> nc <> 0 ->
  exists s',
    handle_tile_tap key nc sw sh th s = Ok s'
    /\ ((exists pre tile post,
            tiles s = pre ++ tile :: post
            /\ (forall t, In t pre -> ~ in_hit_window sh th lane t)
            /\ in_hit_window sh th lane tile
            /\ tiles s' = pre ++ post
            /\ S (length (tiles s')) = length (tiles s))
        \/ ((forall t, In t (tiles s) -> ~ in_hit_window sh th lane t)
            /\ tiles s' = tiles s)).
Proof.
  intros Hkey Hnc. unfold handle_tile_tap. rewrite Hkey.
  cbn [print tiles].
  assert (Hscan := tap_scan_spec
                     (tap_hits lane (sh - th - hit_zone_buffer)
                        (sh - th + hit_zone_buffer)) (tiles s) []).
  destruct (tap_scan _ [] (tiles s)) as [[tile remaining]|].
  - destruct Hscan as [pre [post [Hsplit [Hpre [Hhit ->]]]]].
    eexists. split; [reflexivity|]. left.
    exists pre, tile, post. cbn. repeat split.
    + exact Hsplit.
    + intros t Hin Hw. apply tap_hits_window in Hw.
      rewrite (Hpre t Hin) in Hw. discriminate Hw.
    + apply tap_hits_window in Hhit. apply Hhit.
    + apply tap_hits_window in Hhit. apply Hhit.
    + apply tap_hits_window in Hhit. apply Hhit.
    + rewrite Hsplit, !length_app. cbn. lia.
  - destruct (Z.eqb_spec nc 0) as [H|_]; [contradiction|].
    eexists. split; [reflexivity|]. right. split; [|reflexivity].
    intros t Hin Hw. apply tap_hits_window in Hw.
    rewrite (Hscan t Hin) in Hw. discriminate Hw.
Qed.

Lemma handle_tile_tap_first_match_witness :
  dict_get key_to_column K_q = Some 0 /\ 4 <> 0
  /\ exists s',
      handle_tile_tap K_q 4 800 600 100
        (set_tiles [Tile.update (Tile.init 1 0 300 200 100 600 4) 2;
                    Tile.update (Tile.init 0 0 300 200 100 600 4) 2;
                    Tile.update (Tile.init 0 0 300 200 100 600 4) 1]
           (initial_state 0)) = Ok s'
      /\ length (tiles s') = 2%nat.
Proof.
  split; [reflexivity|]. split; [discriminate|].
  destruct (handle_tile_tap_first_match K_q 0 4 800 600 100
              (set_tiles [Tile.update (Tile.init 1 0 300 200 100 600 4) 2;
                          Tile.update (Tile.init 0 0 300 200 100 600 4) 2;
                          Tile.update (Tile.init 0 0 300 200 100 600 4) 1]
                 (initial_state 0)) eq_refl ltac:(discriminate))
    as [s' [Hs' Hcase]].
  exists s'. split; [exact Hs'|].
  destruct Hcase as [[pre [tile [post [_ [_ [_ [_ Hlen]]]]]]]|[Hnone _]].
  - cbn in Hlen. lia.
  - exfalso. apply (Hnone (Tile.update (Tile.init 0 0 300 200 100 600 4) 2)).
    + right. left. reflexivity.
    + unfold in_hit_window. cbn. split; [reflexivity|].
      split; discriminate.
Defined.

(** ** Boundary misses *)

Lemma count_overdue_cons (H : Z) (tile : Tile.t) (rest : list Tile.t) :
  count_overdue H (tile :: rest)
  = (if overdue H tile then 1 else 0) + count_overdue H rest.
Proof.
  unfold count_overdue. cbn [filter].
  destruct (overdue H tile); cbn [length]; lia.
Qed.

Lemma count_overdue_nonneg (H : Z) (ts : list Tile.t) : 0 <= count_overdue H ts.
Proof. unfold count_overdue. lia. Qed.

Lemma count_overdue_app (H : Z) (l1 l2 : list Tile.t) :
  count_overdue H (l1 ++ l2) = count_overdue H l1 + count_overdue H l2.
Proof.
  unfold count_overdue. rewrite filter_app, length_app. lia.
Qed.

Lemma length_filter_split {A : Type} (p : A -> bool) (l : list A) :
  (length (filter p l) + length (filter (fun a => negb (p a)) l) = length l)%nat.
Proof.
  induction l as [|a l IH]; [reflexivity|].
  cbn [filter]. destruct (p a); cbn [negb length]; lia.
Qed.

(** What the sweep over the tiles does.  When it runs to its end, the tiles
    below the playfield are gone, the others are kept in order and each
    removed tile has counted as one miss.  When it stops at the game-over
    screen, it stops at the tile whose miss brought the count to
    [max_misses]. *)
Lemma missed_loop_spec (H : Z) (rest kept : list Tile.t) (s : State) :
  match missed_loop H kept rest s with
  | Continue s' =>
      tiles s' = kept ++ filter (fun t => negb (overdue H t)) rest
      /\ misses s' = misses s + count_overdue H rest
      /\ (0 < count_overdue H rest -> misses s' < max_misses)
      /\ score s' = score s
  | GameOver why s' =>
      why = MaxMisses
      /\ score s' = score s
      /\ max_misses <= misses s'
      /\ exists pre tile post,
           rest = pre ++ tile :: post
           /\ overdue H tile = true
           /\ tiles s' = kept ++ filter (fun t => negb (overdue H t)) pre ++ post
           /\ misses s' = misses s + count_overdue H pre + 1
           /\ (0 < count_overdue H pre ->
               misses s + count_overdue H pre < max_misses)
  end.
Proof.
  revert kept s. induction rest as [|tile rest IH]; intros kept s.
  - cbn. rewrite app_nil_r. unfold count_overdue. cbn. repeat split; lia.
  - cbn [missed_loop]. fold (overdue H tile).
    destruct (overdue H tile) eqn:Hov.
    + cbn [misses set_misses print add_animation set_animations].
      destruct (Z.leb_spec max_misses (misses s + 1)) as [Hmax|Hlt].
      * cbn. repeat split; try lia.
        exists [], tile, rest. cbn. unfold count_overdue. cbn.
        repeat split; try assumption; lia.
      * match goal with
        | |- context [missed_loop H kept rest ?st] =>
            specialize (IH kept st); destruct (missed_loop H kept rest st)
              as [s'|why s']
        end.
        -- cbn in IH. destruct IH as [Ht [Hm [Hb Hs]]].
           rewrite count_overdue_cons, Hov. cbn [filter negb].
           rewrite Hov. cbn [negb].
           assert (Hnn := count_overdue_nonneg H rest).
           repeat split; try assumption; try lia.
        -- cbn in IH.
           destruct IH as [Hw [Hs [Hmx [pre [t0 [post [-> [Ht0 [Ht [Hm Hb]]]]]]]]]].
           repeat split; try assumption.
           exists (tile :: pre), t0, post.
           rewrite count_overdue_cons, Hov. cbn [filter]. rewrite Hov.
           cbn [negb app].
           assert (Hnn := count_overdue_nonneg H pre).
           repeat split; try assumption; try lia.
    + specialize (IH (kept ++ [tile]) s).
      destruct (missed_loop H (kept ++ [tile]) rest s) as [s'|why s'].
      * destruct IH as [Ht [Hm [Hb Hs]]].
        rewrite count_overdue_cons, Hov. cbn [filter]. rewrite Hov.
        cbn [negb]. rewrite <- app_assoc in Ht.
        repeat split; try assumption; lia.
      * destruct IH as [Hw [Hs [Hmx [pre [t0 [post [-> [Ht0 [Ht [Hm Hb]]]]]]]]]].
        repeat split; try assumption.
        exists (tile :: pre), t0, post.
        rewrite count_overdue_cons, Hov. cbn [filter]. rewrite Hov.
        cbn [negb app]. rewrite <- app_assoc in Ht.
        repeat split; try assumption; lia.
Qed.

Lemma detect_missed_tiles_counts (cfg : Config) (s : State) :
  score (state_of (detect_missed_tiles cfg s)) = score s
  /\ misses (state_of (detect_missed_tiles cfg s))
     = misses s + Z.of_nat (length (tiles s))
       - Z.of_nat (length (tiles (state_of (detect_missed_tiles cfg s))))
  /\ (forall t, In t (tiles (state_of (detect_missed_tiles cfg s))) ->
                In t (tiles s)).
Proof.
  unfold detect_missed_tiles.
  assert (Hspec := missed_loop_spec (screen_height cfg) (tiles s) [] s).
  destruct (missed_loop (screen_height cfg) [] (tiles s) s) as [s'|why s'];
    cbn [state_of].
  - destruct Hspec as [Ht [Hm [_ Hs]]]. cbn [app] in Ht.
    split; [exact Hs|]. split.
    + rewrite Hm, Ht. unfold count_overdue.
      assert (Hl := length_filter_split (overdue (screen_height cfg)) (tiles s)).
      lia.
    + intros t Hin. rewrite Ht in Hin. apply filter_In in Hin. tauto.
  - destruct Hspec as [_ [Hs [_ [pre [tile [post [Hsplit [_ [Ht [Hm _]]]]]]]]]].
    cbn [app] in Ht. split; [exact Hs|]. split.
    + rewrite Hm, Ht, Hsplit, !length_app. cbn [length]. unfold count_overdue.
      assert (Hl := length_filter_split (overdue (screen_height cfg)) pre).
      lia.
    + intros t Hin. rewrite Ht in Hin. rewrite Hsplit.
      apply in_app_or in Hin. apply in_or_app.
      destruct Hin as [Hin|Hin].
      * left. apply filter_In in Hin. tauto.
      * right. right. exact Hin.
Qed.

Lemma overdue_spec (H : Z) (t : Tile.t) :
  overdue H t = true <-> (inject_Z H < Tile.y t)%Q.
Proof.
  unfold overdue, Qlt_bool. rewrite negb_true_iff. split.
  - intros Hb. apply Qnot_le_lt. intros Hle. apply Qle_bool_iff in Hle.
    congruence.
  - intros Hlt. destruct (Qle_bool (Tile.y t) (inject_Z H)) eqn:E;
      [|reflexivity].
    apply Qle_bool_iff in E. exfalso. exact (Qlt_not_le _ _ Hlt E).
Qed.

(** Which tiles the sweep takes: a tile is removed, and counted as a miss,
    only when its position exceeds [screen_height]; a sweep that runs to its
    end removes every such tile, one that stops at the game-over screen has
    removed those up to the tile it stops at. *)
Lemma detect_missed_tiles_sweep (cfg : Config) (s : State) :
  (forall t, In t (tiles s) ->
             (Tile.y t <= inject_Z (screen_height cfg))%Q ->
             In t (tiles (state_of (detect_missed_tiles cfg s))))
  /\ match detect_missed_tiles cfg s with
     | Continue s3 =>
         tiles s3
         = filter (fun t => negb (overdue (screen_height cfg) t)) (tiles s)
         /\ misses s3 = misses s + count_overdue (screen_height cfg) (tiles s)
         /\ (forall t, In t (tiles s3) ->
                       (Tile.y t <= inject_Z (screen_height cfg))%Q)
     | GameOver why s3 =>
         why = MaxMisses
         /\ max_misses <= misses s3
         /\ exists pre tile post,
              tiles s = pre ++ tile :: post
              /\ (inject_Z (screen_height cfg) < Tile.y tile)%Q
              /\ tiles s3
                 = filter (fun t => negb (overdue (screen_height cfg) t)) pre
                   ++ post
              /\ misses s3
                 = misses s + count_overdue (screen_height cfg) pre + 1
     end.
Proof.
  assert (Hkeep : forall t, (Tile.y t <= inject_Z (screen_height cfg))%Q ->
                            negb (overdue (screen_height cfg) t) = true).
  { intros t Hle. apply negb_true_iff.
    destruct (overdue (screen_height cfg) t) eqn:E; [|reflexivity].
    apply overdue_spec in E. exfalso. exact (Qlt_not_le _ _ E Hle). }
  unfold detect_missed_tiles.
  assert (Hspec := missed_loop_spec (screen_height cfg) (tiles s) [] s).
  destruct (missed_loop (screen_height cfg) [] (tiles s) s) as [s3|why s3];
    cbn [state_of].
  - destruct Hspec as [Ht [Hm _]]. cbn [app] in Ht. split.
    + intros t Hin Hle. rewrite Ht. apply filter_In.
      split; [exact Hin|apply Hkeep; exact Hle].
    + split; [exact Ht|]. split; [exact Hm|].
      intros t Hin. rewrite Ht in Hin. apply filter_In in Hin.
      destruct Hin as [_ Hno]. apply negb_true_iff in Hno.
      apply Qnot_lt_le. intros Hlt. apply overdue_spec in Hlt. congruence.
  - destruct Hspec as [Hw [_ [Hmx [pre [tile [post [Hsplit [Hov [Ht [Hm _]]]]]]]]]].
    cbn [app] in Ht. split.
    + intros t Hin Hle. rewrite Ht. rewrite Hsplit in Hin.
      apply in_app_or in Hin. apply in_or_app.
      destruct Hin as [Hin|[Heq|Hin]].
      * left. apply filter_In. split; [exact Hin|apply Hkeep; exact Hle].
      * subst t. apply overdue_spec in Hov. exfalso.
        exact (Qlt_not_le _ _ Hov Hle).
      * right. exact Hin.
    + split; [exact Hw|]. split; [exact Hmx|].
      exists pre, tile, post. split; [exact Hsplit|].
      split; [apply overdue_spec; exact Hov|]. split; [exact Ht|exact Hm].
Qed.

(** C2.  A key press that finds a tile of its lane in the hit window adds one
    to the score, a key press that finds none takes one away, and neither
    touches the miss count.  The sweep for fallen tiles removes a tile only
    when its position exceeds [screen_height], adds one miss for each tile it
    removes and leaves the score alone: a tile whose position does not
    exceed [screen_height] is always kept; when the sweep runs to its end the
    tiles left are exactly those, and the misses added are the tiles beyond
    [screen_height]; when it stops the session at a tile beyond
    [screen_height], it has counted that tile and the ones beyond
    [screen_height] before it.  From 0 points and 0 misses, a hit, a wrong tap and a
    fallen tile lead to 1 point, then 0 points, then 0 points and 1 miss. *)
Theorem score_and_miss_bookkeeping (cfg : Config) (key lane : Z) (s : State) :
  dict_get key_to_column key = Some lane -> num_columns cfg <> 0 ->
  (exists s',
      handle_event cfg (KEYDOWN key) s = Ok s'
      /\ misses s' = misses s
      /\ ((exists t, In t (tiles s)
                     /\ in_hit_window (screen_height cfg) tile_height lane t) ->
          score s' = score s + 1)
      /\ ((forall t, In t (tiles s) ->
                     ~ in_hit_window (screen_height cfg) tile_height lane t) ->
          score s' = score s - 1))
  /\ (score (state_of (detect_missed_tiles cfg s)) = score s
      /\ misses (state_of (detect_missed_tiles cfg s))
         = misses s + Z.of_nat (length (tiles s))
           - Z.of_nat (length (tiles (state_of (detect_missed_tiles cfg s)))))
  /\ ((forall t, overdue (screen_height cfg) t = true
                 <-> (inject_Z (screen_height cfg) < Tile.y t)%Q)
      /\ (forall t, In t (tiles s) ->
                    (Tile.y t <= inject_Z (screen_height cfg))%Q ->
                    In t (tiles (state_of (detect_missed_tiles cfg s))))
      /\ match detect_missed_tiles cfg s with
         | Continue s3 =>
             tiles s3
             = filter (fun t => negb (overdue (screen_height cfg) t)) (tiles s)
             /\ misses s3
                = misses s + count_overdue (screen_height cfg) (tiles s)
             /\ (forall t, In t (tiles s3) ->
                           (Tile.y t <= inject_Z (screen_height cfg))%Q)
         | GameOver why s3 =>
             why = MaxMisses
             /\ max_misses <= misses s3
             /\ exists pre tile post,
                  tiles s = pre ++ tile :: post
                  /\ (inject_Z (screen_height cfg) < Tile.y tile)%Q
                  /\ tiles s3
                     = filter (fun t => negb (overdue (screen_height cfg) t))
                         pre ++ post
                  /\ misses s3
                     = misses s + count_overdue (screen_height cfg) pre + 1
         end)
  /\ (exists s1 s2 s3,
        score scenario_state = 0 /\ misses scenario_state = 0
        /\ handle_event (default_config []) (KEYDOWN K_q) scenario_state = Ok s1
        /\ score s1 = 1 /\ misses s1 = 0
        /\ handle_event (default_config []) (KEYDOWN K_q) s1 = Ok s2
        /\ score s2 = 0 /\ misses s2 = 0
        /\ detect_missed_tiles (default_config []) s2 = Continue s3
        /\ score s3 = 0 /\ misses s3 = 1).
Proof.
  intros Hkey Hnc. split; [|split; [|split]].
  - unfold handle_event, handle_tile_tap. rewrite Hkey. cbn [print tiles].
    assert (Hscan := tap_scan_spec
                       (tap_hits lane
                          (screen_height cfg - tile_height - hit_zone_buffer)
                          (screen_height cfg - tile_height + hit_zone_buffer))
                       (tiles s) []).
    destruct (tap_scan _ [] (tiles s)) as [[tile remaining]|].
    + destruct Hscan as [pre [post [Hsplit [_ [Hhit _]]]]].
      eexists. split; [reflexivity|]. cbn. split; [reflexivity|].
      split; [reflexivity|]. intros Hnone. exfalso.
      apply (Hnone tile).
      * rewrite Hsplit. apply in_or_app. right. left. reflexivity.
      * apply tap_hits_window. exact Hhit.
    + destruct (Z.eqb_spec (num_columns cfg) 0) as [H|_]; [contradiction|].
      eexists. split; [reflexivity|]. cbn. split; [reflexivity|].
      split; [|reflexivity]. intros [t [Hin Hw]]. exfalso.
      apply tap_hits_window in Hw. rewrite (Hscan t Hin) in Hw.
      discriminate Hw.
  - destruct (detect_missed_tiles_counts cfg s) as [Hs [Hm _]].
    split; assumption.
  - split; [intros t; apply overdue_spec|].
    exact (detect_missed_tiles_sweep cfg s).
  - do 3 eexists.
    split; [reflexivity|]. split; [reflexivity|].
    split; [vm_compute; reflexivity|].
    split; [reflexivity|]. split; [reflexivity|].
    split; [vm_compute; reflexivity|].
    split; [reflexivity|]. split; [reflexivity|].
    split; [vm_compute; reflexivity|].
    split; reflexivity.
Qed.

Lemma score_and_miss_bookkeeping_witness :
  dict_get key_to_column K_q = Some 0 /\ num_columns (default_config []) <> 0
  /\ exists s',
      handle_event (default_config []) (KEYDOWN K_q) scenario_state = Ok s'
      /\ misses s' = 0 /\ score s' = 1.
Proof.
  split; [reflexivity|]. split; [discriminate|].
  destruct (score_and_miss_bookkeeping (default_config []) K_q 0 scenario_state
              eq_refl ltac:(discriminate))
    as [[s' [Hs' [Hm [Hhit _]]]] _].
  exists s'. split; [exact Hs'|]. split; [exact Hm|].
  apply Hhit. eexists. split; [left; reflexivity|].
  unfold in_hit_window. cbn. split; [reflexivity|]. split; discriminate.
Defined.

(** ** What each phase of a pass leaves alone *)

Lemma milestone_prints_app (l1 l2 : list Output) :
  milestone_prints (l1 ++ l2) = milestone_prints l1 ++ milestone_prints l2.
Proof.
  induction l1 as [|o l1 IH]; [reflexivity|].
  destruct o; cbn [app milestone_prints]; rewrite IH; reflexivity.
Qed.

Lemma milestone_records_app (l1 l2 : list Animation) :
  milestone_records (l1 ++ l2) = milestone_records l1 ++ milestone_records l2.
Proof.
  induction l1 as [|a l1 IH]; [reflexivity|].
  destruct a; cbn [app milestone_records]; rewrite IH; reflexivity.
Qed.

Lemma tap_keeps_refl (s : State) : tap_keeps s s.
Proof. repeat split. Qed.

Lemma tap_keeps_trans (s1 s2 s3 : State) :
  tap_keeps s1 s2 -> tap_keeps s2 s3 -> tap_keeps s1 s3.
Proof.
  unfold tap_keeps. intros [A1 [A2 [A3 [A4 [A5 A6]]]]] [B1 [B2 [B3 [B4 [B5 B6]]]]].
  repeat split; congruence.
Qed.

Lemma handle_tile_tap_keeps (key nc sw sh th : Z) (s s' : State) :
  handle_tile_tap key nc sw sh th s = Ok s' ->
  tap_keeps s s' /\ running s' = running s.
Proof.
  unfold handle_tile_tap.
  destruct (dict_get key_to_column key) as [lane|].
  - cbn [print tiles].
    destruct (tap_scan _ [] (tiles s)) as [[tile remaining]|].
    + intros [= <-]. unfold tap_keeps. cbn.
      rewrite !milestone_prints_app, milestone_records_app. cbn.
      rewrite !app_nil_r. repeat split.
    + destruct (nc =? 0); [discriminate|].
      intros [= <-]. unfold tap_keeps. cbn.
      rewrite !milestone_prints_app, milestone_records_app. cbn.
      rewrite !app_nil_r. repeat split.
  - intros [= <-]. split; [apply tap_keeps_refl|reflexivity].
Qed.

Lemma handle_tile_tap_total (key nc sw sh th : Z) (s : State) :
  nc <> 0 -> exists s', handle_tile_tap key nc sw sh th s = Ok s'.
Proof.
  intros Hnc. unfold handle_tile_tap.
  destruct (dict_get key_to_column key) as [lane|]; [|eexists; reflexivity].
  cbn [print tiles].
  destruct (tap_scan _ [] (tiles s)) as [[tile remaining]|];
    [eexists; reflexivity|].
  destruct (Z.eqb_spec nc 0) as [H|_]; [contradiction|].
  eexists; reflexivity.
Qed.

Lemma handle_events_keeps (cfg : Config) (evs : list Event) (s : State) :
  num_columns cfg <> 0 ->
  exists s', handle_events cfg evs s = Ok s' /\ tap_keeps s s'.
Proof.
  intros Hnc. revert s. induction evs as [|ev evs IH]; intros s.
  - exists s. split; [reflexivity|apply tap_keeps_refl].
  - cbn [handle_events].
    assert (Hev : exists s1, handle_event cfg ev s = Ok s1 /\ tap_keeps s s1).
    { destruct ev as [|key|]; cbn [handle_event].
      - eexists. split; [reflexivity|]. repeat split.
      - destruct (handle_tile_tap_total key (num_columns cfg) (screen_width cfg)
                    (screen_height cfg) tile_height s Hnc) as [s1 Hs1].
        exists s1. split; [exact Hs1|].
        apply (handle_tile_tap_keeps _ _ _ _ _ _ _ Hs1).
      - exists s. split; [reflexivity|apply tap_keeps_refl]. }
    destruct Hev as [s1 [Hs1 Hk1]]. rewrite Hs1. cbn [bind].
    destruct (IH s1) as [s' [Hs' Hk']].
    exists s'. split; [exact Hs'|]. eapply tap_keeps_trans; eassumption.
Qed.

(** The fields spawning writes are [tiles] and [current_tile_index]. *)
Lemma spawn_loop_keeps (cfg : Config) (t : Q) (pending : list ScheduledTarget)
    (s : State) :
  misses (spawn_loop cfg t pending s) = misses s
  /\ score (spawn_loop cfg t pending s) = score s
  /\ start_time (spawn_loop cfg t pending s) = start_time s
  /\ running (spawn_loop cfg t pending s) = running s
  /\ achieved_milestones (spawn_loop cfg t pending s) = achieved_milestones s
  /\ stdout (spawn_loop cfg t pending s) = stdout s
  /\ animations (spawn_loop cfg t pending s) = animations s.
Proof.
  revert s. induction pending as [|e rest IH]; intros s; [repeat split|].
  cbn [spawn_loop]. destruct (Qle_bool (time e) t); [|repeat split].
  match goal with |- context [spawn_loop cfg t rest ?st] =>
    destruct (IH st) as [A1 [A2 [A3 [A4 [A5 [A6 A7]]]]]] end.
  rewrite A1, A2, A3, A4, A5, A6, A7. repeat split.
Qed.

Lemma advance_keeps (cfg : Config) (inp : FrameInput) (s : State) :
  num_columns cfg <> 0 ->
  exists s3, advance cfg inp s = Ok s3
    /\ misses s3 = misses s
    /\ start_time s3 = start_time s
    /\ achieved_milestones s3 = achieved_milestones s
    /\ milestone_prints (stdout s3) = milestone_prints (stdout s)
    /\ milestone_records (animations s3) = milestone_records (animations s).
Proof.
  intros Hnc. unfold advance.
  destruct (handle_events_keeps cfg (events inp) s Hnc)
    as [s1 [Hs1 [K1 [K2 [K3 [K4 [K5 K6]]]]]]].
  rewrite Hs1. cbn [bind]. eexists. split; [reflexivity|].
  unfold update_tiles, spawn_tiles. cbn.
  match goal with |- context [spawn_loop cfg ?t ?p s1] =>
    destruct (spawn_loop_keeps cfg t p s1) as [A1 [A2 [A3 [A4 [A5 [A6 A7]]]]]] end.
  rewrite A1, A3, A5, A6, A7. repeat split; assumption.
Qed.

Lemma missed_loop_keeps (H : Z) (rest kept : list Tile.t) (s : State) :
  current_tile_index (state_of (missed_loop H kept rest s)) = current_tile_index s
  /\ start_time (state_of (missed_loop H kept rest s)) = start_time s
  /\ running (state_of (missed_loop H kept rest s)) = running s
  /\ achieved_milestones (state_of (missed_loop H kept rest s))
     = achieved_milestones s
  /\ milestone_prints (stdout (state_of (missed_loop H kept rest s)))
     = milestone_prints (stdout s).
Proof.
  revert kept s. induction rest as [|tile rest IH]; intros kept s;
    [repeat split|].
  cbn [missed_loop]. destruct (Qlt_bool (inject_Z H) (Tile.y tile)).
  - cbn [misses set_misses print add_animation set_animations].
    destruct (max_misses <=? misses s + 1).
    + cbn. rewrite !milestone_prints_app. cbn. rewrite !app_nil_r.
      repeat split.
    + match goal with |- context [missed_loop H kept rest ?st] =>
        destruct (IH kept st) as [A1 [A2 [A3 [A4 A5]]]] end.
      rewrite A1, A2, A3, A4, A5. cbn.
      rewrite milestone_prints_app. cbn. rewrite app_nil_r. repeat split.
  - apply IH.
Qed.

(** The milestone check: the thresholds newly reached are recorded, announced
    and given a feedback record together, each once; a threshold already
    recorded is passed over. *)
Lemma milestone_loop_spec (cfg : Config) (wall : nat -> Q) (ms : list Z)
    (k : nat) (s : State) :
  exists new,
    achieved_milestones (snd (milestone_loop cfg wall ms k s))
    = achieved_milestones s ++ new
    /\ milestone_prints (stdout (snd (milestone_loop cfg wall ms k s)))
       = milestone_prints (stdout s) ++ new
    /\ milestone_records (animations (snd (milestone_loop cfg wall ms k s)))
       = milestone_records (animations s) ++ new
    /\ NoDup new
    /\ (forall m, In m new ->
          In m ms /\ m <= score s /\ ~ In m (achieved_milestones s)).
Proof.
  revert k s. induction ms as [|m ms IH]; intros k s.
  - exists []. cbn. rewrite !app_nil_r.
    split; [reflexivity|]. split; [reflexivity|]. split; [reflexivity|].
    split; [constructor|]. intros m0 [].
  - cbn [milestone_loop].
    destruct ((m <=? score s)
              && negb (existsb (Z.eqb m) (achieved_milestones s))) eqn:Hc.
    + apply andb_true_iff in Hc. destruct Hc as [Hle Hnew].
      apply Z.leb_le in Hle. apply negb_true_iff in Hnew.
      assert (Hnotin : ~ In m (achieved_milestones s)).
      { intros Hin.
        assert (Hex : existsb (Z.eqb m) (achieved_milestones s) = true).
        { apply existsb_exists. exists m. split; [exact Hin|apply Z.eqb_refl]. }
        congruence. }
      match goal with |- context [milestone_loop cfg wall ms (S k) ?st] =>
        destruct (IH (S k) st) as [new [A1 [A2 [A3 [A4 A5]]]]] end.
      exists (m :: new). rewrite A1, A2, A3. cbn.
      rewrite milestone_prints_app, milestone_records_app. cbn.
      rewrite <- !app_assoc. cbn.
      split; [reflexivity|]. split; [reflexivity|]. split; [reflexivity|].
      split.
      * constructor; [|exact A4]. intros Hin.
        destruct (A5 m Hin) as [_ [_ Hn]]. apply Hn. cbn.
        apply in_or_app. right. left. reflexivity.
      * intros m0 [<-|Hin].
        -- split; [left; reflexivity|]. split; [exact Hle|exact Hnotin].
        -- destruct (A5 m0 Hin) as [B1 [B2 B3]]. cbn in B2, B3.
           split; [right; exact B1|]. split; [exact B2|].
           intros Hold. apply B3. apply in_or_app. left. exact Hold.
    + destruct (IH k s) as [new [A1 [A2 [A3 [A4 A5]]]]].
      exists new. split; [exact A1|]. split; [exact A2|]. split; [exact A3|].
      split; [exact A4|]. intros m0 Hin.
      destruct (A5 m0 Hin) as [B1 [B2 B3]].
      split; [right; exact B1|]. split; assumption.
Qed.

Lemma milestone_loop_keeps (cfg : Config) (wall : nat -> Q) (ms : list Z)
    (k : nat) (s : State) :
  tiles (snd (milestone_loop cfg wall ms k s)) = tiles s
  /\ misses (snd (milestone_loop cfg wall ms k s)) = misses s
  /\ score (snd (milestone_loop cfg wall ms k s)) = score s
  /\ current_tile_index (snd (milestone_loop cfg wall ms k s))
     = current_tile_index s
  /\ start_time (snd (milestone_loop cfg wall ms k s)) = start_time s
  /\ running (snd (milestone_loop cfg wall ms k s)) = running s.
Proof.
  revert k s. induction ms as [|m ms IH]; intros k s; [repeat split|].
  cbn [milestone_loop].
  destruct ((m <=? score s)
            && negb (existsb (Z.eqb m) (achieved_milestones s))).
  - match goal with |- context [milestone_loop cfg wall ms (S k) ?st] =>
      destruct (IH (S k) st) as [A1 [A2 [A3 [A4 [A5 A6]]]]] end.
    rewrite A1, A2, A3, A4, A5, A6. repeat split.
  - apply IH.
Qed.

(** ** Termination of a session *)

(** How the second half of a pass ends, read off the state [s] it starts
    from. *)
Lemma finish_spec (cfg : Config) (inp : FrameInput) (s : State) :
  misses s < max_misses ->
  match finish cfg inp s with
  | GameOver MaxMisses s' =>
      max_misses <= misses s + count_overdue (screen_height cfg) (tiles s)
      /\ misses s' = max_misses
  | GameOver SongFinished s' =>
      misses s + count_overdue (screen_height cfg) (tiles s) < max_misses
      /\ music_busy inp = false
      /\ tiles s' = []
      /\ filter (fun t => negb (overdue (screen_height cfg) t)) (tiles s) = []
      /\ misses s' < max_misses
  | Continue s' =>
      misses s + count_overdue (screen_height cfg) (tiles s) < max_misses
      /\ (music_busy inp = true \/ tiles s' <> [])
      /\ tiles s'
         = filter (fun t => negb (overdue (screen_height cfg) t)) (tiles s)
      /\ misses s' < max_misses
  end.
Proof.
  intros Hlt. unfold finish, detect_missed_tiles.
  assert (Hspec := missed_loop_spec (screen_height cfg) (tiles s) [] s).
  destruct (missed_loop (screen_height cfg) [] (tiles s) s) as [s4|why s4].
  - destruct Hspec as [Ht [Hm [Hb _]]]. cbn [app] in Ht.
    assert (Hnn := count_overdue_nonneg (screen_height cfg) (tiles s)).
    assert (Hm4 : misses s4 < max_misses).
    { destruct (Z.eq_dec (count_overdue (screen_height cfg) (tiles s)) 0);
        [lia|apply Hb; lia]. }
    unfold check_milestones.
    destruct (milestone_loop_keeps cfg (wall inp) MILESTONES 1 s4)
      as [K1 [K2 _]].
    destruct (milestone_loop cfg (wall inp) MILESTONES 1 s4) as [k s5].
    cbn [snd] in K1, K2. cbn [set_animations tiles].
    destruct (music_busy inp); cbn [negb andb].
    + cbn. rewrite K1, K2.
      split; [lia|]. split; [left; reflexivity|]. split; assumption.
    + destruct (Nat.eqb_spec (length (tiles s5)) 0) as [Hz|Hnz].
      * cbn. rewrite K2. apply length_zero_iff_nil in Hz.
        split; [lia|]. split; [reflexivity|]. split; [exact Hz|].
        split; [congruence|exact Hm4].
      * cbn. rewrite K1, K2. split; [lia|]. split; [|split; assumption].
        right. intros Hnil. apply Hnz. rewrite K1, Hnil. reflexivity.
  - destruct Hspec as [-> [_ [Hmx [pre [tile [post [Hsplit [Hov [_ [Hm Hb]]]]]]]]]].
    assert (Hnn := count_overdue_nonneg (screen_height cfg) pre).
    assert (Hnn' := count_overdue_nonneg (screen_height cfg) post).
    rewrite Hsplit, count_overdue_app, count_overdue_cons, Hov.
    split; [lia|].
    destruct (Z.eq_dec (count_overdue (screen_height cfg) pre) 0);
      [lia|]. assert (misses s + count_overdue (screen_height cfg) pre < max_misses)
      by (apply Hb; lia). lia.
Qed.

Lemma same_play_refl (s : State) : same_play s s.
Proof. repeat split. Qed.

Lemma handle_event_same_play (cfg : Config) (ev : Event) (s1 s2 a b : State) :
  same_play s1 s2 ->
  handle_event cfg ev s1 = Ok a -> handle_event cfg ev s2 = Ok b ->
  same_play a b.
Proof.
  intros [Ht [Hm [Hi [Hst Hr]]]].
  destruct ev as [|key|]; cbn [handle_event].
  - intros [= <-] [= <-]. repeat split; assumption.
  - unfold handle_tile_tap.
    destruct (dict_get key_to_column key) as [lane|].
    + cbn [print tiles]. rewrite Ht.
      destruct (tap_scan _ [] (tiles s2)) as [[tile remaining]|].
      * intros [= <-] [= <-]. repeat split; assumption.
      * destruct (num_columns cfg =? 0); [discriminate|].
        intros [= <-] [= <-]. repeat split; assumption.
    + intros [= <-] [= <-]. repeat split; assumption.
  - intros [= <-] [= <-]. repeat split; assumption.
Qed.

Lemma handle_events_same_play (cfg : Config) (evs : list Event)
    (s1 s2 a b : State) :
  same_play s1 s2 ->
  handle_events cfg evs s1 = Ok a -> handle_events cfg evs s2 = Ok b ->
  same_play a b.
Proof.
  revert s1 s2. induction evs as [|ev evs IH]; intros s1 s2 Hsame.
  - intros [= <-] [= <-]. exact Hsame.
  - cbn [handle_events].
    destruct (handle_event cfg ev s1) as [a1|] eqn:E1; [|discriminate].
    destruct (handle_event cfg ev s2) as [b1|] eqn:E2; [|discriminate].
    cbn [bind]. apply IH.
    eapply handle_event_same_play; eassumption.
Qed.

Lemma spawn_loop_same_play (cfg : Config) (t : Q)
    (pending : list ScheduledTarget) (s1 s2 : State) :
  same_play s1 s2 ->
  same_play (spawn_loop cfg t pending s1) (spawn_loop cfg t pending s2).
Proof.
  revert s1 s2. induction pending as [|e rest IH]; intros s1 s2 Hsame;
    [exact Hsame|].
  cbn [spawn_loop]. destruct (Qle_bool (time e) t); [|exact Hsame].
  apply IH. destruct Hsame as [Ht [Hm [Hi [Hst Hr]]]].
  unfold same_play. cbn. rewrite Ht, Hi. repeat split; assumption.
Qed.

Lemma missed_loop_same_play (H : Z) (rest kept : list Tile.t) (s1 s2 : State) :
  misses s1 = misses s2 ->
  current_tile_index s1 = current_tile_index s2 ->
  start_time s1 = start_time s2 -> running s1 = running s2 ->
  match missed_loop H kept rest s1, missed_loop H kept rest s2 with
  | Continue a, Continue b => same_play a b
  | GameOver w a, GameOver w' b => w = w' /\ same_play a b
  | _, _ => False
  end.
Proof.
  revert kept s1 s2. induction rest as [|tile rest IH];
    intros kept s1 s2 Hm Hi Hst Hr.
  - cbn. repeat split; assumption.
  - cbn [missed_loop]. destruct (Qlt_bool (inject_Z H) (Tile.y tile)).
    + cbn [misses set_misses print add_animation set_animations].
      rewrite Hm. destruct (max_misses <=? misses s2 + 1).
      * cbn. repeat split; assumption.
      * apply IH; cbn; congruence.
    + apply IH; assumption.
Qed.

(** The way a pass ends does not depend on the score, the feedback, the
    console or the milestones reached. *)
Lemma frame_same_play (cfg : Config) (inp : FrameInput) (s1 s2 : State) :
  num_columns cfg <> 0 -> same_play s1 s2 ->
  kind_of (frame cfg inp s1) = kind_of (frame cfg inp s2).
Proof.
  intros Hnc Hsame. unfold frame, advance.
  destruct (handle_events_keeps cfg (events inp) s1 Hnc) as [a [Ha _]].
  destruct (handle_events_keeps cfg (events inp) s2 Hnc) as [b [Hb _]].
  rewrite Ha, Hb. cbn [bind kind_of].
  assert (Hab := handle_events_same_play cfg _ _ _ _ _ Hsame Ha Hb).
  assert (Hst : start_time s1 = start_time s2) by apply Hsame.
  rewrite Hst.
  set (t := (wall inp 0 - start_time s2)%Q).
  set (d := (inject_Z (clock_ms inp) / 1000)%Q).
  assert (Hsp : same_play (update_tiles d (spawn_tiles cfg t a))
                          (update_tiles d (spawn_tiles cfg t b))).
  { unfold spawn_tiles.
    assert (Hi : current_tile_index a = current_tile_index b) by apply Hab.
    rewrite Hi.
    destruct (spawn_loop_same_play cfg t
                (skipn (current_tile_index b) (level cfg)) a b Hab)
      as [Ht [Hm [Hi' [Hs' Hr]]]].
    unfold same_play, update_tiles. cbn. rewrite Ht.
    repeat split; assumption. }
  destruct Hsp as [Ht [Hm [Hi [Hs' Hr]]]].
  unfold finish, detect_missed_tiles. rewrite Ht.
  assert (Hml := missed_loop_same_play (screen_height cfg)
                   (tiles (update_tiles d (spawn_tiles cfg t b))) []
                   _ _ Hm Hi Hs' Hr).
  destruct (missed_loop (screen_height cfg) [] _
              (update_tiles d (spawn_tiles cfg t a))) as [a4|wa a4];
    destruct (missed_loop (screen_height cfg) [] _
                (update_tiles d (spawn_tiles cfg t b))) as [b4|wb b4];
    try contradiction.
  - unfold check_milestones.
    destruct (milestone_loop_keeps cfg (wall inp) MILESTONES 1 a4) as [Ka _].
    destruct (milestone_loop_keeps cfg (wall inp) MILESTONES 1 b4) as [Kb _].
    destruct (milestone_loop cfg (wall inp) MILESTONES 1 a4) as [ka a5].
    destruct (milestone_loop cfg (wall inp) MILESTONES 1 b4) as [kb b5].
    cbn [snd] in Ka, Kb. cbn [set_animations tiles].
    assert (Ht5 : tiles a5 = tiles b5).
    { rewrite Ka, Kb. apply Hml. }
    rewrite Ht5.
    destruct (negb (music_busy inp) && Nat.eqb (length (tiles b5)) 0);
      reflexivity.
  - destruct Hml as [-> _]. reflexivity.
Qed.

Lemma frame_total (cfg : Config) (inp : FrameInput) (s : State) :
  num_columns cfg <> 0 ->
  exists s3, advance cfg inp s = Ok s3
    /\ misses s3 = misses s
    /\ frame cfg inp s = Ok (finish cfg inp s3).
Proof.
  intros Hnc.
  destruct (advance_keeps cfg inp s Hnc) as [s3 [Hs3 [Hm _]]].
  exists s3. split; [exact Hs3|]. split; [exact Hm|].
  unfold frame. rewrite Hs3. reflexivity.
Qed.

(** Over a whole run the miss count stays below [max_misses] for as long as
    the loop goes on, and is exactly [max_misses] when the loop stops for
    too many misses. *)
Lemma game_loop_misses (cfg : Config) (frames : list FrameInput) (s : State) :
  num_columns cfg <> 0 -> misses s < max_misses ->
  match game_loop cfg frames s with
  | Ok (Terminal MaxMisses s') => misses s' = max_misses
  | Ok (Terminal SongFinished s') => misses s' < max_misses /\ tiles s' = []
  | Ok (Exited s') => misses s' < max_misses
  | Ok (Pending s') => misses s' < max_misses
  | Raise _ => False
  end.
Proof.
  intros Hnc. revert s. induction frames as [|inp frames IH]; intros s Hlt.
  - cbn. destruct (running s); exact Hlt.
  - cbn [game_loop]. destruct (running s); [|exact Hlt].
    destruct (frame_total cfg inp s Hnc) as [s3 [_ [Hm Hf]]].
    rewrite Hf. cbn [bind].
    assert (Hfin := finish_spec cfg inp s3 ltac:(lia)).
    destruct (finish cfg inp s3) as [s'|[|] s'].
    + apply IH. apply Hfin.
    + apply Hfin.
    + split; apply Hfin.
Qed.

(** How a pass ends, read off the miss count before it and the tiles after
    the update. *)
Lemma frame_kind (cfg : Config) (inp : FrameInput) (s : State) :
  num_columns cfg <> 0 -> misses s < max_misses ->
  exists s3,
    advance cfg inp s = Ok s3
    /\ misses s3 = misses s
    /\ kind_of (frame cfg inp s)
       = (if max_misses <=? misses s + count_overdue (screen_height cfg) (tiles s3)
          then Ends MaxMisses
          else if negb (music_busy inp)
                  && Nat.eqb
                       (length (filter (fun t => negb (overdue (screen_height cfg) t))
                                  (tiles s3))) 0
               then Ends SongFinished
               else Goes).
Proof.
  intros Hnc Hlt.
  destruct (frame_total cfg inp s Hnc) as [s3 [Hs3 [Hm Hf]]].
  exists s3. split; [exact Hs3|]. split; [exact Hm|].
  assert (Hfin := finish_spec cfg inp s3 ltac:(lia)).
  rewrite Hf. cbn [kind_of]. rewrite <- Hm.
  destruct (finish cfg inp s3) as [s'|[|] s'].
  - destruct Hfin as [Hc [Hb [Ht _]]].
    destruct (Z.leb_spec max_misses
                (misses s3 + count_overdue (screen_height cfg) (tiles s3)));
      [lia|].
    rewrite <- Ht. destruct Hb as [->|Hne]; [reflexivity|].
    destruct (tiles s') as [|t l]; [congruence|].
    cbn [length Nat.eqb]. rewrite andb_false_r. reflexivity.
  - destruct Hfin as [Hc _].
    destruct (Z.leb_spec max_misses
                (misses s3 + count_overdue (screen_height cfg) (tiles s3)));
      [reflexivity|lia].
  - destruct Hfin as [Hc [Hb [_ [Hnil _]]]].
    destruct (Z.leb_spec max_misses
                (misses s3 + count_overdue (screen_height cfg) (tiles s3)));
      [lia|].
    rewrite Hb, Hnil. reflexivity.
Qed.

(** The session is over exactly at the first pass that ends it: the passes
    before it leave the loop running, and the loop reads no pass after it. *)
Lemma game_loop_terminal_iff (cfg : Config) (frames : list FrameInput)
    (s : State) (why : Reason) (s' : State) :
  game_loop cfg frames s = Ok (Terminal why s')
  <-> exists pre inp post sk,
        frames = pre ++ inp :: post
        /\ game_loop cfg pre s = Ok (Pending sk)
        /\ frame cfg inp sk = Ok (GameOver why s').
Proof.
  split.
  - revert s. induction frames as [|inp rest IH]; intros s.
    + cbn [game_loop]. destruct (running s); discriminate.
    + cbn [game_loop]. destruct (running s) eqn:Hr; [|discriminate].
      destruct (frame cfg inp s) as [[s1|w s1]|e] eqn:Hf; cbn [bind].
      * intros H. apply IH in H.
        destruct H as [pre [inp' [post [sk [-> [Hp Hf']]]]]].
        exists (inp :: pre), inp', post, sk.
        split; [reflexivity|]. split; [|exact Hf'].
        cbn [game_loop]. rewrite Hr, Hf. cbn [bind]. exact Hp.
      * intros [= -> ->]. exists [], inp, rest, s.
        split; [reflexivity|]. split; [|exact Hf].
        cbn [game_loop]. rewrite Hr. reflexivity.
      * discriminate.
  - intros [pre [inp [post [sk [-> [Hp Hf]]]]]].
    revert s Hp. induction pre as [|i pre IH]; intros s Hp.
    + cbn [game_loop] in Hp. destruct (running s) eqn:Hr; [|discriminate].
      injection Hp as <-. cbn [app game_loop]. rewrite Hr, Hf. reflexivity.
    + cbn [app game_loop] in Hp |- *. destruct (running s); [|discriminate].
      destruct (frame cfg i s) as [[s1|w s1]|e]; cbn [bind] in Hp |- *;
        try discriminate.
      apply IH. exact Hp.
Qed.

(** Two states that differ at most in score, feedback, console output and
    milestones reached go through a pass the same way, and still differ at
    most in those after it. *)
Lemma frame_same_play_states (cfg : Config) (inp : FrameInput)
    (s1 s2 : State) :
  num_columns cfg <> 0 -> same_play s1 s2 ->
  match frame cfg inp s1, frame cfg inp s2 with
  | Ok (Continue a), Ok (Continue b) => same_play a b
  | Ok (GameOver w _), Ok (GameOver w' _) => w = w'
  | _, _ => False
  end.
Proof.
  intros Hnc Hsame. unfold frame, advance.
  destruct (handle_events_keeps cfg (events inp) s1 Hnc) as [a [Ha _]].
  destruct (handle_events_keeps cfg (events inp) s2 Hnc) as [b [Hb _]].
  rewrite Ha, Hb. cbn [bind].
  assert (Hab := handle_events_same_play cfg _ _ _ _ _ Hsame Ha Hb).
  assert (Hst : start_time s1 = start_time s2) by apply Hsame.
  rewrite Hst.
  set (t := (wall inp 0 - start_time s2)%Q).
  set (d := (inject_Z (clock_ms inp) / 1000)%Q).
  assert (Hsp : same_play (update_tiles d (spawn_tiles cfg t a))
                          (update_tiles d (spawn_tiles cfg t b))).
  { unfold spawn_tiles.
    assert (Hi : current_tile_index a = current_tile_index b) by apply Hab.
    rewrite Hi.
    destruct (spawn_loop_same_play cfg t
                (skipn (current_tile_index b) (level cfg)) a b Hab)
      as [Ht [Hm [Hi' [Hs' Hr]]]].
    unfold same_play, update_tiles. cbn. rewrite Ht.
    repeat split; assumption. }
  destruct Hsp as [Ht [Hm [Hi [Hs' Hr]]]].
  unfold finish, detect_missed_tiles. rewrite Ht.
  assert (Hml := missed_loop_same_play (screen_height cfg)
                   (tiles (update_tiles d (spawn_tiles cfg t b))) []
                   _ _ Hm Hi Hs' Hr).
  destruct (missed_loop (screen_height cfg) [] _
              (update_tiles d (spawn_tiles cfg t a))) as [a4|wa a4];
    destruct (missed_loop (screen_height cfg) [] _
                (update_tiles d (spawn_tiles cfg t b))) as [b4|wb b4];
    try contradiction.
  - unfold check_milestones.
    destruct (milestone_loop_keeps cfg (wall inp) MILESTONES 1 a4)
      as [Ka1 [Ka2 [_ [Ka4 [Ka5 Ka6]]]]].
    destruct (milestone_loop_keeps cfg (wall inp) MILESTONES 1 b4)
      as [Kb1 [Kb2 [_ [Kb4 [Kb5 Kb6]]]]].
    destruct (milestone_loop cfg (wall inp) MILESTONES 1 a4) as [ka a5].
    destruct (milestone_loop cfg (wall inp) MILESTONES 1 b4) as [kb b5].
    cbn [snd] in Ka1, Ka2, Ka4, Ka5, Ka6, Kb1, Kb2, Kb4, Kb5, Kb6.
    cbn [set_animations tiles].
    destruct Hml as [H1 [H2 [H3 [H4 H5]]]].
    assert (Ht5 : tiles a5 = tiles b5) by congruence.
    rewrite Ht5.
    destruct (negb (music_busy inp) && Nat.eqb (length (tiles b5)) 0);
      [reflexivity|].
    unfold same_play, set_animations.
    cbn [tiles misses current_tile_index start_time running].
    repeat split; congruence.
  - apply Hml.
Qed.

(** A whole session ends the same way whatever the score it starts from. *)
Lemma game_loop_same_play (cfg : Config) (frames : list FrameInput)
    (s1 s2 : State) :
  num_columns cfg <> 0 -> same_play s1 s2 ->
  match game_loop cfg frames s1, game_loop cfg frames s2 with
  | Ok (Terminal w _), Ok (Terminal w' _) => w = w'
  | Ok (Exited _), Ok (Exited _) => True
  | Ok (Pending _), Ok (Pending _) => True
  | _, _ => False
  end.
Proof.
  intros Hnc. revert s1 s2.
  induction frames as [|inp rest IH]; intros s1 s2 Hsame.
  - cbn [game_loop].
    assert (Hr : running s1 = running s2) by apply Hsame.
    rewrite Hr. destruct (running s2); exact I.
  - cbn [game_loop].
    assert (Hr : running s1 = running s2) by apply Hsame.
    rewrite Hr. destruct (running s2); [|exact I].
    assert (Hf := frame_same_play_states cfg inp s1 s2 Hnc Hsame).
    destruct (frame cfg inp s1) as [[a|w a]|e];
      destruct (frame cfg inp s2) as [[b|w' b]|e']; try contradiction;
      cbn [bind].
    + apply IH. exact Hf.
    + exact Hf.
Qed.

(** C3.  A pass of the loop ends the session for too many misses exactly when
    the tiles that fell out of the playfield in it bring the miss count to
    [max_misses], and the count is then exactly [max_misses]; it ends the
    session for the end of the song exactly when that did not happen, the
    music has stopped and no tile is left; otherwise the session goes on,
    with fewer than [max_misses] misses.  Key presses never change the miss
    count and the score plays no part: a pass ends the same way whatever the
    score.  The same holds of the whole loop: on the passes [frames] the
    session is over with reason [why] exactly when [frames] splits into
    passes [pre] that leave the loop running in a state [sk], and a pass
    [inp'] at which either the tiles fallen out of the playfield bring the
    miss count of [sk] to [max_misses] ([why] is then [MaxMisses]), or they
    do not, the music has stopped and no tile is left ([why] is then
    [SongFinished]); the loop reads no pass after that one, and it ends the
    same way whatever the score it starts from.  Five tiles falling through
    in five successive passes end the session at the fifth pass and not at
    the fourth, and six wrong taps leave it running with a score of -6 and
    no miss counted. *)
Theorem termination_conditions (cfg : Config) (inp : FrameInput) (s : State)
    (frames : list FrameInput) :
  num_columns cfg <> 0 -> misses s < max_misses ->
  exists s3,
    advance cfg inp s = Ok s3
    /\ misses s3 = misses s
    /\ kind_of (frame cfg inp s)
       = (if max_misses <=? misses s + count_overdue (screen_height cfg) (tiles s3)
          then Ends MaxMisses
          else if negb (music_busy inp)
                  && Nat.eqb
                       (length (filter (fun t => negb (overdue (screen_height cfg) t))
                                  (tiles s3))) 0
               then Ends SongFinished
               else Goes)
    /\ (forall s', frame cfg inp s = Ok (GameOver MaxMisses s') ->
                   misses s' = max_misses)
    /\ (forall s', frame cfg inp s = Ok (Continue s') ->
                   misses s' < max_misses)
    /\ (forall z, kind_of (frame cfg inp (set_score z s))
                  = kind_of (frame cfg inp s))
    /\ match game_loop cfg frames s with
       | Ok (Terminal MaxMisses s') => misses s' = max_misses
       | Ok (Terminal SongFinished s') =>
           misses s' < max_misses /\ tiles s' = []
       | Ok (Exited s') => misses s' < max_misses
       | Ok (Pending s') => misses s' < max_misses
       | Raise _ => False
       end
    /\ (forall why,
          (exists s', game_loop cfg frames s = Ok (Terminal why s'))
          <-> exists pre inp' post sk s4,
                frames = pre ++ inp' :: post
                /\ game_loop cfg pre s = Ok (Pending sk)
                /\ advance cfg inp' sk = Ok s4
                /\ if max_misses
                      <=? misses sk
                          + count_overdue (screen_height cfg) (tiles s4)
                   then why = MaxMisses
                   else why = SongFinished
                        /\ music_busy inp' = false
                        /\ filter (fun t => negb (overdue (screen_height cfg) t))
                             (tiles s4) = [])
    /\ (forall z,
          match game_loop cfg frames (set_score z s), game_loop cfg frames s with
          | Ok (Terminal w _), Ok (Terminal w' _) => w = w'
          | Ok (Exited _), Ok (Exited _) => True
          | Ok (Pending _), Ok (Pending _) => True
          | _, _ => False
          end)
    /\ (exists s4, game_loop (default_config (spaced_level 5)) (spaced_frames 4)
                     (initial_state 0) = Ok (Pending s4)
                   /\ misses s4 = 4)
    /\ (exists s5, game_loop (default_config (spaced_level 5)) (spaced_frames 5)
                     (initial_state 0) = Ok (Terminal MaxMisses s5)
                   /\ misses s5 = 5)
    /\ (exists s6, game_loop (default_config []) (repeat (key_frame K_q) 6)
                     (initial_state 0) = Ok (Pending s6)
                   /\ score s6 = -6 /\ misses s6 = 0).
Proof.
  intros Hnc Hlt.
  destruct (frame_kind cfg inp s Hnc Hlt) as [s3 [Hs3 [Hm Hkind]]].
  exists s3. split; [exact Hs3|]. split; [exact Hm|]. split; [exact Hkind|].
  assert (Hf : frame cfg inp s = Ok (finish cfg inp s3)).
  { unfold frame. rewrite Hs3. reflexivity. }
  assert (Hfin := finish_spec cfg inp s3 ltac:(lia)).
  split; [|split; [|split; [|split; [|split; [|split; [|split; [|split]]]]]]].
  - intros s'. rewrite Hf. intros [= Heq]. rewrite Heq in Hfin. apply Hfin.
  - intros s'. rewrite Hf. intros [= Heq]. rewrite Heq in Hfin. apply Hfin.
  - intros z. apply frame_same_play; [exact Hnc|]. repeat split.
  - apply game_loop_misses; assumption.
  - intros why. split.
    + intros [s' Ht]. apply game_loop_terminal_iff in Ht.
      destruct Ht as [pre [inp' [post [sk [Hfr [Hp Hf']]]]]].
      assert (Hk := game_loop_misses cfg pre s Hnc Hlt). rewrite Hp in Hk.
      destruct (frame_kind cfg inp' sk Hnc Hk) as [s4 [Ha [_ Hk4]]].
      exists pre, inp', post, sk, s4.
      split; [exact Hfr|]. split; [exact Hp|]. split; [exact Ha|].
      rewrite Hf' in Hk4. cbn [kind_of] in Hk4.
      destruct (max_misses
                <=? misses sk + count_overdue (screen_height cfg) (tiles s4));
        [congruence|].
      destruct (music_busy inp'); cbn [negb andb] in Hk4; [discriminate|].
      destruct (filter (fun t => negb (overdue (screen_height cfg) t))
                  (tiles s4)) as [|t l];
        cbn [length Nat.eqb] in Hk4; [|discriminate].
      split; [congruence|]. split; reflexivity.
    + intros [pre [inp' [post [sk [s4 [Hfr [Hp [Ha Hc]]]]]]]].
      assert (Hk := game_loop_misses cfg pre s Hnc Hlt). rewrite Hp in Hk.
      destruct (frame_kind cfg inp' sk Hnc Hk) as [s4' [Ha' [_ Hk4]]].
      rewrite Ha in Ha'. injection Ha' as <-.
      assert (Hends : kind_of (frame cfg inp' sk) = Ends why).
      { rewrite Hk4.
        destruct (max_misses
                  <=? misses sk + count_overdue (screen_height cfg) (tiles s4));
          [rewrite Hc; reflexivity|].
        destruct Hc as [Hw [Hb Hnil]]. rewrite Hw, Hb, Hnil. reflexivity. }
      destruct (frame cfg inp' sk) as [[s1|w s1]|e] eqn:Hf';
        cbn [kind_of] in Hends; try discriminate.
      injection Hends as ->. exists s1. apply game_loop_terminal_iff.
      exists pre, inp', post, sk.
      split; [exact Hfr|]. split; [exact Hp|exact Hf'].
  - intros z. apply game_loop_same_play; [exact Hnc|]. repeat split.
  - eexists. split; [vm_compute; reflexivity|reflexivity].
  - eexists. split; [vm_compute; reflexivity|reflexivity].
  - eexists. split; [vm_compute; reflexivity|]. split; reflexivity.
Qed.

Lemma termination_conditions_witness :
  num_columns (default_config (burst_level 5)) <> 0
  /\ misses (initial_state 0) < max_misses
  /\ kind_of (frame (default_config (burst_level 5)) long_frame (initial_state 0))
     = Ends MaxMisses.
Proof.
  split; [discriminate|]. split; [reflexivity|].
  destruct (termination_conditions (default_config (burst_level 5)) long_frame
              (initial_state 0) [] ltac:(discriminate) eq_refl)
    as [s3 [Hs3 [_ [Hkind _]]]].
  rewrite Hkind. vm_compute in Hs3. injection Hs3 as <-.
  vm_compute. reflexivity.
Defined.

(** ** Milestones *)

Lemma finish_milestones (cfg : Config) (inp : FrameInput) (s : State) :
  milestones_in_step s -> milestones_in_step (state_of (finish cfg inp s)).
Proof.
  intros [Hnd [Hpr Hin]]. unfold finish, detect_missed_tiles.
  destruct (missed_loop_keeps (screen_height cfg) (tiles s) [] s)
    as [_ [_ [_ [Ha Hp]]]].
  destruct (missed_loop (screen_height cfg) [] (tiles s) s) as [s4|why s4];
    cbn [state_of] in Ha, Hp |- *.
  - unfold check_milestones.
    destruct (milestone_loop_spec cfg (wall inp) MILESTONES 1 s4)
      as [new [A1 [A2 [_ [A4 A5]]]]].
    destruct (milestone_loop cfg (wall inp) MILESTONES 1 s4) as [k s5].
    cbn [snd] in A1, A2.
    assert (Hstep : milestones_in_step s5).
    { unfold milestones_in_step. rewrite A1, A2, Ha, Hp, Hpr.
      split; [|split; [reflexivity|]].
      - apply NoDup_app; [exact Hnd|exact A4|].
        intros a Hold Hnew. destruct (A5 a Hnew) as [_ [_ Hn]].
        apply Hn. rewrite Ha. exact Hold.
      - intros a Ha'. apply in_app_or in Ha'. destruct Ha' as [Hold|Hnew].
        + apply Hin. exact Hold.
        + apply (A5 a Hnew). }
    destruct (negb (music_busy inp) && _); cbn [state_of].
    + destruct Hstep as [B1 [B2 B3]]. unfold milestones_in_step. cbn.
      rewrite milestone_prints_app. cbn. rewrite app_nil_r.
      repeat split; assumption.
    + exact Hstep.
  - unfold milestones_in_step. rewrite Ha, Hp. repeat split; assumption.
Qed.

Lemma frame_milestones (cfg : Config) (inp : FrameInput) (s : State) :
  num_columns cfg <> 0 -> milestones_in_step s ->
  exists o, frame cfg inp s = Ok o /\ milestones_in_step (state_of o).
Proof.
  intros Hnc [Hnd [Hpr Hin]].
  destruct (advance_keeps cfg inp s Hnc) as [s3 [Hs3 [_ [_ [Ha [Hp _]]]]]].
  exists (finish cfg inp s3). unfold frame. rewrite Hs3. split; [reflexivity|].
  apply finish_milestones. unfold milestones_in_step. rewrite Ha, Hp.
  repeat split; assumption.
Qed.

Lemma game_loop_milestones (cfg : Config) (frames : list FrameInput)
    (s : State) :
  num_columns cfg <> 0 -> milestones_in_step s ->
  exists r, game_loop cfg frames s = Ok r /\ milestones_in_step (loop_state r).
Proof.
  intros Hnc. revert s. induction frames as [|inp frames IH]; intros s Hs.
  - cbn. destruct (running s); eexists; (split; [reflexivity|exact Hs]).
  - cbn [game_loop]. destruct (running s).
    + destruct (frame_milestones cfg inp s Hnc Hs) as [o [Ho Hstep]].
      rewrite Ho. cbn [bind]. destruct o as [s'|why s'].
      * apply IH. exact Hstep.
      * eexists. split; [reflexivity|exact Hstep].
    + eexists. split; [reflexivity|exact Hs].
Qed.

(** C9.  Over a whole session every threshold of 100/200/300/400/500 is
    announced at most once: the announcements are, in order, the thresholds
    kept in [achieved_milestones], and that list never holds a threshold
    twice.  Each check announces, records and gives a feedback record to the
    thresholds newly reached and to none already recorded.  A score that goes
    from 99 to 100, back to 99 and to 100 again announces 100 once. *)
Theorem milestone_emitted_once (cfg : Config) (t0 : Q)
    (frames : list FrameInput) :
  match main_game_loop cfg t0 frames with
  | Ok r =>
      milestone_prints (stdout (loop_state r))
      = achieved_milestones (loop_state r)
      /\ NoDup (milestone_prints (stdout (loop_state r)))
      /\ incl (milestone_prints (stdout (loop_state r))) MILESTONES
      /\ (forall m, (count_occ Z.eq_dec
                       (milestone_prints (stdout (loop_state r))) m <= 1)%nat)
  | Raise _ => num_columns cfg = 0 \/ (hit_time cfg == 0)%Q
  end
  /\ (forall wall k s,
        exists new,
          achieved_milestones (snd (check_milestones cfg wall k s))
          = achieved_milestones s ++ new
          /\ milestone_prints (stdout (snd (check_milestones cfg wall k s)))
             = milestone_prints (stdout s) ++ new
          /\ milestone_records
               (animations (snd (check_milestones cfg wall k s)))
             = milestone_records (animations s) ++ new
          /\ NoDup new
          /\ (forall m, In m new ->
                In m MILESTONES /\ m <= score s
                /\ ~ In m (achieved_milestones s)))
  /\ (exists s1 s2 s3,
        game_loop (default_config []) [key_frame K_q] milestone_state
        = Ok (Pending s1)
        /\ score s1 = 100 /\ milestone_prints (stdout s1) = [100]
        /\ game_loop (default_config []) [key_frame K_w] s1 = Ok (Pending s2)
        /\ score s2 = 99 /\ milestone_prints (stdout s2) = [100]
        /\ game_loop (default_config []) [key_frame K_q] s2 = Ok (Pending s3)
        /\ score s3 = 100 /\ milestone_prints (stdout s3) = [100]).
Proof.
  split; [|split].
  - unfold main_game_loop.
    destruct (Z.eqb_spec (num_columns cfg) 0) as [Hz|Hnc];
      [left; exact Hz|].
    destruct (Qeq_bool (hit_time cfg) 0) eqn:Hq;
      [right; apply Qeq_bool_eq; exact Hq|].
    destruct (game_loop_milestones cfg frames (initial_state t0) Hnc)
      as [r [Hr [Hnd [Hpr Hin]]]].
    { unfold milestones_in_step. cbn. split; [constructor|].
      split; [reflexivity|]. intros a []. }
    rewrite Hr, Hpr. split; [reflexivity|]. split; [exact Hnd|].
    split; [exact Hin|]. apply NoDup_count_occ. exact Hnd.
  - intros wall k s. apply milestone_loop_spec.
  - do 3 eexists.
    split; [vm_compute; reflexivity|].
    split; [reflexivity|]. split; [reflexivity|].
    split; [vm_compute; reflexivity|].
    split; [reflexivity|]. split; [reflexivity|].
    split; [vm_compute; reflexivity|].
    split; reflexivity.
Qed.

(** ** Spawning *)

Lemma filter_none {A : Type} (p : A -> bool) (l : list A) :
  (forall a, In a l -> p a = false) -> filter p l = [].
Proof.
  induction l as [|a l IH]; intros Hall; [reflexivity|].
  cbn [filter]. rewrite (Hall a (or_introl eq_refl)).
  apply IH. intros b Hb. apply Hall. right. exact Hb.
Qed.

Lemma filter_all {A : Type} (p : A -> bool) (l : list A) :
  (forall a, In a l -> p a = true) -> filter p l = l.
Proof.
  induction l as [|a l IH]; intros Hall; [reflexivity|].
  cbn [filter]. rewrite (Hall a (or_introl eq_refl)). f_equal.
  apply IH. intros b Hb. apply Hall. right. exact Hb.
Qed.

Lemma due_down_closed (t : Q) : down_closed (due t).
Proof.
  intros e e' He Hle. unfold due in *. apply Qle_bool_iff.
  apply Qle_bool_iff in He. eapply Qle_trans; eassumption.
Qed.

(** In a level sorted by time, the targets that pass a downward closed test
    form a prefix. *)
Lemma sorted_filter_prefix (P : ScheduledTarget -> bool)
    (l : list ScheduledTarget) :
  nondecreasing (map time l) -> down_closed P ->
  exists rest,
    l = filter P l ++ rest
    /\ (forall e, In e rest -> P e = false)
    /\ nondecreasing (map time rest).
Proof.
  intros Hs Hd. induction l as [|e l IH].
  - exists []. split; [reflexivity|]. split; [intros e []|exact Hs].
  - cbn [map] in Hs. destruct (nondecreasing_cons_inv _ _ Hs) as [Hl Hhead].
    cbn [filter]. destruct (P e) eqn:HP.
    + destruct (IH Hl) as [rest [Hsplit [Hrest Hsr]]].
      exists rest. split; [|split; assumption].
      cbn [app]. f_equal. exact Hsplit.
    + assert (Hno : forall e', In e' l -> P e' = false).
      { intros e' Hin. destruct (P e') eqn:HP'; [|reflexivity].
        rewrite (Hd e' e HP') in HP; [discriminate HP|].
        apply Hhead. apply in_map. exact Hin. }
      exists (e :: l). rewrite (filter_none P l Hno).
      split; [reflexivity|]. split; [|exact Hs].
      intros e' [<-|Hin]; [exact HP|apply Hno; exact Hin].
Qed.

Lemma take_due_sorted (t : Q) (l : list ScheduledTarget) :
  nondecreasing (map time l) -> take_due t l = filter (due t) l.
Proof.
  induction l as [|e l IH]; intros Hs; [reflexivity|].
  cbn [map] in Hs. destruct (nondecreasing_cons_inv _ _ Hs) as [Hl Hhead].
  cbn [take_due filter]. destruct (due t e) eqn:Hdue.
  - f_equal. apply IH. exact Hl.
  - symmetry. apply filter_none. intros e' Hin.
    destruct (due t e') eqn:Hdue'; [|reflexivity].
    rewrite (due_down_closed t e' e Hdue') in Hdue; [discriminate Hdue|].
    apply Hhead. apply in_map. exact Hin.
Qed.

(** The spawning loop appends one tile for each target it takes and moves
    the index past them. *)
Lemma spawn_loop_spec (cfg : Config) (t : Q) (pending : list ScheduledTarget)
    (s : State) :
  tiles (spawn_loop cfg t pending s)
  = tiles s ++ map (new_tile cfg) (take_due t pending)
  /\ current_tile_index (spawn_loop cfg t pending s)
     = (current_tile_index s + length (take_due t pending))%nat.
Proof.
  revert s. induction pending as [|e rest IH]; intros s.
  - cbn. rewrite app_nil_r. split; [reflexivity|lia].
  - cbn [spawn_loop take_due]. unfold due at 1 2.
    destruct (Qle_bool (time e) t).
    + match goal with |- context [spawn_loop cfg t rest ?st] =>
        destruct (IH st) as [Ht Hi] end.
      rewrite Ht, Hi. cbn. rewrite <- app_assoc. split; [reflexivity|lia].
    + cbn. rewrite app_nil_r. split; [reflexivity|lia].
Qed.

Lemma skipn_length_app {A : Type} (l1 l2 : list A) :
  skipn (length l1) (l1 ++ l2) = l2.
Proof.
  rewrite skipn_app, skipn_all, Nat.sub_diag. reflexivity.
Qed.

(** One tick on a sorted level: when the targets spawned so far are those
    passing [P], the tick spawns the targets due now that do not pass [P],
    in the order of the level. *)
Lemma spawn_tiles_sorted (cfg : Config) (t : Q) (s : State)
    (P : ScheduledTarget -> bool) :
  nondecreasing (map time (level cfg)) -> down_closed P ->
  current_tile_index s = length (filter P (level cfg)) ->
  tiles (spawn_tiles cfg t s)
  = tiles s ++ map (new_tile cfg)
                 (filter (fun e => due t e && negb (P e)) (level cfg))
  /\ current_tile_index (spawn_tiles cfg t s)
     = length (filter (fun e => P e || due t e) (level cfg))
  /\ filter (fun e => P e || due t e) (level cfg)
     = filter P (level cfg)
       ++ filter (fun e => due t e && negb (P e)) (level cfg).
Proof.
  intros Hs Hd Hidx.
  destruct (sorted_filter_prefix P (level cfg) Hs Hd)
    as [rest [Hsplit [Hrest Hsr]]].
  assert (Hpend : skipn (current_tile_index s) (level cfg) = rest).
  { rewrite Hidx.
    transitivity (skipn (length (filter P (level cfg)))
                    (filter P (level cfg) ++ rest));
      [f_equal; exact Hsplit|apply skipn_length_app]. }
  assert (Hhead : forall e, In e (filter P (level cfg)) -> P e = true).
  { intros e He. apply filter_In in He. apply He. }
  assert (Hnew : filter (fun e => due t e && negb (P e)) (level cfg)
                 = filter (due t) rest).
  { transitivity (filter (fun e => due t e && negb (P e))
                    (filter P (level cfg) ++ rest));
      [f_equal; exact Hsplit|].
    rewrite filter_app, filter_none.
    - cbn [app]. apply filter_ext_in. intros e He.
      rewrite (Hrest e He). apply andb_true_r.
    - intros e He. rewrite (Hhead e He). apply andb_false_r. }
  assert (Hall : filter (fun e => P e || due t e) (level cfg)
                 = filter P (level cfg) ++ filter (due t) rest).
  { transitivity (filter (fun e => P e || due t e)
                    (filter P (level cfg) ++ rest));
      [f_equal; exact Hsplit|].
    rewrite filter_app. f_equal.
    - apply filter_all. intros e He. rewrite (Hhead e He). reflexivity.
    - apply filter_ext_in. intros e He. rewrite (Hrest e He). reflexivity. }
  unfold spawn_tiles. rewrite Hpend.
  destruct (spawn_loop_spec cfg t rest s) as [Ht Hi].
  rewrite Ht, Hi, (take_due_sorted t rest Hsr), Hnew, Hall, Hidx, length_app.
  repeat split.
Qed.

Lemma ever_due_down_closed (ts : list Q) : down_closed (ever_due ts).
Proof.
  intros e e' He Hle. unfold ever_due in *.
  apply existsb_exists in He. destruct He as [t [Hin Hdue]].
  apply existsb_exists. exists t. split; [exact Hin|].
  eapply due_down_closed; eassumption.
Qed.

Lemma ever_due_snoc (ts : list Q) (t : Q) (e : ScheduledTarget) :
  ever_due (ts ++ [t]) e = ever_due ts e || due t e.
Proof.
  unfold ever_due. rewrite existsb_app. cbn [existsb].
  rewrite orb_false_r. reflexivity.
Qed.

(** A run of ticks on a sorted level, started before any target was spawned:
    the tiles spawned are those of the targets due at one of the ticks, one
    tile each, in the order of the level. *)
Lemma spawn_run_sorted (cfg : Config) (ts : list Q) (s : State) :
  nondecreasing (map time (level cfg)) -> current_tile_index s = 0%nat ->
  tiles (spawn_run cfg ts s)
  = tiles s ++ map (new_tile cfg) (filter (ever_due ts) (level cfg))
  /\ current_tile_index (spawn_run cfg ts s)
     = length (filter (ever_due ts) (level cfg)).
Proof.
  intros Hs Hidx. induction ts as [|t ts IH] using rev_ind.
  - cbn [spawn_run fold_left].
    rewrite (filter_none (ever_due []) (level cfg))
      by (intros e _; reflexivity).
    cbn. rewrite app_nil_r. split; [reflexivity|exact Hidx].
  - destruct IH as [Ht Hi]. unfold spawn_run in *. rewrite fold_left_app.
    cbn [fold_left].
    destruct (spawn_tiles_sorted cfg t _ (ever_due ts) Hs
                (ever_due_down_closed ts) Hi) as [Ht' [Hi' Hsplit]].
    rewrite Ht', Hi', Ht.
    rewrite (filter_ext (ever_due (ts ++ [t]))
               (fun e => ever_due ts e || due t e) (ever_due_snoc ts t)).
    rewrite Hsplit, map_app, <- app_assoc. split; reflexivity.
Qed.

(** C7.  On a level sorted by time, over any sequence of ticks started
    before the first spawn: the tiles spawned are those of the targets whose
    time has come at one of the ticks, one tile for each, in the order of
    the level; a tick spawns the targets due at it that were not due at an
    earlier tick; and every new tile starts at [-tile_height] with the speed
    [screen_height / hit_time]. *)
Theorem spawn_once_in_order (cfg : Config) (ts : list Q) (t : Q) (s : State) :
  nondecreasing (map time (level cfg)) -> current_tile_index s = 0%nat ->
  tiles (spawn_run cfg ts s)
  = tiles s ++ map (new_tile cfg) (filter (ever_due ts) (level cfg))
  /\ current_tile_index (spawn_run cfg ts s)
     = length (filter (ever_due ts) (level cfg))
  /\ tiles (spawn_tiles cfg t (spawn_run cfg ts s))
     = tiles (spawn_run cfg ts s)
       ++ map (new_tile cfg)
            (filter (fun e => due t e && negb (ever_due ts e)) (level cfg))
  /\ (forall e,
        Tile.y (new_tile cfg e) = inject_Z (- tile_height)
        /\ Tile.tile_speed (new_tile cfg e)
           = (inject_Z (screen_height cfg) / hit_time cfg)%Q
        /\ Tile.column (new_tile cfg e) = column e
        /\ Tile.spawn_time (new_tile cfg e) = time e).
Proof.
  intros Hs Hidx.
  destruct (spawn_run_sorted cfg ts s Hs Hidx) as [Ht Hi].
  split; [exact Ht|]. split; [exact Hi|]. split.
  - apply (spawn_tiles_sorted cfg t _ (ever_due ts) Hs
             (ever_due_down_closed ts) Hi).
  - intros e. repeat split.
Qed.

Lemma spawn_once_in_order_witness :
  nondecreasing (map time (level (default_config (spaced_level 3))))
  /\ current_tile_index (initial_state 0) = 0%nat
  /\ map Tile.spawn_time
       (tiles (spawn_run (default_config (spaced_level 3)) [0; 3; 4]%Q
                 (initial_state 0)))
     = [inject_Z 0; inject_Z 3]
  /\ map Tile.spawn_time
       (tiles (spawn_tiles (default_config (spaced_level 3)) 7
                 (spawn_run (default_config (spaced_level 3)) [0; 3; 4]%Q
                    (initial_state 0))))
     = [inject_Z 0; inject_Z 3; inject_Z 6].
Proof.
  assert (Hs : nondecreasing
                 (map time (level (default_config (spaced_level 3)))))
    by (apply nondecreasingb_sound; reflexivity).
  split; [exact Hs|]. split; [reflexivity|].
  destruct (spawn_once_in_order (default_config (spaced_level 3)) [0; 3; 4]%Q 7
              (initial_state 0) Hs eq_refl) as [Ht [_ [Ht' _]]].
  rewrite Ht', Ht. split; reflexivity.
Defined.

Lemma milestone_emitted_once_witness :
  exists r,
    main_game_loop (default_config []) 0 [key_frame K_q; key_frame K_w] = Ok r
    /\ NoDup (milestone_prints (stdout (loop_state r)))
    /\ score (loop_state r) = -2.
Proof.
  assert (H := milestone_emitted_once (default_config []) 0
                 [key_frame K_q; key_frame K_w]).
  destruct H as [H _].
  destruct (main_game_loop (default_config []) 0 [key_frame K_q; key_frame K_w])
    as [r|e] eqn:Hr.
  - exists r. split; [reflexivity|]. split; [apply H|].
    vm_compute in Hr. injection Hr as <-. reflexivity.
  - vm_compute in Hr. discriminate Hr.
Defined.

(** * Further properties of the code *)

(** ** Level generator: strides, lanes and sizes *)

Lemma random_choice_error {A : Type} (draw : nat) (l : list A) (e : PyError) :
  random_choice draw l = Raise e -> e = IndexError.
Proof.
  unfold random_choice. destruct l as [|a l]; [intros [= <-]; reflexivity|].
  destruct (nth_error (a :: l) _); [discriminate|].
  intros [= <-]. reflexivity.
Qed.

Lemma py_index_error {A : Type} (l : list A) (i : Z) (e : PyError) :
  py_index l i = Raise e -> e = IndexError.
Proof.
  unfold py_index. destruct (_ || _); [intros [= <-]; reflexivity|].
  destruct (nth_error l _); [discriminate|]. intros [= <-]. reflexivity.
Qed.

(** Whatever the loop of [generate_level] raises is an [IndexError]. *)
Lemma generate_level_loop_error (rnd : nat -> nat) (beats : list Q) (nc : Z)
    (indices : list Z) (k : nat) (level : list ScheduledTarget) (e : PyError) :
  generate_level_loop rnd beats nc indices k level = Raise e -> e = IndexError.
Proof.
  revert k level. induction indices as [|i rest IH]; intros k level;
    [discriminate|].
  cbn [generate_level_loop].
  destruct (py_index beats i) as [beat|e1] eqn:E1; cbn [bind];
    [|intros [= <-]; eapply py_index_error; exact E1].
  destruct (possible_columns nc i level) as [cand|e2] eqn:E2; cbn [bind].
  - destruct (random_choice (rnd k) cand) as [col|e3] eqn:E3; cbn [bind];
      [apply IH|intros [= <-]; eapply random_choice_error; exact E3].
  - intros [= <-]. unfold possible_columns in E2.
    destruct (0 <? i); [|discriminate E2].
    destruct (py_index level (-1)) as [t|e4] eqn:E4; cbn [bind] in E2;
      [discriminate E2|].
    injection E2 as <-. eapply py_index_error. exact E4.
Qed.

(** X1.  A stride of zero makes [generate_level] raise [ValueError] whatever
    the beats are; a negative stride raises nothing and yields the empty
    level, however many beats there are. *)
Theorem generate_level_nonpositive_stride (rnd : nat -> nat) (beats : list Q)
    (nc bs : Z) :
  bs <= 0 ->
  generate_level rnd beats nc bs
  = if bs =? 0 then Raise ValueError else Ok [].
Proof.
  intros Hbs. unfold generate_level, py_range.
  destruct (Z.eqb_spec bs 0) as [_|Hne]; [reflexivity|].
  cbn [bind]. unfold range_len.
  destruct (Z.ltb_spec 0 bs) as [H|_]; [lia|].
  destruct (Z.ltb_spec bs 0) as [_|H]; [|lia].
  destruct (Z.ltb_spec (Z.of_nat (length beats)) 0) as [H|_]; [lia|].
  reflexivity.
Qed.

Lemma generate_level_nonpositive_stride_witness :
  -2 <= 0
  /\ generate_level (fun k => k) [0.5; 1; 1.5]%Q 4 (-2) = Ok []
  /\ generate_level (fun k => k) [0.5; 1; 1.5]%Q 4 0 = Raise ValueError.
Proof.
  split; [lia|]. split.
  - apply (generate_level_nonpositive_stride (fun k => k) [0.5; 1; 1.5]%Q 4 (-2)).
    lia.
  - apply (generate_level_nonpositive_stride (fun k => k) [0.5; 1; 1.5]%Q 4 0).
    lia.
Defined.

Lemma range_len_positive (n bs : Z) :
  1 <= bs -> 0 < n -> (0 < Z.to_nat (range_len 0 n bs))%nat.
Proof.
  intros Hbs Hn. apply (range_len_spec n bs 0 Hbs); lia.
Qed.

Lemma generate_level_raises_index (rnd : nat -> nat) (beats : list Q)
    (nc bs : Z) (e : PyError) :
  1 <= bs -> generate_level rnd beats nc bs = Raise e -> e = IndexError.
Proof.
  intros Hbs. unfold generate_level, py_range.
  destruct (Z.eqb_spec bs 0) as [H|_]; [lia|]. cbn [bind].
  apply generate_level_loop_error.
Qed.

(** X2.  Without a lane to choose from ([num_columns <= 0]) and with at
    least one beat, [generate_level] raises [IndexError]: the first
    [random.choice] is given an empty list. *)
Theorem generate_level_no_lanes (rnd : nat -> nat) (beats : list Q)
    (nc bs : Z) :
  1 <= bs -> beats <> [] -> nc <= 0 ->
  generate_level rnd beats nc bs = Raise IndexError.
Proof.
  intros Hbs Hne Hnc.
  assert (Hspec := generate_level_spec rnd beats nc bs Hbs).
  destruct (generate_level rnd beats nc bs) as [level|e] eqn:Hg.
  - exfalso. destruct Hspec as [Ht Hd].
    assert (Hpos : (0 < Z.to_nat (range_len 0 (Z.of_nat (length beats)) bs))%nat).
    { apply range_len_positive; [exact Hbs|].
      destruct beats; [congruence|cbn [length]; lia]. }
    destruct (Z.to_nat (range_len 0 (Z.of_nat (length beats)) bs)) as [|m];
      [lia|].
    destruct level as [|t level]; [discriminate Ht|].
    cbn [map drawn_from] in Hd. destruct Hd as [Hin _].
    apply in_lane_choices in Hin. lia.
  - f_equal. eapply generate_level_raises_index; eassumption.
Qed.

Lemma generate_level_no_lanes_witness :
  1 <= 1 /\ generate_level (fun k => k) [0.5; 1]%Q 0 1 = Raise IndexError.
Proof.
  split; [lia|].
  apply (generate_level_no_lanes (fun k => k) [0.5; 1]%Q 0 1);
    [lia|discriminate|lia].
Defined.

(** X3.  With a single lane [generate_level] can emit one target, in lane 0,
    and no more: when the stride reaches past the end of the beats the level
    is that one target, otherwise the second [random.choice] is given an
    empty list and [IndexError] is raised. *)
Theorem generate_level_single_lane (rnd : nat -> nat) (beat : Q)
    (beats : list Q) (bs : Z) :
  1 <= bs ->
  generate_level rnd (beat :: beats) 1 bs
  = if Z.of_nat (length (beat :: beats)) <=? bs
    then Ok [mkTarget beat 0] else Raise IndexError.
Proof.
  intros Hbs.
  destruct (Z.leb_spec (Z.of_nat (length (beat :: beats))) bs) as [Hle|Hgt].
  - unfold generate_level, py_range.
    destruct (Z.eqb_spec bs 0) as [H|_]; [lia|]. cbn [bind].
    assert (Hlen : range_len 0 (Z.of_nat (length (beat :: beats))) bs = 1).
    { unfold range_len. destruct (Z.ltb_spec 0 bs) as [_|H]; [|lia].
      destruct (Z.ltb_spec 0 (Z.of_nat (length (beat :: beats)))) as [Hpos|H];
        [|cbn [length] in H; lia].
      rewrite Z.div_small by lia. reflexivity. }
    rewrite Hlen. cbn. destruct (rnd 0%nat mod 1)%nat eqn:Hm.
    + reflexivity.
    + assert (H := Nat.mod_upper_bound (rnd 0%nat) 1). lia.
  - assert (Hspec := generate_level_spec rnd (beat :: beats) 1 bs Hbs).
    destruct (generate_level rnd (beat :: beats) 1 bs) as [level|e] eqn:Hg.
    + exfalso. destruct Hspec as [Ht Hd].
      assert (H2 : (1 < Z.to_nat (range_len 0 (Z.of_nat (length (beat :: beats))) bs))%nat).
      { apply (range_len_spec _ bs 1 Hbs); lia. }
      destruct (Z.to_nat (range_len 0 (Z.of_nat (length (beat :: beats))) bs))
        as [|[|m]]; [lia|lia|].
      destruct level as [|t1 [|t2 level]]; [discriminate Ht|discriminate Ht|].
      cbn [map drawn_from] in Hd. destruct Hd as [H1 [H2' _]].
      apply in_lane_choices in H1. apply in_lane_choices in H2'.
      destruct H2' as [Hb Hne]. apply (Hne (column t1) eq_refl). lia.
    + f_equal. eapply generate_level_raises_index; eassumption.
Qed.

Lemma generate_level_single_lane_witness :
  1 <= 2
  /\ generate_level (fun k => k) [0.5; 1]%Q 1 2 = Ok [mkTarget 0.5 0]
  /\ generate_level (fun k => k) [0.5; 1; 1.5]%Q 1 2 = Raise IndexError.
Proof.
  split; [lia|]. split.
  - apply (generate_level_single_lane (fun k => k) 0.5%Q [1%Q] 2). lia.
  - apply (generate_level_single_lane (fun k => k) 0.5%Q [1; 1.5]%Q 2). lia.
Defined.

(** X4.  The level has one target for every [beat_skip]-th beat: its length
    is the number of beats divided by the stride, rounded up, and every lane
    lies in [0, num_columns). *)
Theorem generate_level_size (rnd : nat -> nat) (beats : list Q) (nc bs : Z)
    (level : list ScheduledTarget) :
  1 <= bs -> generate_level rnd beats nc bs = Ok level ->
  Z.of_nat (length level) = (Z.of_nat (length beats) + bs - 1) / bs
  /\ (forall t, In t level -> 0 <= column t < nc).
Proof.
  intros Hbs Hg.
  assert (Hspec := generate_level_spec rnd beats nc bs Hbs).
  rewrite Hg in Hspec. destruct Hspec as [Ht Hd]. split.
  - assert (Hlen : length level
                   = Z.to_nat (range_len 0 (Z.of_nat (length beats)) bs)).
    { rewrite <- (length_map time level), Ht, length_map, length_seq.
      reflexivity. }
    rewrite Hlen. unfold range_len.
    destruct (Z.ltb_spec 0 bs) as [_|H]; [|lia].
    destruct (Z.ltb_spec 0 (Z.of_nat (length beats))) as [Hpos|Hz].
    + assert (Hq : 0 <= (Z.of_nat (length beats) - 0 - 1) / bs)
        by (apply Z.div_pos; lia).
      rewrite Z2Nat.id by lia.
      replace (Z.of_nat (length beats) + bs - 1)
        with (Z.of_nat (length beats) - 0 - 1 + 1 * bs) by lia.
      rewrite Z.div_add by lia. reflexivity.
    + replace (Z.of_nat (length beats)) with 0 by lia.
      rewrite Z.div_small by lia. reflexivity.
  - intros t Hin. apply (drawn_from_bounds nc (map column level) None Hd).
    apply in_map. exact Hin.
Qed.

Lemma generate_level_size_witness :
  1 <= 2
  /\ exists level,
      generate_level (fun k => k) [0.5; 1; 1.5; 2; 2.5]%Q 4 2 = Ok level
      /\ Z.of_nat (length level) = 3.
Proof.
  split; [lia|].
  destruct (generate_level (fun k => k) [0.5; 1; 1.5; 2; 2.5]%Q 4 2)
    as [level|e] eqn:Hg; [|discriminate Hg].
  exists level. split; [reflexivity|].
  destruct (generate_level_size (fun k => k) [0.5; 1; 1.5; 2; 2.5]%Q 4 2 level
              ltac:(lia) Hg) as [Hlen _].
  rewrite Hlen. reflexivity.
Defined.

Lemma index_of_spec (c : Z) (l : list Z) :
  In c l -> (index_of c l < length l)%nat /\ nth_error l (index_of c l) = Some c.
Proof.
  induction l as [|x l IH]; intros Hin; [destruct Hin|].
  cbn [index_of]. destruct (Z.eqb_spec x c) as [->|Hne].
  - split; [cbn; lia|reflexivity].
  - destruct Hin as [Heq|Hin]; [congruence|].
    destruct (IH Hin) as [Hlt Hnth]. split; [cbn; lia|exact Hnth].
Qed.

Lemma random_choice_index_of (c : Z) (l : list Z) :
  In c l -> random_choice (index_of c l) l = Ok c.
Proof.
  intros Hin. destruct (index_of_spec c l Hin) as [Hlt Hnth].
  destruct l as [|x l]; [destruct Hin|].
  unfold random_choice. rewrite Nat.mod_small by exact Hlt.
  rewrite Hnth. reflexivity.
Qed.

Lemma last_column_map (level : list ScheduledTarget) :
  last_column level
  = match length level with
    | O => None
    | S j => Some (nth j (map column level) 0)
    end.
Proof.
  destruct level as [|t level] using rev_ind; [reflexivity|].
  rewrite last_column_snoc, length_app, Nat.add_comm. cbn [length Nat.add].
  rewrite map_app, app_nth2 by (rewrite length_map; lia).
  rewrite length_map, Nat.sub_diag. reflexivity.
Qed.

(** With the draws [draws_for nc lanes] the loop emits the lanes [todo] when
    it has emitted the lanes [done] so far. *)
Lemma generate_level_loop_draws (beats : list Q) (nc bs : Z) (lanes : list Z) :
  1 <= bs ->
  forall (todo done : list Z) (level : list ScheduledTarget),
    lanes = done ++ todo ->
    map column level = done ->
    drawn_from nc (last_column level) todo ->
    (forall j, (length done <= j < length done + length todo)%nat ->
               Z.of_nat j * bs < Z.of_nat (length beats)) ->
    exists ext,
      generate_level_loop (draws_for nc lanes) beats nc
        (map (fun j => 0 + Z.of_nat j * bs) (seq (length done) (length todo)))
        (length done) level
      = Ok (level ++ ext)
      /\ map column ext = todo.
Proof.
  intros Hbs. induction todo as [|c todo IH];
    intros done level Hlanes Hcols Hd Hvalid.
  - exists []. cbn. rewrite app_nil_r. split; reflexivity.
  - cbn [length seq map generate_level_loop].
    destruct Hd as [Hin Hd].
    assert (Hlen : length level = length done)
      by (rewrite <- Hcols, length_map; reflexivity).
    assert (Hidx : 0 + Z.of_nat (length done) * bs
                   = Z.of_nat (length done * Z.to_nat bs)) by lia.
    assert (Hib : (length done * Z.to_nat bs < length beats)%nat).
    { assert (H := Hvalid (length done)). cbn [length] in H.
      specialize (H ltac:(lia)). lia. }
    rewrite Hidx, (py_index_nat beats _ 0%Q Hib). cbn [bind].
    rewrite possible_columns_choices.
    2:{ split.
        - intros Hpos Hnil. subst level. cbn in Hlen.
          rewrite <- Hlen in Hpos. cbn in Hpos. lia.
        - intros Hne. destruct level as [|t l]; [congruence|].
          cbn in Hlen. rewrite <- Hlen. nia. }
    cbn [bind].
    assert (Hdraw : draws_for nc lanes (length done)
                    = index_of c (lane_choices nc (last_column level))).
    { unfold draws_for. rewrite Hlanes.
      rewrite app_nth2, Nat.sub_diag by lia. cbn [nth]. f_equal. f_equal.
      rewrite last_column_map, Hlen.
      destruct (length done) as [|j] eqn:Hj; [reflexivity|].
      rewrite Hcols, app_nth1 by lia. reflexivity. }
    rewrite Hdraw, (random_choice_index_of c _ Hin). cbn [bind].
    destruct (IH (done ++ [c])
                (level ++ [mkTarget (nth (length done * Z.to_nat bs) beats 0%Q) c]))
      as [ext [Hext Hcol]].
    + rewrite <- app_assoc. exact Hlanes.
    + rewrite map_app, Hcols. reflexivity.
    + rewrite last_column_snoc. exact Hd.
    + intros j Hj. apply Hvalid. rewrite length_app in Hj. cbn [length] in *.
      lia.
    + rewrite length_app in Hext. cbn [length] in Hext.
      rewrite Nat.add_comm in Hext. cbn [Nat.add] in Hext.
      exists (mkTarget (nth (length done * Z.to_nat bs) beats 0%Q) c :: ext).
      rewrite Hext, <- app_assoc. split; [reflexivity|].
      cbn [map column]. rewrite Hcol. reflexivity.
Qed.

(** X5.  The lane rule is all that restricts the generator: every sequence
    of lanes of the right length in which each lane is admissible after its
    predecessor is the lane sequence of the level for some draws of
    [random.choice]. *)
Theorem generate_level_reaches (beats : list Q) (nc bs : Z) (lanes : list Z) :
  1 <= bs ->
  drawn_from nc None lanes ->
  Z.of_nat (length lanes) = (Z.of_nat (length beats) + bs - 1) / bs ->
  exists rnd level,
    generate_level rnd beats nc bs = Ok level /\ map column level = lanes.
Proof.
  intros Hbs Hd Hlen.
  assert (Hrl : Z.to_nat (range_len 0 (Z.of_nat (length beats)) bs)
                = length lanes).
  { unfold range_len. destruct (Z.ltb_spec 0 bs) as [_|H]; [|lia].
    destruct (Z.ltb_spec 0 (Z.of_nat (length beats))) as [Hpos|Hz].
    - replace (Z.of_nat (length beats) + bs - 1)
        with (Z.of_nat (length beats) - 0 - 1 + 1 * bs) in Hlen by lia.
      rewrite Z.div_add in Hlen by lia. lia.
    - replace (Z.of_nat (length beats)) with 0 in Hlen by lia.
      rewrite Z.div_small in Hlen by lia. lia. }
  destruct (generate_level_loop_draws beats nc bs lanes Hbs lanes [] []
              eq_refl eq_refl Hd) as [ext [Hext Hcol]].
  { intros j Hj. cbn [length] in Hj.
    apply range_len_spec; [exact Hbs|lia|]. rewrite Hrl. lia. }
  exists (draws_for nc lanes), ext. split; [|exact Hcol].
  unfold generate_level, py_range.
  destruct (Z.eqb_spec bs 0) as [H|_]; [lia|]. cbn [bind].
  rewrite Hrl. exact Hext.
Qed.

Lemma generate_level_reaches_witness :
  1 <= 1 /\ drawn_from 4 None [3; 0; 3]
  /\ exists rnd level,
      generate_level rnd [0.5; 1; 1.5]%Q 4 1 = Ok level
      /\ map column level = [3; 0; 3].
Proof.
  assert (Hd : drawn_from 4 None [3; 0; 3]).
  { cbn [drawn_from].
    repeat (split;
            [apply in_lane_choices; split;
             [lia|intros p Hp; try discriminate Hp; injection Hp as <-; lia]|]).
    exact I. }
  split; [lia|]. split; [exact Hd|].
  apply (generate_level_reaches [0.5; 1; 1.5]%Q 4 1 [3; 0; 3]);
    [lia|exact Hd|reflexivity].
Defined.

(** ** Tiles: geometry *)

(** X8.  With a positive number of columns and a window that is not of
    negative width, the tile of a target whose lane is one of the columns
    lies within the window: its left edge is at or right of 0 and its right
    edge at or left of [screen_width]. *)
Theorem tile_inside_window (cfg : Config) (target : ScheduledTarget) :
  0 < num_columns cfg -> 0 <= screen_width cfg ->
  0 <= column target < num_columns cfg ->
  0 <= Tile.x (new_tile cfg target)
  /\ Tile.x (new_tile cfg target) + Tile.tile_width (new_tile cfg target)
     <= screen_width cfg.
Proof.
  intros Hnc Hsw Hc. cbn [new_tile Tile.init Tile.x Tile.tile_width].
  unfold tile_width.
  assert (Hw : 0 <= screen_width cfg / num_columns cfg)
    by (apply Z.div_pos; lia).
  assert (Hm : num_columns cfg * (screen_width cfg / num_columns cfg)
               <= screen_width cfg) by (apply Z.mul_div_le; lia).
  split; nia.
Qed.

Lemma tile_inside_window_witness :
  0 < num_columns (default_config []) /\ 0 <= screen_width (default_config [])
  /\ 0 <= Tile.x (new_tile (default_config []) (mkTarget 1 3))
  /\ Tile.x (new_tile (default_config []) (mkTarget 1 3))
     + Tile.tile_width (new_tile (default_config []) (mkTarget 1 3))
     <= screen_width (default_config []).
Proof.
  split; [reflexivity|]. split; [discriminate|].
  apply (tile_inside_window (default_config []) (mkTarget 1 3));
    [reflexivity|discriminate|split; [discriminate|reflexivity]].
Defined.

(** ** Key presses: accounting and the case of no columns *)

Lemma handle_tile_tap_accounting (key nc sw sh th : Z) (s s' : State) :
  handle_tile_tap key nc sw sh th s = Ok s' ->
  (length (tiles s') <= length (tiles s))%nat
  /\ score s'
     = score s
       + 2 * (Z.of_nat (length (tiles s)) - Z.of_nat (length (tiles s')))
       - mapped_presses [KEYDOWN key]
  /\ Z.of_nat (length (animations s'))
     = Z.of_nat (length (animations s)) + mapped_presses [KEYDOWN key].
Proof.
  unfold handle_tile_tap. cbn [mapped_presses].
  destruct (dict_get key_to_column key) as [lane|].
  - cbn [print tiles].
    assert (Hscan := tap_scan_spec
                       (tap_hits lane (sh - th - hit_zone_buffer)
                          (sh - th + hit_zone_buffer)) (tiles s) []).
    destruct (tap_scan _ [] (tiles s)) as [[tile remaining]|].
    + destruct Hscan as [pre [post [Hsplit [_ [_ ->]]]]].
      intros [= <-].
      cbn [tiles score animations add_animation set_animations set_score
           set_tiles print app].
      rewrite Hsplit, !length_app. cbn [length]. split; [lia|]. split; lia.
    + destruct (nc =? 0); [discriminate|]. intros [= <-].
      cbn [tiles score animations add_animation set_animations set_score
           set_tiles print app].
      rewrite length_app. cbn [length]. split; [lia|]. split; lia.
  - intros [= <-]. split; [lia|]. split; lia.
Qed.

Lemma handle_events_counts (cfg : Config) (evs : list Event)
    (s s' : State) :
  handle_events cfg evs s = Ok s' ->
  (length (tiles s') <= length (tiles s))%nat
  /\ score s'
     = score s
       + 2 * (Z.of_nat (length (tiles s)) - Z.of_nat (length (tiles s')))
       - mapped_presses evs
  /\ Z.of_nat (length (animations s'))
     = Z.of_nat (length (animations s)) + mapped_presses evs
  /\ misses s' = misses s.
Proof.
  revert s. induction evs as [|ev evs IH]; intros s.
  - intros [= <-]. cbn [mapped_presses]. repeat split; lia.
  - cbn [handle_events].
    destruct (handle_event cfg ev s) as [s1|e] eqn:Hev; [|discriminate].
    cbn [bind]. intros Hrest.
    destruct (IH s1 Hrest) as [Hl [Hs [Ha Hm]]].
    assert (Hone : (length (tiles s1) <= length (tiles s))%nat
                   /\ score s1
                      = score s
                        + 2 * (Z.of_nat (length (tiles s))
                               - Z.of_nat (length (tiles s1)))
                        - mapped_presses [ev]
                   /\ Z.of_nat (length (animations s1))
                      = Z.of_nat (length (animations s)) + mapped_presses [ev]
                   /\ misses s1 = misses s).
    { destruct ev as [|key|]; cbn [handle_event] in Hev.
      - injection Hev as <-.
        cbn [mapped_presses set_running tiles score animations misses].
        repeat split; lia.
      - destruct (handle_tile_tap_accounting _ _ _ _ _ _ _ Hev) as [A [B C]].
        destruct (handle_tile_tap_keeps _ _ _ _ _ _ _ Hev) as [[D _] _].
        repeat split; assumption.
      - injection Hev as <-. cbn [mapped_presses]. repeat split; lia. }
    destruct Hone as [Hl1 [Hs1 [Ha1 Hm1]]].
    assert (Hmp : mapped_presses (ev :: evs)
                  = mapped_presses [ev] + mapped_presses evs).
    { destruct ev as [|key|]; cbn [mapped_presses]; try lia.
      destruct (dict_get key_to_column key); lia. }
    rewrite Hmp. split; [lia|]. split; [lia|]. split; [lia|congruence].
Qed.

(** X9.  The event phase of a pass keeps exact books: every press of a lane
    key either removes one tile and adds a point or removes none and takes a
    point, so the score changes by twice the number of tiles removed minus
    the number of lane-key presses; each such press adds one feedback
    record; no tile is added and the miss count is left alone. *)
Theorem handle_events_accounting (cfg : Config) (evs : list Event)
    (s s' : State) :
  handle_events cfg evs s = Ok s' ->
  (length (tiles s') <= length (tiles s))%nat
  /\ score s'
     = score s
       + 2 * (Z.of_nat (length (tiles s)) - Z.of_nat (length (tiles s')))
       - mapped_presses evs
  /\ Z.of_nat (length (animations s'))
     = Z.of_nat (length (animations s)) + mapped_presses evs
  /\ misses s' = misses s.
Proof.
  intros Hev. destruct (handle_events_counts cfg evs s s' Hev) as [A [B [C D]]].
  split; [exact A|]. split; [exact B|]. split; [exact C|exact D].
Qed.

Lemma handle_events_accounting_witness :
  exists s',
    handle_events (default_config [])
      [KEYDOWN K_q; KEYDOWN K_q; KEYDOWN 32; QUIT; KEYDOWN K_r] scenario_state
    = Ok s'
    /\ score s' = score scenario_state + 2 * (2 - 1) - 3
    /\ Z.of_nat (length (animations s')) = 3.
Proof.
  destruct (handle_events (default_config [])
              [KEYDOWN K_q; KEYDOWN K_q; KEYDOWN 32; QUIT; KEYDOWN K_r]
              scenario_state) as [s'|e] eqn:Hev; [|vm_compute in Hev; discriminate Hev].
  exists s'. split; [reflexivity|].
  destruct (handle_events_accounting _ _ _ _ Hev) as [_ [Hs [Ha _]]].
  assert (Hlen : length (tiles s') = 1%nat).
  { vm_compute in Hev. injection Hev as <-. reflexivity. }
  rewrite Hs, Ha, Hlen. split; reflexivity.
Defined.

(** X10.  Called with zero columns, [handle_tile_tap] still resolves a press
    that finds a tile in the hit window, but a press of a lane key that
    finds none raises [ZeroDivisionError] (the position of the miss marker
    divides by the number of columns). *)
Theorem handle_tile_tap_no_columns (key lane sw sh th : Z) (s : State) :
  dict_get key_to_column key = Some lane ->
  match handle_tile_tap key 0 sw sh th s with
  | Ok s' =>
      (exists t, In t (tiles s) /\ in_hit_window sh th lane t)
      /\ score s' = score s + 1
  | Raise e =>
      e = ZeroDivisionError
      /\ (forall t, In t (tiles s) -> ~ in_hit_window sh th lane t)
  end.
Proof.
  intros Hkey. unfold handle_tile_tap. rewrite Hkey. cbn [print tiles].
  assert (Hscan := tap_scan_spec
                     (tap_hits lane (sh - th - hit_zone_buffer)
                        (sh - th + hit_zone_buffer)) (tiles s) []).
  destruct (tap_scan _ [] (tiles s)) as [[tile remaining]|].
  - destruct Hscan as [pre [post [Hsplit [_ [Hhit _]]]]]. cbn. split.
    + exists tile. split.
      * rewrite Hsplit. apply in_or_app. right. left. reflexivity.
      * apply tap_hits_window. exact Hhit.
    + reflexivity.
  - cbn. split; [reflexivity|]. intros t Hin Hw.
    apply tap_hits_window in Hw. rewrite (Hscan t Hin) in Hw. discriminate Hw.
Qed.

Lemma handle_tile_tap_no_columns_witness :
  dict_get key_to_column K_w = Some 1
  /\ handle_tile_tap K_w 0 800 600 100 (initial_state 0)
     = Raise ZeroDivisionError.
Proof.
  split; [reflexivity|].
  assert (H := handle_tile_tap_no_columns K_w 1 800 600 100 (initial_state 0)
                 eq_refl).
  destruct (handle_tile_tap K_w 0 800 600 100 (initial_state 0)) as [s'|e].
  - destruct H as [[t [[] _]] _].
  - destruct H as [-> _]. reflexivity.
Defined.

(** ** The loop: quitting, composing runs, the sweep and the spawn order *)

Lemma handle_events_running (cfg : Config) (evs : list Event) (s s' : State) :
  handle_events cfg evs s = Ok s' ->
  (running s = false \/ In QUIT evs -> running s' = false)
  /\ (~ In QUIT evs -> running s' = running s).
Proof.
  revert s. induction evs as [|ev evs IH]; intros s.
  - intros [= <-]. split; [intros [H|[]]; exact H|reflexivity].
  - cbn [handle_events].
    destruct (handle_event cfg ev s) as [s1|e] eqn:Hev; [|discriminate].
    cbn [bind]. intros Hrest. destruct (IH s1 Hrest) as [Hoff Hsame].
    assert (Hone : running s1 = match ev with QUIT => false | _ => running s end).
    { destruct ev as [|key|]; cbn [handle_event] in Hev.
      - injection Hev as <-. reflexivity.
      - apply (handle_tile_tap_keeps _ _ _ _ _ _ _ Hev).
      - injection Hev as <-. reflexivity. }
    split.
    + intros [Hs|Hin].
      * apply Hoff. left. rewrite Hone. destruct ev; [reflexivity|exact Hs|exact Hs].
      * destruct Hin as [Heq|Hin]; [subst ev; apply Hoff; left; exact Hone|].
        apply Hoff. right. exact Hin.
    + intros Hno. rewrite Hsame; [|intros Hin; apply Hno; right; exact Hin].
      rewrite Hone. destruct ev; [exfalso; apply Hno; left; reflexivity| |];
        reflexivity.
Qed.

Lemma advance_running (cfg : Config) (inp : FrameInput) (s s3 : State) :
  advance cfg inp s = Ok s3 ->
  (running s = false \/ In QUIT (events inp) -> running s3 = false)
  /\ (~ In QUIT (events inp) -> running s3 = running s).
Proof.
  unfold advance.
  destruct (handle_events cfg (events inp) s) as [s1|e] eqn:Hev;
    [|discriminate].
  cbn [bind]. intros [= <-]. unfold update_tiles, spawn_tiles.
  cbn [running set_tiles].
  match goal with |- context [spawn_loop cfg ?t ?p s1] =>
    destruct (spawn_loop_keeps cfg t p s1) as [_ [_ [_ [Hr _]]]] end.
  rewrite Hr. apply (handle_events_running cfg _ _ _ Hev).
Qed.

Lemma finish_running (cfg : Config) (inp : FrameInput) (s : State) :
  running (state_of (finish cfg inp s)) = running s.
Proof.
  unfold finish, detect_missed_tiles.
  destruct (missed_loop_keeps (screen_height cfg) (tiles s) [] s)
    as [_ [_ [Hr _]]].
  destruct (missed_loop (screen_height cfg) [] (tiles s) s) as [s4|why s4];
    cbn [state_of] in Hr |- *; [|exact Hr].
  unfold check_milestones.
  destruct (milestone_loop_keeps cfg (wall inp) MILESTONES 1 s4)
    as [_ [_ [_ [_ [_ Hr5]]]]].
  destruct (milestone_loop cfg (wall inp) MILESTONES 1 s4) as [k s5].
  cbn [snd] in Hr5.
  destruct (negb (music_busy inp) && _); cbn; congruence.
Qed.

Lemma game_loop_not_running (cfg : Config) (frames : list FrameInput)
    (s : State) :
  running s = false -> game_loop cfg frames s = Ok (Exited s).
Proof.
  intros Hr. destruct frames as [|inp rest]; cbn [game_loop]; rewrite Hr;
    reflexivity.
Qed.

(** X11.  A QUIT event stops the loop at the end of the pass it is seen in:
    the pass still runs to its end (and may itself end in the game-over
    screen), but no later pass is started, whatever frames would follow, and
    the loop is left with [running] false. *)
Theorem quit_stops_after_the_pass (cfg : Config) (inp : FrameInput)
    (rest : list FrameInput) (s : State) :
  num_columns cfg <> 0 -> In QUIT (events inp) -> running s = true ->
  game_loop cfg (inp :: rest) s = game_loop cfg [inp] s
  /\ match game_loop cfg [inp] s with
     | Ok (Terminal _ s') => running s' = false
     | Ok (Exited s') => running s' = false
     | Ok (Pending _) => False
     | Raise _ => False
     end.
Proof.
  intros Hnc Hq Hr. cbn [game_loop]. rewrite Hr.
  destruct (frame_total cfg inp s Hnc) as [s3 [Hs3 [_ Hf]]].
  rewrite Hf. cbn [bind].
  assert (Hr3 : running s3 = false).
  { apply (advance_running cfg inp s s3 Hs3). right. exact Hq. }
  assert (Hfr := finish_running cfg inp s3).
  destruct (finish cfg inp s3) as [s'|why s']; cbn [state_of] in Hfr.
  - rewrite game_loop_not_running by congruence.
    assert (Hr' : running s' = false) by congruence.
    rewrite Hr'. split; [reflexivity|exact Hr'].
  - split; [reflexivity|congruence].
Qed.

Lemma quit_stops_after_the_pass_witness :
  num_columns (default_config []) <> 0
  /\ In QUIT (events (mkFrame (fun _ => 0%Q) [KEYDOWN K_q; QUIT] 16 true))
  /\ running (initial_state 0) = true
  /\ game_loop (default_config [])
       [mkFrame (fun _ => 0%Q) [KEYDOWN K_q; QUIT] 16 true; long_frame]
       (initial_state 0)
     = game_loop (default_config [])
         [mkFrame (fun _ => 0%Q) [KEYDOWN K_q; QUIT] 16 true] (initial_state 0).
Proof.
  split; [discriminate|]. split; [right; left; reflexivity|].
  split; [reflexivity|].
  assert (Hnc : num_columns (default_config []) <> 0) by discriminate.
  assert (Hq : In QUIT
                 (events (mkFrame (fun _ => 0%Q) [KEYDOWN K_q; QUIT] 16 true)))
    by (right; left; reflexivity).
  destruct (quit_stops_after_the_pass (default_config [])
              (mkFrame (fun _ => 0%Q) [KEYDOWN K_q; QUIT] 16 true) [long_frame]
              (initial_state 0) Hnc Hq eq_refl) as [H _].
  exact H.
Defined.

(** X12.  Running the loop on two batches of frames one after the other is
    running it on the first batch and, when that leaves the loop still going,
    on the second batch from the state reached; a run that has ended is not
    changed by further frames. *)
Theorem game_loop_app (cfg : Config) (frames more : list FrameInput)
    (s : State) :
  game_loop cfg (frames ++ more) s
  = (r <- game_loop cfg frames s ;;
     match r with
     | Pending s' => game_loop cfg more s'
     | _ => Ok r
     end).
Proof.
  revert s. induction frames as [|inp frames IH]; intros s.
  - cbn [app game_loop bind]. destruct (running s) eqn:Hr; [reflexivity|].
    apply game_loop_not_running. exact Hr.
  - cbn [app game_loop]. destruct (running s); [|reflexivity].
    destruct (frame cfg inp s) as [[s'|why s']|e]; cbn [bind];
      [apply IH|reflexivity|reflexivity].
Qed.

(** X13.  After a pass that lets the loop go on, no active tile is below the
    playfield: every tile left has its position at or above
    [screen_height]. *)
Theorem no_tile_below_playfield (cfg : Config) (inp : FrameInput)
    (s s' : State) :
  frame cfg inp s = Ok (Continue s') ->
  forall t, In t (tiles s') -> (Tile.y t <= inject_Z (screen_height cfg))%Q.
Proof.
  unfold frame.
  destruct (advance cfg inp s) as [s3|e]; [|discriminate]. cbn [bind].
  unfold finish, detect_missed_tiles.
  assert (Hspec := missed_loop_spec (screen_height cfg) (tiles s3) [] s3).
  destruct (missed_loop (screen_height cfg) [] (tiles s3) s3) as [s4|why s4];
    [|discriminate].
  destruct Hspec as [Ht _]. cbn [app] in Ht.
  unfold check_milestones.
  destruct (milestone_loop_keeps cfg (wall inp) MILESTONES 1 s4) as [K1 _].
  destruct (milestone_loop cfg (wall inp) MILESTONES 1 s4) as [k s5].
  cbn [snd] in K1.
  destruct (negb (music_busy inp) && _); [discriminate|].
  intros [= <-] t Hin. cbn [tiles set_animations] in Hin.
  rewrite K1, Ht in Hin. apply filter_In in Hin. destruct Hin as [_ Hov].
  unfold overdue, Qlt_bool in Hov. rewrite negb_involutive in Hov.
  apply Qle_bool_iff. exact Hov.
Qed.

Lemma no_tile_below_playfield_witness :
  exists s',
    frame (default_config []) (key_frame K_w) scenario_state = Ok (Continue s')
    /\ length (tiles s') = 1%nat
    /\ (forall t, In t (tiles s') -> (Tile.y t <= inject_Z 600)%Q).
Proof.
  destruct (frame (default_config []) (key_frame K_w) scenario_state)
    as [[s'|why s']|e] eqn:Hf;
    [|vm_compute in Hf; discriminate Hf|vm_compute in Hf; discriminate Hf].
  exists s'. split; [reflexivity|]. split.
  - vm_compute in Hf. injection Hf as <-. reflexivity.
  - apply (no_tile_below_playfield (default_config []) (key_frame K_w)
             scenario_state s' Hf).
Defined.

Lemma take_due_split (t : Q) (pending : list ScheduledTarget) :
  exists rest,
    pending = take_due t pending ++ rest
    /\ (forall e, In e (take_due t pending) -> due t e = true)
    /\ match rest with
       | e :: _ => due t e = false
       | [] => True
       end.
Proof.
  induction pending as [|e pending IH].
  - exists []. split; [reflexivity|]. split; [intros e []|exact I].
  - cbn [take_due]. destruct (due t e) eqn:Hd.
    + destruct IH as [rest [Hs [Hall Hrest]]]. exists rest.
      split; [cbn [app]; f_equal; exact Hs|]. split; [|exact Hrest].
      intros e' [<-|Hin]; [exact Hd|apply Hall; exact Hin].
    + exists (e :: pending). split; [reflexivity|].
      split; [intros e' []|exact Hd].
Qed.

(** X14.  Whatever the order of the level, spawning takes the targets in the
    order of the level and never skips one: a tick spawns the run of due
    targets at the head of the pending part and stops at the first target
    that is not due, so a target behind it waits even when its own time has
    come; the index moves by the number of tiles spawned and stays within
    the level. *)
Theorem spawn_tiles_head_of_line (cfg : Config) (t : Q) (s : State) :
  exists taken rest,
    skipn (current_tile_index s) (level cfg) = taken ++ rest
    /\ tiles (spawn_tiles cfg t s) = tiles s ++ map (new_tile cfg) taken
    /\ current_tile_index (spawn_tiles cfg t s)
       = (current_tile_index s + length taken)%nat
    /\ (forall e, In e taken -> (time e <= t)%Q)
    /\ match rest with
       | e :: _ => ~ (time e <= t)%Q
       | [] => True
       end
    /\ ((current_tile_index s <= length (level cfg))%nat ->
        (current_tile_index (spawn_tiles cfg t s) <= length (level cfg))%nat).
Proof.
  unfold spawn_tiles.
  destruct (take_due_split t (skipn (current_tile_index s) (level cfg)))
    as [rest [Hsplit [Hall Hrest]]].
  destruct (spawn_loop_spec cfg t (skipn (current_tile_index s) (level cfg)) s)
    as [Ht Hi].
  exists (take_due t (skipn (current_tile_index s) (level cfg))), rest.
  split; [exact Hsplit|]. split; [exact Ht|]. split; [exact Hi|].
  split; [|split].
  - intros e He. apply Qle_bool_iff. apply (Hall e He).
  - destruct rest as [|e rest']; [exact I|].
    intros Hle. apply Qle_bool_iff in Hle. unfold due in Hrest. congruence.
  - intros Hle. rewrite Hi.
    assert (Hlen : length (skipn (current_tile_index s) (level cfg))
                   = (length (level cfg) - current_tile_index s)%nat)
      by apply length_skipn.
    rewrite Hsplit, length_app in Hlen. lia.
Qed.

(** ** The books of a session *)

Lemma hit_prints_app (l1 l2 : list Output) :
  hit_prints (l1 ++ l2) = hit_prints l1 + hit_prints l2.
Proof.
  induction l1 as [|o l1 IH]; [reflexivity|].
  destruct o; cbn [app hit_prints]; rewrite IH; lia.
Qed.

Lemma wrong_tap_prints_app (l1 l2 : list Output) :
  wrong_tap_prints (l1 ++ l2) = wrong_tap_prints l1 + wrong_tap_prints l2.
Proof.
  induction l1 as [|o l1 IH]; [reflexivity|].
  destruct o; cbn [app wrong_tap_prints]; rewrite IH; lia.
Qed.

Lemma fallen_prints_app (l1 l2 : list Output) :
  fallen_prints (l1 ++ l2) = fallen_prints l1 + fallen_prints l2.
Proof.
  induction l1 as [|o l1 IH]; [reflexivity|].
  destruct o; cbn [app fallen_prints]; rewrite IH; lia.
Qed.

Ltac count_prints :=
  rewrite ?hit_prints_app, ?wrong_tap_prints_app, ?fallen_prints_app;
  cbn [hit_prints wrong_tap_prints fallen_prints].

Lemma handle_tile_tap_books (key nc sw sh th : Z) (s s' : State) :
  handle_tile_tap key nc sw sh th s = Ok s' ->
  books_balance s -> books_balance s'.
Proof.
  unfold handle_tile_tap, books_balance.
  destruct (dict_get key_to_column key) as [lane|];
    [|intros [= <-] H; exact H].
  cbn [print tiles].
  assert (Hscan := tap_scan_spec
                     (tap_hits lane (sh - th - hit_zone_buffer)
                        (sh - th + hit_zone_buffer)) (tiles s) []).
  destruct (tap_scan _ [] (tiles s)) as [[tile remaining]|].
  - destruct Hscan as [pre [post [Hsplit [_ [_ ->]]]]].
    intros [= <-] [Hi [Hs Hm]].
    cbn [tiles score misses stdout current_tile_index add_animation
         set_animations set_score set_tiles print app].
    rewrite Hsplit, length_app in Hi. cbn [length] in Hi.
    rewrite length_app. count_prints. repeat split; lia.
  - destruct (nc =? 0); [discriminate|].
    intros [= <-] [Hi [Hs Hm]].
    cbn [tiles score misses stdout current_tile_index add_animation
         set_animations set_score set_tiles print app].
    count_prints. repeat split; lia.
Qed.

Lemma handle_events_books (cfg : Config) (evs : list Event) (s s' : State) :
  handle_events cfg evs s = Ok s' -> books_balance s -> books_balance s'.
Proof.
  revert s. induction evs as [|ev evs IH]; intros s.
  - intros [= <-] H. exact H.
  - cbn [handle_events].
    destruct (handle_event cfg ev s) as [s1|e] eqn:Hev; [|discriminate].
    cbn [bind]. intros Hrest Hb. apply (IH s1 Hrest).
    destruct ev as [|key|]; cbn [handle_event] in Hev.
    + injection Hev as <-. exact Hb.
    + eapply handle_tile_tap_books; eassumption.
    + injection Hev as <-. exact Hb.
Qed.

Lemma advance_books (cfg : Config) (inp : FrameInput) (s s3 : State) :
  advance cfg inp s = Ok s3 -> books_balance s -> books_balance s3.
Proof.
  unfold advance.
  destruct (handle_events cfg (events inp) s) as [s1|e] eqn:Hev;
    [|discriminate].
  cbn [bind]. intros [= <-] Hb.
  destruct (handle_events_books cfg _ _ _ Hev Hb) as [Hi [Hs Hm]].
  unfold books_balance, update_tiles, spawn_tiles.
  cbn [tiles score misses stdout current_tile_index set_tiles].
  match goal with |- context [spawn_loop cfg ?t ?p s1] =>
    destruct (spawn_loop_keeps cfg t p s1) as [A1 [A2 [_ [_ [_ [A6 _]]]]]];
    destruct (spawn_loop_spec cfg t p s1) as [B1 B2]
  end.
  rewrite length_map, A1, A2, A6, B1, B2, length_app, length_map.
  repeat split; lia.
Qed.

Lemma missed_loop_prints (H : Z) (rest kept : list Tile.t) (s : State) :
  hit_prints (stdout (state_of (missed_loop H kept rest s)))
  = hit_prints (stdout s)
  /\ wrong_tap_prints (stdout (state_of (missed_loop H kept rest s)))
     = wrong_tap_prints (stdout s)
  /\ fallen_prints (stdout (state_of (missed_loop H kept rest s)))
     - fallen_prints (stdout s)
     = misses (state_of (missed_loop H kept rest s)) - misses s.
Proof.
  revert kept s. induction rest as [|tile rest IH]; intros kept s.
  - cbn. repeat split; lia.
  - cbn [missed_loop]. destruct (Qlt_bool (inject_Z H) (Tile.y tile)).
    + cbn [misses set_misses print add_animation set_animations].
      destruct (max_misses <=? misses s + 1).
      * cbn [state_of stdout misses set_tiles print add_animation
             set_animations set_misses].
        count_prints. repeat split; lia.
      * match goal with |- context [missed_loop H kept rest ?st] =>
          destruct (IH kept st) as [A1 [A2 A3]] end.
        cbn [stdout misses print add_animation set_animations set_misses]
          in A1, A2, A3.
        revert A1 A2 A3. count_prints.
        intros A1 A2 A3. repeat split; lia.
    + apply IH.
Qed.

Lemma milestone_loop_prints (cfg : Config) (wall : nat -> Q) (ms : list Z)
    (k : nat) (s : State) :
  hit_prints (stdout (snd (milestone_loop cfg wall ms k s)))
  = hit_prints (stdout s)
  /\ wrong_tap_prints (stdout (snd (milestone_loop cfg wall ms k s)))
     = wrong_tap_prints (stdout s)
  /\ fallen_prints (stdout (snd (milestone_loop cfg wall ms k s)))
     = fallen_prints (stdout s).
Proof.
  revert k s. induction ms as [|m ms IH]; intros k s; [repeat split|].
  cbn [milestone_loop].
  destruct ((m <=? score s)
            && negb (existsb (Z.eqb m) (achieved_milestones s))).
  - match goal with |- context [milestone_loop cfg wall ms (S k) ?st] =>
      destruct (IH (S k) st) as [A1 [A2 A3]] end.
    cbn [stdout add_animation set_animations print set_achieved_milestones]
      in A1, A2, A3.
    revert A1 A2 A3. count_prints. intros A1 A2 A3. repeat split; lia.
  - apply IH.
Qed.

Lemma finish_books (cfg : Config) (inp : FrameInput) (s : State) :
  books_balance s -> books_balance (state_of (finish cfg inp s)).
Proof.
  intros [Hi [Hs Hm]]. unfold finish.
  destruct (detect_missed_tiles_counts cfg s) as [C1 [C2 _]].
  unfold detect_missed_tiles in *.
  destruct (missed_loop_prints (screen_height cfg) (tiles s) [] s)
    as [P1 [P2 P3]].
  destruct (missed_loop_keeps (screen_height cfg) (tiles s) [] s)
    as [K1 _].
  destruct (missed_loop (screen_height cfg) [] (tiles s) s) as [s4|why s4];
    cbn [state_of] in *.
  - assert (Hb4 : books_balance s4) by (unfold books_balance; repeat split; lia).
    unfold check_milestones.
    destruct (milestone_loop_keeps cfg (wall inp) MILESTONES 1 s4)
      as [M1 [M2 [M3 [M4 _]]]].
    destruct (milestone_loop_prints cfg (wall inp) MILESTONES 1 s4)
      as [Q1 [Q2 Q3]].
    destruct (milestone_loop cfg (wall inp) MILESTONES 1 s4) as [k s5].
    cbn [snd] in *. destruct Hb4 as [Hi4 [Hs4 Hm4]].
    destruct (negb (music_busy inp) && _); cbn [state_of];
      unfold books_balance;
      cbn [tiles score misses stdout current_tile_index set_animations print];
      count_prints; rewrite M1, M2, M3, M4, Q1, Q2, Q3; repeat split; lia.
  - unfold books_balance. repeat split; lia.
Qed.

Lemma game_loop_books (cfg : Config) (frames : list FrameInput) (s : State) :
  num_columns cfg <> 0 -> books_balance s ->
  exists r, game_loop cfg frames s = Ok r /\ books_balance (loop_state r).
Proof.
  intros Hnc. revert s. induction frames as [|inp frames IH]; intros s Hb.
  - cbn. destruct (running s); eexists; (split; [reflexivity|exact Hb]).
  - cbn [game_loop]. destruct (running s).
    + destruct (frame_total cfg inp s Hnc) as [s3 [Hs3 [_ Hf]]].
      rewrite Hf. cbn [bind].
      assert (Hb' := finish_books cfg inp s3 (advance_books cfg inp s s3 Hs3 Hb)).
      destruct (finish cfg inp s3) as [s'|why s']; cbn [state_of] in Hb'.
      * apply IH. exact Hb'.
      * eexists. split; [reflexivity|exact Hb'].
    + eexists. split; [reflexivity|exact Hb].
Qed.

Lemma main_game_loop_books (cfg : Config) (t0 : Q) (frames : list FrameInput) :
  match main_game_loop cfg t0 frames with
  | Ok r => books_balance (loop_state r)
  | Raise e =>
      e = ZeroDivisionError
      /\ (num_columns cfg = 0 \/ (hit_time cfg == 0)%Q)
  end.
Proof.
  unfold main_game_loop.
  destruct (Z.eqb_spec (num_columns cfg) 0) as [Hz|Hnc];
    [split; [reflexivity|left; exact Hz]|].
  destruct (Qeq_bool (hit_time cfg) 0) eqn:Hq;
    [split; [reflexivity|right; apply Qeq_bool_eq; exact Hq]|].
  destruct (game_loop_books cfg frames (initial_state t0) Hnc) as [r [Hr Hb]].
  - unfold books_balance. cbn. repeat split.
  - rewrite Hr. exact Hb.
Qed.

(** A property of the state that both halves of a pass keep holds wherever
    the loop stops. *)
Lemma game_loop_invariant (I : State -> Prop) (cfg : Config) :
  num_columns cfg <> 0 ->
  (forall inp s s3, advance cfg inp s = Ok s3 -> I s -> I s3) ->
  (forall inp s, I s -> I (state_of (finish cfg inp s))) ->
  forall frames s, I s ->
    exists r, game_loop cfg frames s = Ok r /\ I (loop_state r).
Proof.
  intros Hnc Hadv Hfin. induction frames as [|inp frames IH]; intros s Hs.
  - cbn. destruct (running s); eexists; (split; [reflexivity|exact Hs]).
  - cbn [game_loop]. destruct (running s).
    + destruct (frame_total cfg inp s Hnc) as [s3 [Hs3 [_ Hf]]].
      rewrite Hf. cbn [bind].
      assert (Hs' := Hfin inp s3 (Hadv inp s s3 Hs3 Hs)).
      destruct (finish cfg inp s3) as [s'|why s']; cbn [state_of] in Hs'.
      * apply IH. exact Hs'.
      * eexists. split; [reflexivity|exact Hs'].
    + eexists. split; [reflexivity|exact Hs].
Qed.

Lemma advance_index_bound (cfg : Config) (inp : FrameInput) (s s3 : State) :
  advance cfg inp s = Ok s3 ->
  (current_tile_index s <= length (level cfg))%nat ->
  (current_tile_index s3 <= length (level cfg))%nat.
Proof.
  unfold advance.
  destruct (handle_events cfg (events inp) s) as [s1|e] eqn:Hev;
    [|discriminate].
  cbn [bind]. intros [= <-] Hle.
  assert (Hi1 : current_tile_index s1 = current_tile_index s).
  { destruct (Z.eq_dec (num_columns cfg) 0) as [Hz|Hnc].
    - clear Hle. revert s Hev. induction (events inp) as [|ev evs IH];
        intros s Hev; [injection Hev as <-; reflexivity|].
      cbn [handle_events] in Hev.
      destruct (handle_event cfg ev s) as [s2|e] eqn:H2; [|discriminate].
      cbn [bind] in Hev. rewrite (IH s2 Hev).
      destruct ev as [|key|]; cbn [handle_event] in H2.
      + injection H2 as <-. reflexivity.
      + apply (handle_tile_tap_keeps _ _ _ _ _ _ _ H2).
      + injection H2 as <-. reflexivity.
    - destruct (handle_events_keeps cfg (events inp) s Hnc)
        as [s1' [Hs1' [_ [Hk _]]]].
      rewrite Hev in Hs1'. injection Hs1' as <-. exact Hk. }
  unfold update_tiles, spawn_tiles. cbn [current_tile_index set_tiles].
  destruct (spawn_loop_spec cfg (wall inp 0 - start_time s)
              (skipn (current_tile_index s1) (level cfg)) s1) as [_ Hi].
  rewrite Hi.
  destruct (take_due_split (wall inp 0 - start_time s)
              (skipn (current_tile_index s1) (level cfg)))
    as [rest [Hsplit _]].
  assert (Hlen : length (skipn (current_tile_index s1) (level cfg))
                 = (length (level cfg) - current_tile_index s1)%nat)
    by apply length_skipn.
  rewrite Hsplit, length_app in Hlen. lia.
Qed.

Lemma finish_index (cfg : Config) (inp : FrameInput) (s : State) :
  current_tile_index (state_of (finish cfg inp s)) = current_tile_index s.
Proof.
  unfold finish, detect_missed_tiles.
  destruct (missed_loop_keeps (screen_height cfg) (tiles s) [] s) as [K1 _].
  destruct (missed_loop (screen_height cfg) [] (tiles s) s) as [s4|why s4];
    cbn [state_of] in K1 |- *; [|exact K1].
  unfold check_milestones.
  destruct (milestone_loop_keeps cfg (wall inp) MILESTONES 1 s4)
    as [_ [_ [_ [M4 _]]]].
  destruct (milestone_loop cfg (wall inp) MILESTONES 1 s4) as [k s5].
  cbn [snd] in M4.
  destruct (negb (music_busy inp) && _); cbn; congruence.
Qed.

(** X15.  No tile is lost or counted twice: wherever a session stops, the
    number of targets spawned is the number of tiles still active plus the
    misses counted plus the hits reported, and it never exceeds the length of
    the level.  The loop itself raises only at its start, a
    [ZeroDivisionError] for zero columns or a zero [hit_time]. *)
Theorem spawned_tiles_accounted (cfg : Config) (t0 : Q)
    (frames : list FrameInput) :
  match main_game_loop cfg t0 frames with
  | Ok r =>
      Z.of_nat (current_tile_index (loop_state r))
      = Z.of_nat (length (tiles (loop_state r))) + misses (loop_state r)
        + hit_prints (stdout (loop_state r))
      /\ (current_tile_index (loop_state r) <= length (level cfg))%nat
  | Raise e =>
      e = ZeroDivisionError
      /\ (num_columns cfg = 0 \/ (hit_time cfg == 0)%Q)
  end.
Proof.
  assert (Hb := main_game_loop_books cfg t0 frames).
  unfold main_game_loop in *.
  destruct (Z.eqb_spec (num_columns cfg) 0) as [Hz|Hnc]; [exact Hb|].
  destruct (Qeq_bool (hit_time cfg) 0); [exact Hb|].
  destruct (game_loop_invariant
              (fun s => (current_tile_index s <= length (level cfg))%nat)
              cfg Hnc (advance_index_bound cfg)
              (fun inp s Hs => eq_ind_r (fun n => (n <= length (level cfg))%nat)
                                 Hs (finish_index cfg inp s))
              frames (initial_state t0) (Nat.le_0_l _)) as [r [Hr Hi]].
  rewrite Hr in Hb |- *. split; [apply Hb|exact Hi].
Qed.

(** X16.  Wherever a session stops, the score is the number of hits reported
    less the number of wrong taps reported, and the miss count is the number
    of fallen tiles reported: nothing else moves the two counters. *)
Theorem counters_match_reports (cfg : Config) (t0 : Q)
    (frames : list FrameInput) :
  match main_game_loop cfg t0 frames with
  | Ok r =>
      score (loop_state r)
      = hit_prints (stdout (loop_state r))
        - wrong_tap_prints (stdout (loop_state r))
      /\ misses (loop_state r) = fallen_prints (stdout (loop_state r))
  | Raise e =>
      e = ZeroDivisionError
      /\ (num_columns cfg = 0 \/ (hit_time cfg == 0)%Q)
  end.
Proof.
  assert (Hb := main_game_loop_books cfg t0 frames).
  destruct (main_game_loop cfg t0 frames) as [r|e]; [|exact Hb].
  split; apply Hb.
Qed.

(** ** Milestones: order and completeness *)

Lemma milestone_loop_grows (cfg : Config) (wall : nat -> Q) (ms : list Z)
    (k : nat) (s : State) (m : Z) :
  In m (achieved_milestones s) ->
  In m (achieved_milestones (snd (milestone_loop cfg wall ms k s))).
Proof.
  intros Hin.
  destruct (milestone_loop_spec cfg wall ms k s) as [new [A1 _]].
  rewrite A1. apply in_or_app. left. exact Hin.
Qed.

Lemma milestone_loop_complete (cfg : Config) (wall : nat -> Q) (ms : list Z)
    (k : nat) (s : State) (m : Z) :
  In m ms -> m <= score s ->
  In m (achieved_milestones (snd (milestone_loop cfg wall ms k s))).
Proof.
  revert k s. induction ms as [|m0 ms IH]; intros k s Hin Hle;
    [destruct Hin|].
  cbn [milestone_loop].
  destruct ((m0 <=? score s)
            && negb (existsb (Z.eqb m0) (achieved_milestones s))) eqn:Hc.
  - destruct Hin as [->|Hin].
    + apply milestone_loop_grows. cbn. apply in_or_app. right. left.
      reflexivity.
    + apply IH; [exact Hin|exact Hle].
  - destruct Hin as [->|Hin]; [|apply IH; assumption].
    apply milestone_loop_grows.
    apply andb_false_iff in Hc. destruct Hc as [Hc|Hc].
    + apply Z.leb_gt in Hc. lia.
    + apply negb_false_iff, existsb_exists in Hc.
      destruct Hc as [x [Hx Heq]]. apply Z.eqb_eq in Heq. subst x. exact Hx.
Qed.

(** X17.  At the end of every pass that lets the loop go on, each threshold
    of MILESTONES that the score has reached is recorded in
    [achieved_milestones]. *)
Theorem reached_milestones_recorded (cfg : Config) (inp : FrameInput)
    (s s' : State) :
  frame cfg inp s = Ok (Continue s') ->
  forall m, In m MILESTONES -> m <= score s' ->
            In m (achieved_milestones s').
Proof.
  unfold frame.
  destruct (advance cfg inp s) as [s3|e]; [|discriminate]. cbn [bind].
  unfold finish, detect_missed_tiles.
  destruct (missed_loop (screen_height cfg) [] (tiles s3) s3) as [s4|why s4];
    [|discriminate].
  unfold check_milestones.
  assert (Hc := milestone_loop_complete cfg (wall inp) MILESTONES 1 s4).
  destruct (milestone_loop_keeps cfg (wall inp) MILESTONES 1 s4)
    as [_ [_ [K3 _]]].
  destruct (milestone_loop cfg (wall inp) MILESTONES 1 s4) as [k s5].
  cbn [snd] in Hc, K3.
  destruct (negb (music_busy inp) && _); [discriminate|].
  intros [= <-] m Hin Hle. cbn [score achieved_milestones set_animations] in *.
  apply Hc; [exact Hin|lia].
Qed.

Lemma reached_milestones_recorded_witness :
  exists s',
    frame (default_config []) (key_frame K_q) (set_score 299 milestone_state)
    = Ok (Continue s')
    /\ score s' = 300
    /\ In 300 (achieved_milestones s').
Proof.
  destruct (frame (default_config []) (key_frame K_q)
              (set_score 299 milestone_state)) as [[s'|why s']|e] eqn:Hf;
    [|vm_compute in Hf; discriminate Hf|vm_compute in Hf; discriminate Hf].
  assert (Hs : score s' = 300).
  { vm_compute in Hf. injection Hf as <-. reflexivity. }
  exists s'. split; [reflexivity|]. split; [exact Hs|].
  apply (reached_milestones_recorded (default_config []) (key_frame K_q)
           (set_score 299 milestone_state) s' Hf).
  - right. right. left. reflexivity.
  - rewrite Hs. lia.
Defined.

(** The milestone loop on an ascending list of thresholds: when the
    thresholds recorded are the first [n] of the list, they still are the
    first few of it afterwards.  [done] is the part of the list the loop has
    passed, [todo] the part it still has to look at. *)
Lemma milestone_loop_prefix (cfg : Config) (wall : nat -> Q) (ms : list Z) :
  forall (todo done : list Z) (k : nat) (s : State) (n : nat),
    ms = done ++ todo ->
    StronglySorted Z.lt todo ->
    (forall d m, In d done -> In m todo -> d < m) ->
    achieved_milestones s = firstn n ms ->
    ((length done <= n)%nat \/ (forall m, In m todo -> score s < m)) ->
    exists n',
      achieved_milestones (snd (milestone_loop cfg wall todo k s))
      = firstn n' ms.
Proof.
  induction todo as [|m0 todo IH]; intros done k s n Hms Hsort Hsep Hach Hpos.
  - exists n. exact Hach.
  - apply StronglySorted_inv in Hsort. destruct Hsort as [Hsort Hall].
    rewrite Forall_forall in Hall.
    assert (Hms' : ms = (done ++ [m0]) ++ todo)
      by (rewrite <- app_assoc; exact Hms).
    assert (Hsep' : forall d m, In d (done ++ [m0]) -> In m todo -> d < m).
    { intros d m Hd Hm. apply in_app_or in Hd. destruct Hd as [Hd|[<-|[]]].
      - apply Hsep; [exact Hd|right; exact Hm].
      - apply Hall. exact Hm. }
    assert (Hnot : ~ In m0 done).
    { intros Hin. assert (H := Hsep m0 m0 Hin (or_introl eq_refl)). lia. }
    cbn [milestone_loop].
    destruct (Z.leb_spec m0 (score s)) as [Hle|Hgt]; cbn [andb].
    + destruct Hpos as [Hlen|Hblocked];
        [|assert (H := Hblocked m0 (or_introl eq_refl)); lia].
      destruct (Nat.eq_dec (length done) n) as [Heq|Hneq].
      * assert (Hdone : achieved_milestones s = done).
        { rewrite Hach, Hms, <- Heq, firstn_app, firstn_all, Nat.sub_diag.
          cbn [firstn]. apply app_nil_r. }
        assert (Hex : existsb (Z.eqb m0) (achieved_milestones s) = false).
        { rewrite Hdone. destruct (existsb (Z.eqb m0) done) eqn:E;
            [|reflexivity].
          apply existsb_exists in E. destruct E as [x [Hx Hxe]].
          apply Z.eqb_eq in Hxe. subst x. contradiction. }
        rewrite Hex. cbn [negb].
        apply (IH (done ++ [m0]) (S k) _ (S n)); try assumption.
        -- cbn [achieved_milestones add_animation set_animations print
                set_achieved_milestones].
           rewrite Hdone, Hms', <- Heq.
           replace (S (length done)) with (length (done ++ [m0]))
             by (rewrite length_app; cbn [length]; lia).
           rewrite firstn_app, firstn_all, Nat.sub_diag. cbn [firstn].
           symmetry. apply app_nil_r.
        -- left. rewrite length_app. cbn [length]. lia.
      * assert (Hex : existsb (Z.eqb m0) (achieved_milestones s) = true).
        { apply existsb_exists. exists m0. split; [|apply Z.eqb_refl].
          rewrite Hach, Hms, firstn_app. apply in_or_app. right.
          destruct (n - length done)%nat as [|j] eqn:Hj; [lia|].
          left. reflexivity. }
        rewrite Hex. cbn [negb].
        apply (IH (done ++ [m0]) k s n); try assumption.
        left. rewrite length_app. cbn [length]. lia.
    + apply (IH (done ++ [m0]) k s n); try assumption.
      right. intros m Hm. assert (H := Hall m Hm). lia.
Qed.

Lemma MILESTONES_ascending : StronglySorted Z.lt MILESTONES.
Proof.
  unfold MILESTONES.
  repeat (constructor; [|repeat (constructor; [reflexivity|]); constructor]).
  constructor.
Qed.

Lemma check_milestones_prefix (cfg : Config) (wall : nat -> Q) (k : nat)
    (s : State) :
  milestone_prefix (achieved_milestones s) ->
  milestone_prefix (achieved_milestones (snd (check_milestones cfg wall k s))).
Proof.
  intros [n Hn]. unfold check_milestones, milestone_prefix.
  apply (milestone_loop_prefix cfg wall MILESTONES MILESTONES [] k s n).
  - reflexivity.
  - exact MILESTONES_ascending.
  - intros d m [].
  - exact Hn.
  - left. cbn. lia.
Qed.

Lemma advance_achieved (cfg : Config) (inp : FrameInput) (s s3 : State) :
  num_columns cfg <> 0 -> advance cfg inp s = Ok s3 ->
  achieved_milestones s3 = achieved_milestones s.
Proof.
  intros Hnc Hs3.
  destruct (advance_keeps cfg inp s Hnc) as [s3' [Hs3' [_ [_ [Ha _]]]]].
  rewrite Hs3 in Hs3'. injection Hs3' as <-. exact Ha.
Qed.

Lemma finish_prefix (cfg : Config) (inp : FrameInput) (s : State) :
  milestone_prefix (achieved_milestones s) ->
  milestone_prefix (achieved_milestones (state_of (finish cfg inp s))).
Proof.
  intros Hp. unfold finish, detect_missed_tiles.
  destruct (missed_loop_keeps (screen_height cfg) (tiles s) [] s)
    as [_ [_ [_ [Ha _]]]].
  destruct (missed_loop (screen_height cfg) [] (tiles s) s) as [s4|why s4];
    cbn [state_of] in Ha |- *; [|rewrite Ha; exact Hp].
  assert (Hc := check_milestones_prefix cfg (wall inp) 1 s4).
  rewrite Ha in Hc. specialize (Hc Hp).
  destruct (check_milestones cfg (wall inp) 1 s4) as [k s5].
  cbn [snd] in Hc. destruct (negb (music_busy inp) && _); exact Hc.
Qed.

(** X18.  Wherever a session stops, the milestones reached are an initial
    segment of 100, 200, 300, 400, 500 in that order: a threshold is never
    recorded before a lower one. *)
Theorem milestones_reached_in_order (cfg : Config) (t0 : Q)
    (frames : list FrameInput) :
  match main_game_loop cfg t0 frames with
  | Ok r =>
      exists n, achieved_milestones (loop_state r) = firstn n MILESTONES
  | Raise e =>
      e = ZeroDivisionError
      /\ (num_columns cfg = 0 \/ (hit_time cfg == 0)%Q)
  end.
Proof.
  unfold main_game_loop.
  destruct (Z.eqb_spec (num_columns cfg) 0) as [Hz|Hnc];
    [split; [reflexivity|left; exact Hz]|].
  destruct (Qeq_bool (hit_time cfg) 0) eqn:Hq;
    [split; [reflexivity|right; apply Qeq_bool_eq; exact Hq]|].
  destruct (game_loop_invariant
              (fun s => milestone_prefix (achieved_milestones s)) cfg Hnc)
    with (frames := frames) (s := initial_state t0) as [r [Hr Hp]].
  - intros inp s s3 Hs3 Hp. rewrite (advance_achieved cfg inp s s3 Hnc Hs3).
    exact Hp.
  - intros inp s Hp. apply finish_prefix. exact Hp.
  - exists 0%nat. reflexivity.
  - rewrite Hr. exact Hp.
Qed.

(** ** Feedback records *)





(** ** Passes without tiles and the start of a session *)

Lemma handle_events_index (cfg : Config) (evs : list Event) (s s' : State) :
  handle_events cfg evs s = Ok s' ->
  current_tile_index s' = current_tile_index s.
Proof.
  revert s. induction evs as [|ev evs IH]; intros s;
    [intros [= <-]; reflexivity|].
  cbn [handle_events].
  destruct (handle_event cfg ev s) as [s1|e] eqn:Hev; [|discriminate].
  cbn [bind]. intros Hrest. rewrite (IH s1 Hrest).
  destruct ev as [|key|]; cbn [handle_event] in Hev.
  - injection Hev as <-. reflexivity.
  - apply (handle_tile_tap_keeps _ _ _ _ _ _ _ Hev).
  - injection Hev as <-. reflexivity.
Qed.

(** X21.  A pass that starts with no active tile and no target left to
    spawn (an empty level, or the tail of a song) lets the loop go on while
    the music plays and ends the session for the end of the song as soon as
    it does not; it leaves the miss count alone and every press of a lane
    key in it costs one point. *)
Theorem pass_without_tiles (cfg : Config) (inp : FrameInput) (s : State) :
  num_columns cfg <> 0 ->
  (length (level cfg) <= current_tile_index s)%nat ->
  tiles s = [] ->
  exists s',
    frame cfg inp s
    = Ok (if music_busy inp then Continue s' else GameOver SongFinished s')
    /\ tiles s' = []
    /\ misses s' = misses s
    /\ score s' = score s - mapped_presses (events inp).
Proof.
  intros Hnc Hidx Hti. unfold frame, advance.
  destruct (handle_events_keeps cfg (events inp) s Hnc) as [s1 [Hs1 _]].
  rewrite Hs1. cbn [bind].
  destruct (handle_events_counts cfg _ _ _ Hs1) as [Hl [Hsc [_ Hm]]].
  assert (Hi1 := handle_events_index cfg _ _ _ Hs1).
  rewrite Hti in Hl, Hsc. cbn [length] in Hl, Hsc.
  assert (Ht1 : tiles s1 = []) by (apply length_zero_iff_nil; lia).
  rewrite Ht1 in Hsc. cbn [length] in Hsc.
  unfold spawn_tiles. rewrite Hi1, skipn_all2 by exact Hidx.
  cbn [spawn_loop]. unfold finish, detect_missed_tiles, update_tiles.
  cbn [tiles set_tiles]. rewrite Ht1. cbn [map missed_loop].
  unfold check_milestones.
  match goal with |- context [milestone_loop cfg ?w MILESTONES 1 ?st] =>
    destruct (milestone_loop_keeps cfg w MILESTONES 1 st) as [K1 [K2 [K3 _]]];
    destruct (milestone_loop cfg w MILESTONES 1 st) as [k s5]
  end.
  cbn [snd tiles misses score set_tiles] in K1, K2, K3.
  cbn [tiles set_animations]. rewrite K1. cbn [length Nat.eqb].
  rewrite andb_true_r.
  destruct (music_busy inp); cbn [negb]; eexists;
    (split; [reflexivity|]);
    cbn [tiles misses score set_animations print];
    (split; [exact K1|]); (split; [congruence|]); lia.
Qed.

Lemma pass_without_tiles_witness :
  num_columns (default_config []) <> 0
  /\ exists s',
      frame (default_config [])
        (mkFrame (fun _ => 0%Q) [KEYDOWN K_q; KEYDOWN K_e] 16 false)
        (initial_state 0)
      = Ok (GameOver SongFinished s')
      /\ score s' = -2.
Proof.
  split; [discriminate|].
  assert (Hnc : num_columns (default_config []) <> 0) by discriminate.
  destruct (pass_without_tiles (default_config [])
              (mkFrame (fun _ => 0%Q) [KEYDOWN K_q; KEYDOWN K_e] 16 false)
              (initial_state 0) Hnc (Nat.le_refl 0) eq_refl)
    as [s' [Hf [_ [_ Hs]]]].
  exists s'. split; [exact Hf|exact Hs].
Defined.

Lemma generate_level_four_lanes (rnd : nat -> nat) (beats : list Q) (bs : Z) :
  match generate_level rnd beats 4 bs with
  | Ok _ => bs <> 0
  | Raise e => e = ValueError /\ bs = 0
  end.
Proof.
  destruct (Z_lt_le_dec 0 bs) as [Hpos|Hle].
  - assert (H := generate_level_spec rnd beats 4 bs ltac:(lia)).
    destruct (generate_level rnd beats 4 bs); lia.
  - assert (H : generate_level rnd beats 4 bs
                = if bs =? 0 then Raise ValueError else Ok []).
    { unfold generate_level, py_range.
      destruct (Z.eqb_spec bs 0) as [_|Hne]; [reflexivity|].
      cbn [bind]. unfold range_len.
      destruct (Z.ltb_spec 0 bs) as [H|_]; [lia|].
      destruct (Z.ltb_spec bs 0) as [_|H]; [|lia].
      destruct (Z.ltb_spec (Z.of_nat (length beats)) 0) as [H|_]; [lia|].
      reflexivity. }
    rewrite H. destruct (Z.eqb_spec bs 0); [split; [reflexivity|assumption]|].
    assumption.
Qed.

(** X22.  One pass of [run_piano_tiles_clone] can fail in one way only: with
    the audio loaded and a tempo found, a stride of zero raises [ValueError]
    out of [generate_level], before the start screen.  A failed load or a
    missing tempo returns before any level is generated, and with a non-zero
    stride the game loop is entered, with the level [generate_level]
    returned, exactly when the start screen is left by a click. *)
Theorem run_piano_tiles_clone_outcomes (loaded : bool) (tempo : option Q)
    (beats : list Q) (rnd : nat -> nat) (bs : Z) (start_clicked : bool)
    (t0 : Q) (frames : list FrameInput) :
  match run_piano_tiles_clone loaded tempo beats rnd bs start_clicked t0 frames
  with
  | Raise e =>
      e = ValueError /\ bs = 0 /\ loaded = true /\ tempo <> None
  | Ok LoadFailed => loaded = false
  | Ok BeatsFailed => loaded = true /\ tempo = None
  | Ok WindowClosed =>
      loaded = true /\ tempo <> None /\ bs <> 0 /\ start_clicked = false
  | Ok (Played level r) =>
      loaded = true /\ tempo <> None /\ bs <> 0 /\ start_clicked = true
      /\ generate_level rnd beats 4 bs = Ok level
      /\ game_loop (default_config level) frames (initial_state t0) = Ok r
  end.
Proof.
  unfold run_piano_tiles_clone.
  destruct loaded; cbn [negb]; [|reflexivity].
  destruct tempo as [tempo|]; [|split; reflexivity].
  assert (Hg := generate_level_four_lanes rnd beats bs).
  destruct (generate_level rnd beats 4 bs) as [level|e]; cbn [bind].
  - destruct start_clicked.
    + fold (default_config level). rewrite main_game_loop_default.
      destruct (game_loop_invariant (fun _ => True) (default_config level))
        with (frames := frames) (s := initial_state t0) as [r [Hr _]];
        [discriminate|auto|auto|exact I|].
      rewrite Hr. cbn [bind].
      repeat split; try assumption; discriminate.
    + repeat split; try assumption; discriminate.
  - destruct Hg as [-> ->]. repeat split; discriminate.
Qed.

(** ** Bounds on the counters and generated levels *)

Lemma prints_nonneg (out : list Output) :
  0 <= hit_prints out /\ 0 <= wrong_tap_prints out /\ 0 <= fallen_prints out.
Proof.
  induction out as [|o out [IH1 [IH2 IH3]]]; [cbn; lia|].
  destruct o; cbn [hit_prints wrong_tap_prints fallen_prints]; lia.
Qed.

Lemma main_game_loop_index_bound (cfg : Config) (t0 : Q)
    (frames : list FrameInput) (r : LoopResult) :
  main_game_loop cfg t0 frames = Ok r ->
  (current_tile_index (loop_state r) <= length (level cfg))%nat.
Proof.
  unfold main_game_loop.
  destruct (Z.eqb_spec (num_columns cfg) 0) as [Hz|Hnc]; [discriminate|].
  destruct (Qeq_bool (hit_time cfg) 0); [discriminate|].
  destruct (game_loop_invariant
              (fun s => (current_tile_index s <= length (level cfg))%nat)
              cfg Hnc (advance_index_bound cfg)
              (fun inp s Hs => eq_ind_r (fun n => (n <= length (level cfg))%nat)
                                 Hs (finish_index cfg inp s))
              frames (initial_state t0) (Nat.le_0_l _)) as [r' [Hr Hi]].
  rewrite Hr. intros [= <-]. exact Hi.
Qed.

Lemma advance_index_grows (cfg : Config) (inp : FrameInput) (s s3 : State) :
  advance cfg inp s = Ok s3 ->
  (current_tile_index s <= current_tile_index s3)%nat.
Proof.
  unfold advance.
  destruct (handle_events cfg (events inp) s) as [s1|e] eqn:Hev;
    [|discriminate].
  cbn [bind]. intros [= <-].
  rewrite <- (handle_events_index cfg _ _ _ Hev).
  unfold update_tiles, spawn_tiles. cbn [current_tile_index set_tiles].
  match goal with |- context [spawn_loop cfg ?t ?p s1] =>
    destruct (spawn_loop_spec cfg t p s1) as [_ Hi] end.
  rewrite Hi. lia.
Qed.

Lemma finish_earned (cfg : Config) (inp : FrameInput) (s : State) :
  milestones_earned s -> milestones_earned (state_of (finish cfg inp s)).
Proof.
  intros [Hb Hbound]. split; [apply finish_books; exact Hb|].
  assert (Hbf := finish_books cfg inp s Hb).
  assert (Hif := finish_index cfg inp s).
  revert Hbf Hif. unfold finish, detect_missed_tiles.
  destruct (missed_loop_keeps (screen_height cfg) (tiles s) [] s)
    as [_ [_ [_ [Ha _]]]].
  destruct (missed_loop (screen_height cfg) [] (tiles s) s) as [s4|why s4];
    cbn [state_of] in Ha |- *.
  - unfold check_milestones.
    destruct (milestone_loop_spec cfg (wall inp) MILESTONES 1 s4)
      as [new [A1 [_ [_ [_ A5]]]]].
    destruct (milestone_loop_keeps cfg (wall inp) MILESTONES 1 s4)
      as [_ [_ [K3 _]]].
    destruct (milestone_loop cfg (wall inp) MILESTONES 1 s4) as [k s5].
    cbn [snd] in A1, K3.
    assert (Hgoal : forall sf,
               achieved_milestones sf = achieved_milestones s5 ->
               score sf = score s5 ->
               books_balance sf ->
               current_tile_index sf = current_tile_index s ->
               forall m, In m (achieved_milestones sf) ->
                         100 <= m <= Z.of_nat (current_tile_index sf)).
    { intros sf Haf Hsf [B1 [B2 B3]] Hidx m Hin.
      rewrite Haf, A1, Ha in Hin. apply in_app_or in Hin.
      destruct Hin as [Hold|Hnew].
      - rewrite Hidx. apply Hbound. exact Hold.
      - destruct (A5 m Hnew) as [Hms [Hle _]].
        destruct (prints_nonneg (stdout sf)) as [N1 [N2 N3]].
        split.
        + unfold MILESTONES in Hms. cbn in Hms.
          destruct Hms as [<-|[<-|[<-|[<-|[<-|[]]]]]]; lia.
        + lia. }
    destruct (negb (music_busy inp) && _); cbn [state_of];
      intros Hbf Hif; apply Hgoal; try assumption; reflexivity.
  - intros _ Hif m Hin. rewrite Ha in Hin. rewrite Hif. apply Hbound.
    exact Hin.
Qed.

Lemma main_game_loop_earned (cfg : Config) (t0 : Q) (frames : list FrameInput)
    (r : LoopResult) :
  main_game_loop cfg t0 frames = Ok r -> milestones_earned (loop_state r).
Proof.
  unfold main_game_loop.
  destruct (Z.eqb_spec (num_columns cfg) 0) as [Hz|Hnc]; [discriminate|].
  destruct (Qeq_bool (hit_time cfg) 0); [discriminate|].
  destruct (game_loop_invariant milestones_earned cfg Hnc)
    with (frames := frames) (s := initial_state t0) as [r' [Hr He]].
  - intros inp s s3 Hs3 [Hb Hbound]. split.
    + eapply advance_books; eassumption.
    + intros m Hin. rewrite (advance_achieved cfg inp s s3 Hnc Hs3) in Hin.
      assert (Hg := advance_index_grows cfg inp s s3 Hs3).
      assert (Hm := Hbound m Hin). lia.
  - intros inp s. apply finish_earned.
  - split; [unfold books_balance; cbn; repeat split|intros m []].
  - rewrite Hr. intros [= <-]. exact He.
Qed.

(** X23.  Wherever a session stops, the score is at most the number of
    targets of the level, the miss count lies between zero and that number,
    and a threshold is recorded only once that many targets were spawned: a
    level with fewer than 100 targets never reaches a milestone. *)
Theorem counters_bounded_by_level (cfg : Config) (t0 : Q)
    (frames : list FrameInput) (r : LoopResult) :
  main_game_loop cfg t0 frames = Ok r ->
  score (loop_state r) <= Z.of_nat (length (level cfg))
  /\ 0 <= misses (loop_state r) <= Z.of_nat (length (level cfg))
  /\ (forall m, In m (achieved_milestones (loop_state r)) ->
                m <= Z.of_nat (current_tile_index (loop_state r)))
  /\ (Z.of_nat (length (level cfg)) < 100 ->
      achieved_milestones (loop_state r) = []).
Proof.
  intros Hr.
  assert (Hi := main_game_loop_index_bound cfg t0 frames r Hr).
  destruct (main_game_loop_earned cfg t0 frames r Hr) as [[B1 [B2 B3]] He].
  destruct (prints_nonneg (stdout (loop_state r))) as [N1 [N2 N3]].
  split; [lia|]. split; [lia|]. split.
  - intros m Hin. apply (He m Hin).
  - intros Hsmall.
    destruct (achieved_milestones (loop_state r)) as [|m l]; [reflexivity|].
    exfalso. assert (Hm := He m (or_introl eq_refl)). lia.
Qed.

Lemma counters_bounded_by_level_witness :
  exists r,
    main_game_loop (default_config (spaced_level 3)) 0 (spaced_frames 2) = Ok r
    /\ score (loop_state r) <= 3
    /\ 0 <= misses (loop_state r) <= 3
    /\ achieved_milestones (loop_state r) = [].
Proof.
  destruct (main_game_loop (default_config (spaced_level 3)) 0
              (spaced_frames 2)) as [r|e] eqn:Hr;
    [|vm_compute in Hr; discriminate Hr].
  exists r. split; [reflexivity|].
  destruct (counters_bounded_by_level (default_config (spaced_level 3)) 0
              (spaced_frames 2) r Hr) as [Hs [Hm [_ Hnone]]].
  split; [exact Hs|]. split; [exact Hm|]. apply Hnone. reflexivity.
Defined.

Lemma generate_level_sorted (rnd : nat -> nat) (beats : list Q) (nc bs : Z)
    (lvl : list ScheduledTarget) :
  1 <= bs -> nondecreasing beats ->
  generate_level rnd beats nc bs = Ok lvl ->
  nondecreasing (map time lvl).
Proof.
  intros Hbs Hsorted Hg.
  assert (Hspec := generate_level_spec rnd beats nc bs Hbs).
  rewrite Hg in Hspec. destruct Hspec as [Ht _]. rewrite Ht.
  intros i j a b Hij Ha Hb. rewrite nth_error_map_seq in Ha, Hb.
  destruct (Nat.ltb_spec i (Z.to_nat (range_len 0 (Z.of_nat (length beats)) bs)))
    as [Hi|_]; [|discriminate].
  destruct (Nat.ltb_spec j (Z.to_nat (range_len 0 (Z.of_nat (length beats)) bs)))
    as [Hj|_]; [|discriminate].
  injection Ha as <-. injection Hb as <-.
  assert (Hbi : (i * Z.to_nat bs < length beats)%nat).
  { apply (range_len_spec (Z.of_nat (length beats)) bs i Hbs) in Hi; lia. }
  assert (Hbj : (j * Z.to_nat bs < length beats)%nat).
  { apply (range_len_spec (Z.of_nat (length beats)) bs j Hbs) in Hj; lia. }
  apply (Hsorted (i * Z.to_nat bs)%nat (j * Z.to_nat bs)%nat);
    [nia| |]; apply nth_error_nth'; assumption.
Qed.

(** X24.  A level generated from beats that never go down is spawned
    completely and in its own order: over any sequence of ticks from the
    start of a session, the tiles spawned are those of the generated targets
    whose time has come at one of the ticks, one tile each, in the order in
    which [generate_level] emitted them. *)
Theorem generated_level_spawns_in_order (rnd : nat -> nat) (beats : list Q)
    (nc bs : Z) (lvl : list ScheduledTarget) (sw sh : Z) (ht t0 : Q)
    (ts : list Q) :
  1 <= bs -> nondecreasing beats ->
  generate_level rnd beats nc bs = Ok lvl ->
  tiles (spawn_run (mkConfig lvl sw sh nc ht) ts (initial_state t0))
  = map (new_tile (mkConfig lvl sw sh nc ht)) (filter (ever_due ts) lvl)
  /\ map Tile.column
       (tiles (spawn_run (mkConfig lvl sw sh nc ht) ts (initial_state t0)))
     = map column (filter (ever_due ts) lvl).
Proof.
  intros Hbs Hsorted Hg.
  assert (Hs := generate_level_sorted rnd beats nc bs lvl Hbs Hsorted Hg).
  destruct (spawn_run_sorted (mkConfig lvl sw sh nc ht) ts (initial_state t0)
              Hs eq_refl) as [Ht _].
  cbn [tiles initial_state app level] in Ht. split; [exact Ht|].
  rewrite Ht, map_map. reflexivity.
Qed.

Lemma generated_level_spawns_in_order_witness :
  1 <= 1 /\ nondecreasing [0.5; 1; 1.5; 2]%Q
  /\ exists lvl,
      generate_level (fun k => k) [0.5; 1; 1.5; 2]%Q 4 1 = Ok lvl
      /\ map Tile.column
           (tiles (spawn_run (mkConfig lvl 800 600 4 2) [0.5; 1.2]%Q
                     (initial_state 0)))
         = [0; 2].
Proof.
  assert (Hs : nondecreasing [0.5; 1; 1.5; 2]%Q)
    by (apply nondecreasingb_sound; reflexivity).
  split; [lia|]. split; [exact Hs|].
  destruct (generate_level (fun k => k) [0.5; 1; 1.5; 2]%Q 4 1)
    as [lvl|e] eqn:Hg; [|vm_compute in Hg; discriminate Hg].
  exists lvl. split; [reflexivity|].
  destruct (generated_level_spawns_in_order (fun k => k) [0.5; 1; 1.5; 2]%Q
              4 1 lvl 800 600 2 0 [0.5; 1.2]%Q ltac:(lia) Hs Hg) as [_ Hc].
  rewrite Hc. vm_compute in Hg. injection Hg as <-. reflexivity.
Defined.
